(** * terraform-plugin-framework: types, values, schema and reflection

    A shallow embedding of the attribute type system ([types.ObjectType],
    [types.ListType], [types.MapType] and the primitives), of the tri-state
    values paired with them, of the schema tree and its path stepping, and
    of the part of the reflection engine that the test-suite pins down.

    Conventions of the embedding:
    - a Go interface value that may be [nil] is an [option];
    - a Go [map[string]T] is a [gmap string T] (a nil map and an empty map
      behave alike for [len], lookup and [range], the only operations used);
    - a function returning [(T, error)] returns a [result T]; a run-time
      panic (a method called on a nil interface) is the outcome [Panic];
    - a [for k, v := range m] loop over a map visits the entries in an
      unspecified order in Go; the embedding folds in the order of
      [map_fold].  Whether the loop completes does not depend on the order,
      only which failing entry is reported first does. *)

From stdpp Require Import gmap strings list fin_maps.
Set Warnings "-register-all".
Set Default Proof Using "Type".

(** ** Outcomes *)

(** The kind of a path step, as [%T] prints it in the errors. *)
Inductive stepKind := KAttributeName | KElementKeyString | KElementKeyInt | KElementKeyValue.

(** [fmt.Errorf] and [errors.New] values, one constructor per call site,
    with the data that the formatted text shows where a property reads
    it. *)
Inductive error :=
| ErrListElemType              (* list.go: can't use %s as value of List with ElementType %T *)
| ErrNotMap                    (* map.go: can't use %s as value of Map, can only use tftypes.Map values *)
| ErrMapElemType               (* map.go: can't use %s as value of Map with ElementType %T *)
| ErrObjectType                (* object.go: expected %s, got %s *)
| ErrAs                        (* tftypes.Value.As: can't unmarshal %s into %T *)
| ErrValidate                  (* tftypes.ValidateValue *)
| ErrCannotApplyStep (k : stepKind) (receiver : string)
| ErrAttributeNotFound (name : string) (receiver : string)
| ErrNotAttributePathStepper   (* tftypes.ErrNotAttributePathStepper *)
| ErrPathInsideAtomicAttribute (* schema.go: the sentinel of that name *)
| ErrStillRemains (remaining : nat) (cause : error)  (* "%v still remains in the path: %w" *)
| ErrUnexpectedType            (* schema.go: got unexpected type %T *)
| ErrNoTypeOrAttributes        (* attribute with neither Type nor Attributes *)
| ErrNotAnObject               (* reflect: can't reflect %s into a struct, must be an object *)
| ErrStructObjectMismatch (structOnly objectOnly : gset string)
| ErrUnhandledNull             (* reflect: unhandled null value *)
| ErrUnhandledUnknown.         (* reflect: unhandled unknown value *)

Inductive result (A : Type) :=
| Ok (a : A)
| Err (e : error)
| Panic.
Arguments Ok {A} a.
Arguments Err {A} e.
Arguments Panic {A}.

#[global] Instance result_bind : MBind result := λ A B k r,
  match r with
  | Ok a => k a
  | Err e => Err e
  | Panic => Panic
  end.

Definition is_ok {A} (r : result A) : bool :=
  match r with Ok _ => true | _ => false end.

Definition get_ok {A} (r : result A) : option A :=
  match r with Ok a => Some a | _ => None end.

(** A method call on an interface value: a nil receiver panics. *)
Definition deref {A} (o : option A) : result A :=
  match o with Some a => Ok a | None => Panic end.

(** ** Loops *)

(** [for _, x := range xs { y, err := f(x); if err != nil { return err };
    ys = append(ys, y) }] *)
Fixpoint for_range_list {A B} (f : A → result B) (xs : list A) : result (list B) :=
  match xs with
  | [] => Ok []
  | x :: xs' =>
      match f x with
      | Ok y =>
          match for_range_list f xs' with
          | Ok ys => Ok (y :: ys)
          | Err e => Err e
          | Panic => Panic
          end
      | Err e => Err e
      | Panic => Panic
      end
  end.

(** [for k, v := range m { b, err := f(k, v); if err != nil { return err };
    out[k] = b }] *)
Definition for_range_map {A B} (f : string → A → result B) (m : gmap string A)
  : result (gmap string B) :=
  map_fold (λ k a acc,
    match acc with
    | Ok mb =>
        match f k a with
        | Ok b => Ok (<[k:=b]> mb)
        | Err e => Err e
        | Panic => Panic
        end
    | Err e => Err e
    | Panic => Panic
    end) (Ok ∅) m.

(** [for k, v := range m { if !p(k, v) { return false } }; return true] *)
Definition for_range_all {A} (p : string → A → result bool) (m : gmap string A)
  : result bool :=
  map_fold (λ k a acc,
    match acc with
    | Ok true => p k a
    | other => other
    end) (Ok true) m.

(** The positional loop of [List.Equal]: [other.Elems[pos]] is in range
    because the lengths were compared before. *)
Fixpoint for_range_all2 {A} (p : A → A → result bool) (xs ys : list A) : result bool :=
  match xs, ys with
  | [], _ => Ok true
  | x :: xs', y :: ys' =>
      match p x y with
      | Ok true => for_range_all2 p xs' ys'
      | other => other
      end
  | _ :: _, [] => Panic
  end.

(** [for k, v := range m { if !p(k, v) { return false } }; return true]
    for a test [p] that cannot fail. *)
Definition map_forallb {A} (p : string → A → bool) (m : gmap string A) : bool :=
  map_fold (λ k a acc, acc && p k a) true m.

(** Sizes, for induction through the maps nested in the data types. *)
Definition map_sum {A} (f : A → nat) (m : gmap string A) : nat :=
  map_fold (λ _ a acc, f a + acc) 0 m.

(** [for k, v := range m { if c1 { out[k] = ... }; if c2 { out[k] = ... } }]:
    the body leaves at most one entry under the key [k], the one of the
    last assignment made; [f] gives it, or [None] when no assignment is
    made. *)
Definition for_range_map_opt {A B} (f : string → A → result (option B))
    (m : gmap string A) : result (gmap string B) :=
  map_fold (λ k a acc,
    match acc with
    | Ok mb =>
        match f k a with
        | Ok (Some b) => Ok (<[k:=b]> mb)
        | Ok None => Ok mb
        | Err e => Err e
        | Panic => Panic
        end
    | Err e => Err e
    | Panic => Panic
    end) (Ok ∅) m.

(** ** Arbitrary-precision numbers (Go library, package math/big)

    A finite [big.Float] is the number [mant * 2^exp] together with the
    precision [prec], the number of mantissa bits that the variable keeps;
    the zero value of the Go type has precision 0. *)
Module big.

Record Float := mkFloat { prec : N; mant : Z; exp : Z }.

(** The number of bits of the mantissa. *)
Definition bitlen (m : Z) : Z :=
  if (m =? 0)%Z then 0%Z else (Z.log2 (Z.abs m) + 1)%Z.

(** A value as Go holds it: the mantissa fits the precision. *)
Definition valid (x : Float) : bool := (bitlen (mant x) <=? Z.of_N (prec x))%Z.

(** Rounding to [p] bits, to nearest, ties to even (the rounding mode of
    a new [Float]): the [s] bits that do not fit are dropped, and the rest
    goes up by one when they are more than half, or half with an odd
    rest. *)
Definition round (p : N) (m e : Z) : Z * Z :=
  let n := Z.abs m in
  let s := (bitlen n - Z.of_N p)%Z in
  if (s <=? 0)%Z then (m, e)
  else
    let q := Z.shiftr n s in
    let r := Z.land n (Z.ones s) in
    let half := Z.shiftl 1 (s - 1) in
    let q' := if (half <? r)%Z || ((r =? half)%Z && Z.odd q) then (q + 1)%Z else q in
    ((Z.sgn m * q')%Z, (e + s)%Z).

(** [big.NewFloat(x)] for an integer [x]: precision 53. *)
Definition NewFloat (x : Z) : Float :=
  let '(m, e) := round 53 x 0 in mkFloat 53 m e.

(** [z.Set(x)]: [z] takes the value of [x]; a [z] of precision 0 takes
    the precision of [x], and a [z] of smaller precision than [x] rounds
    the value to its own. *)
Definition Set_ (z x : Float) : Float :=
  if (prec z =? 0)%N then x
  else if (prec z <? prec x)%N then
    let '(m, e) := round (prec z) (mant x) (exp x) in mkFloat (prec z) m e
  else mkFloat (prec z) (mant x) (exp x).

(** [x.Cmp(y)]: the order of the two numbers. *)
Definition Cmp (x y : Float) : comparison :=
  let e := Z.min (exp x) (exp y) in
  (mant x * 2 ^ (exp x - e) ?= mant y * 2 ^ (exp y - e))%Z.

End big.

(** ** The wire library (terraform-plugin-go, package tftypes)

    The repository imports this package; the embedding fixes the part of
    its behaviour that the sources rely on. *)
Module tftypes.

(** [tftypes.Type], restricted to the kinds the framework types produce. *)
Inductive Type_ :=
| String | Number | Bool
| List (ElementType : Type_)
| Map (AttributeType : Type_)
| Object (AttributeTypes : gmap string Type_).

(** The dynamic Go value held by a [tftypes.Value]: [nil], the
    [tftypes.UnknownValue] sentinel, a [string], a [*big.Float] (nil
    pointer: [None]), a [bool], a [[]tftypes.Value] or a
    [map[string]tftypes.Value]. *)
Inductive raw (V : Type) :=
| RawNil
| RawUnknown
| RawString (s : string)
| RawNumber (n : option big.Float)
| RawBool (b : bool)
| RawList (l : list V)
| RawMap (m : gmap string V).
Arguments RawNil {V}.
Arguments RawUnknown {V}.
Arguments RawString {V} s.
Arguments RawNumber {V} n.
Arguments RawBool {V} b.
Arguments RawList {V} l.
Arguments RawMap {V} m.

Inductive Value := mkValue (typ : Type_) (value : raw Value).

Definition Value_Type (v : Value) : Type_ := let 'mkValue t _ := v in t.
Definition Value_value (v : Value) : raw Value := let 'mkValue _ r := v in r.

(** [a.Is(b)] where [b] has no nil component: same kind, and the
    components are pairwise [Is]. *)
Fixpoint Is (a b : Type_) {struct a} : bool :=
  match a, b with
  | String, String | Number, Number | Bool, Bool => true
  | List x, List y => Is x y
  | Map x, Map y => Is x y
  | Object ma, Object mb =>
      bool_decide (size ma = size mb) &&
      map_forallb (λ k ta,
        match mb !! k with Some tb => Is ta tb | None => false end) ma
  | _, _ => false
  end.

(** [a.Is(tftypes.Map{})]: with a nil [AttributeType] only the kind is
    compared. *)
Definition IsMap (a : Type_) : bool :=
  match a with Map _ => true | _ => false end.

Definition IsKnown (v : Value) : bool :=
  match Value_value v with RawUnknown => false | _ => true end.

Definition IsNull (v : Value) : bool :=
  match Value_value v with RawNil => true | _ => false end.

(** [in.As(&s)] and the like, for a known, non-null value: the type
    assertion on the dynamic value. *)
Definition As_string (v : Value) : result string :=
  match Value_value v with RawString s => Ok s | _ => Err ErrAs end.

Definition As_bool (v : Value) : result bool :=
  match Value_value v with RawBool b => Ok b | _ => Err ErrAs end.

(** [in.As(&n)] for a [*big.Float]: [target.Set(v)], which dereferences
    [v]. *)
Definition As_number (target : big.Float) (v : Value) : result big.Float :=
  match Value_value v with
  | RawNumber (Some f) => Ok (big.Set_ target f)
  | RawNumber None => Panic
  | _ => Err ErrAs
  end.

Definition As_list (v : Value) : result (list Value) :=
  match Value_value v with RawList l => Ok l | _ => Err ErrAs end.

Definition As_map (v : Value) : result (gmap string Value) :=
  match Value_value v with RawMap m => Ok m | _ => Err ErrAs end.

(** [tftypes.ValidateValue(t, val)]: nil and unknown fit every type; a
    primitive needs the matching Go type; the elements of a list or a map
    must be of the element type; an object needs exactly the attributes of
    its type, each of the attribute's type. *)
Definition ValidateValue (t : Type_) (val : raw Value) : bool :=
  match val with
  | RawNil | RawUnknown => true
  | RawString _ => match t with String => true | _ => false end
  | RawNumber _ => match t with Number => true | _ => false end
  | RawBool _ => match t with Bool => true | _ => false end
  | RawList l =>
      match t with
      | List e => forallb (λ v, Is (Value_Type v) e) l
      | _ => false
      end
  | RawMap m =>
      match t with
      | Map e => map_forallb (λ _ v, Is (Value_Type v) e) m
      | Object ts =>
          map_forallb (λ k _, bool_decide (is_Some (m !! k))) ts &&
          map_forallb (λ k v,
            match ts !! k with
            | Some t' => Is (Value_Type v) t'
            | None => false
            end) m
      | _ => false
      end
  end.

(** [tftypes.NewValue(t, val)] panics where [ValidateValue] fails; a nil
    [*big.Float] makes a null value. *)
Definition NewValue (t : Type_) (val : raw Value) : result Value :=
  if ValidateValue t val then
    match val with
    | RawNumber None => Ok (mkValue t RawNil)
    | _ => Ok (mkValue t val)
    end
  else Panic.

(** [tftypes.AttributePathStep] *)
Inductive AttributePathStep :=
| AttributeName (name : string)
| ElementKeyString (key : string)
| ElementKeyInt (index : Z)
| ElementKeyValue (v : Value).

Definition step_kind (s : AttributePathStep) : stepKind :=
  match s with
  | AttributeName _ => KAttributeName
  | ElementKeyString _ => KElementKeyString
  | ElementKeyInt _ => KElementKeyInt
  | ElementKeyValue _ => KElementKeyValue
  end.

Fixpoint Value_size (v : Value) : nat :=
  match v with
  | mkValue _ (RawList l) => S (list_sum (map Value_size l))
  | mkValue _ (RawMap m) => S (map_sum Value_size m)
  | _ => 1
  end.

Fixpoint Type_size (t : Type_) : nat :=
  match t with
  | List e | Map e => S (Type_size e)
  | Object m => S (map_sum Type_size m)
  | _ => 1
  end.

End tftypes.

(** ** Package types: the attribute types *)
Module types.

(** Modelled from the spec: the three primitive types ([primitive.go] is
    not among the sources). "Type System (primitive types: string,
    boolean, arbitrary-precision number ...)"; the sources name them
    [types.StringType], [types.NumberType] and [types.BoolType]. *)
Inductive primitive := StringType | NumberType | BoolType.

(** The implementations of [attr.Type].  An [attr.Type] interface value is
    an [option Type_]: [None] is the nil interface. *)
Inductive Type_ :=
| Prim (p : primitive)
| ObjectType (AttrTypes : gmap string (option Type_))
| ListType (ElemType : option Type_)
| MapType (ElemType : option Type_).
Coercion Prim : primitive >-> Type_.

Fixpoint Type_size (t : Type_) : nat :=
  match t with
  | Prim _ => 1
  | ObjectType m => S (map_sum (λ o, match o with Some t' => Type_size t' | None => 0 end) m)
  | ListType (Some e) | MapType (Some e) => S (Type_size e)
  | ListType None | MapType None => 1
  end.

(** Modelled from the spec: "wireShape(ctx) → the external wire-type
    descriptor corresponding to this Type", for the primitives. *)
Definition primitive_TerraformType (p : primitive) : tftypes.Type_ :=
  match p with
  | StringType => tftypes.String
  | NumberType => tftypes.Number
  | BoolType => tftypes.Bool
  end.

(** [ObjectType.TerraformType], [ListType.TerraformType],
    [MapType.TerraformType]. *)
Fixpoint TerraformType (t : Type_) : result tftypes.Type_ :=
  match t with
  | Prim p => Ok (primitive_TerraformType p)
  | ObjectType m =>
      match for_range_map (λ _ v,
              match v with
              | Some v' => TerraformType v'
              | None => Panic
              end) m with
      | Ok attributeTypes => Ok (tftypes.Object attributeTypes)
      | Err e => Err e
      | Panic => Panic
      end
  | ListType e =>
      match e with
      | Some e' =>
          match TerraformType e' with
          | Ok ty => Ok (tftypes.List ty)
          | Err e => Err e
          | Panic => Panic
          end
      | None => Panic
      end
  | MapType e =>
      match e with
      | Some e' =>
          match TerraformType e' with
          | Ok ty => Ok (tftypes.Map ty)
          | Err e => Err e
          | Panic => Panic
          end
      | None => Panic
      end
  end.

(** [l.ElemType.TerraformType(ctx)] on an interface value. *)
Definition iface_TerraformType (o : option Type_) : result tftypes.Type_ :=
  match o with Some t => TerraformType t | None => Panic end.

(** Modelled from the spec: "Equality is variant + recursive structural
    comparison", for the primitives: equal to the same primitive only. *)
Definition primitive_Equal (p : primitive) (o : option Type_) : bool :=
  match o with
  | Some (Prim q) =>
      match p, q with
      | StringType, StringType | NumberType, NumberType | BoolType, BoolType => true
      | _, _ => false
      end
  | _ => false
  end.

(** [ObjectType.Equal], [ListType.Equal], [MapType.Equal]; the argument is
    an interface value. *)
Fixpoint Type_Equal (t : Type_) (o : option Type_) {struct t} : result bool :=
  match t with
  | Prim p => Ok (primitive_Equal p o)
  | ObjectType m =>
      match o with
      | Some (ObjectType other) =>
          if bool_decide (size other ≠ size m) then Ok false
          else for_range_all (λ k v,
                 match other !! k with
                 | None => Ok false
                 | Some attr =>
                     match v with
                     | Some v' => Type_Equal v' attr
                     | None => Panic
                     end
                 end) m
      | _ => Ok false
      end
  | ListType e =>
      match e with
      | None => Ok false
      | Some e' =>
          match o with
          | Some (ListType other) => Type_Equal e' other
          | _ => Ok false
          end
      end
  | MapType e =>
      match e with
      | None => Ok false
      | Some e' =>
          match o with
          | Some (MapType other) => Type_Equal e' other
          | _ => Ok false
          end
      end
  end.

(** [v.Equal(attr)] with an interface receiver. *)
Definition iface_Equal (v o : option Type_) : result bool :=
  match v with Some t => Type_Equal t o | None => Panic end.

(** [primitive.ApplyTerraform5AttributePathStep] is declared with the
    primitive types, in a file that is not among the sources, and the spec
    gives a stepping rule for Object, List and Map only.  The stepper of
    the primitives is therefore a parameter: whatever walks a path takes
    it, and what is proved of paths holds for every such function. *)
Class PrimitiveStepper :=
  primitive_ApplyTerraform5AttributePathStep :
    primitive → tftypes.AttributePathStep → result (option Type_).

(** A stepper for the examples in which no primitive is stepped: were it
    called, the example would end in [Panic]. *)
Definition unreached : PrimitiveStepper := λ _ _, Panic.

(** [ObjectType.ApplyTerraform5AttributePathStep],
    [ListType.ApplyTerraform5AttributePathStep],
    [MapType.ApplyTerraform5AttributePathStep].  The result is the
    [interface{}] the source returns: here always an [attr.Type], nil when
    the map lookup of [ObjectType] misses or the element type is nil.  A
    primitive is stepped by the parameter. *)
Definition ApplyTerraform5AttributePathStep {ps : PrimitiveStepper}
    (t : Type_) (step : tftypes.AttributePathStep) : result (option Type_) :=
  match t with
  | Prim p => primitive_ApplyTerraform5AttributePathStep p step
  | ObjectType m =>
      match step with
      | tftypes.AttributeName name => Ok (default None (m !! name))
      | _ => Err (ErrCannotApplyStep (tftypes.step_kind step) "ObjectType")
      end
  | ListType e =>
      match step with
      | tftypes.ElementKeyInt _ => Ok e
      | _ => Err (ErrCannotApplyStep (tftypes.step_kind step) "ListType")
      end
  | MapType e =>
      match step with
      | tftypes.ElementKeyString _ => Ok e
      | _ => Err (ErrCannotApplyStep (tftypes.step_kind step) "MapType")
      end
  end.

(** *** The values *)

(** [types.String], [types.Number], [types.Object], [types.List],
    [types.Map]: the structs of the sources, field by field; a nil
    [*big.Float] is [None].

    Modelled from the spec: [Bool] ([bool.go] is not among the sources),
    "Variants mirror Type: StringValue, BoolValue, NumberValue ...". *)
Inductive Value :=
| String (Unknown Null : bool) (Value : string)
| Number (Unknown Null : bool) (Value : option big.Float)
| Bool (Unknown Null : bool) (Value : bool)
| Object (Unknown Null : bool) (Attrs : gmap string Value)
    (AttrTypes : gmap string (option Type_))
| List (Unknown Null : bool) (Elems : list Value) (ElemType : option Type_)
| Map (Unknown Null : bool) (Elems : gmap string Value) (ElemType : option Type_).

Definition Value_Unknown (v : Value) : bool :=
  match v with
  | String u _ _ | Number u _ _ | Bool u _ _
  | Object u _ _ _ | List u _ _ _ | Map u _ _ _ => u
  end.

Definition Value_Null (v : Value) : bool :=
  match v with
  | String _ n _ | Number _ n _ | Bool _ n _
  | Object _ n _ _ | List _ n _ _ | Map _ n _ _ => n
  end.

Fixpoint Value_size (v : Value) : nat :=
  match v with
  | Object _ _ attrs _ => S (map_sum Value_size attrs)
  | List _ _ elems _ => S (list_sum (map Value_size elems))
  | Map _ _ elems _ => S (map_sum Value_size elems)
  | _ => 1
  end.

(** [n.Value.Cmp(o.Value) == 0] behind the two nil tests of
    [Number.Equal]. *)
Definition Number_Value_Equal (a b : option big.Float) : bool :=
  match a, b with
  | None, None => true
  | None, Some _ | Some _, None => false
  | Some x, Some y => match big.Cmp x y with Eq => true | _ => false end
  end.

(** One element of the loops of [List.ToTerraformValue],
    [Map.ToTerraformValue] and [Object.ToTerraformValue]: validate the
    element's Go value against the declared type and wrap it. *)
Definition wrap (elemType : option Type_) (val : tftypes.raw tftypes.Value)
  : result tftypes.Value :=
  ty ← iface_TerraformType elemType;
  if tftypes.ValidateValue ty val then tftypes.NewValue ty val else Err ErrValidate.

(** [String.ToTerraformValue], [Number.ToTerraformValue] (null is tested
    first), [Object.ToTerraformValue], [List.ToTerraformValue],
    [Map.ToTerraformValue] (unknown is tested first); [Bool] as [String]. *)
Fixpoint ToTerraformValue (v : Value) : result (tftypes.raw tftypes.Value) :=
  match v with
  | String u n s =>
      if n then Ok tftypes.RawNil
      else if u then Ok tftypes.RawUnknown
      else Ok (tftypes.RawString s)
  | Number u n q =>
      if n then Ok tftypes.RawNil
      else if u then Ok tftypes.RawUnknown
      else Ok (tftypes.RawNumber q)
  | Bool u n b =>
      if n then Ok tftypes.RawNil
      else if u then Ok tftypes.RawUnknown
      else Ok (tftypes.RawBool b)
  | Object u n attrs attrTypes =>
      if u then Ok tftypes.RawUnknown
      else if n then Ok tftypes.RawNil
      else
        match for_range_map (λ k a,
                match ToTerraformValue a with
                | Ok val => wrap (default None (attrTypes !! k)) val
                | Err e => Err e
                | Panic => Panic
                end) attrs with
        | Ok vals => Ok (tftypes.RawMap vals)
        | Err e => Err e
        | Panic => Panic
        end
  | List u n elems elemType =>
      if u then Ok tftypes.RawUnknown
      else if n then Ok tftypes.RawNil
      else
        match for_range_list (λ elem,
                match ToTerraformValue elem with
                | Ok val => wrap elemType val
                | Err e => Err e
                | Panic => Panic
                end) elems with
        | Ok vals => Ok (tftypes.RawList vals)
        | Err e => Err e
        | Panic => Panic
        end
  | Map u n elems elemType =>
      if u then Ok tftypes.RawUnknown
      else if n then Ok tftypes.RawNil
      else
        match for_range_map (λ _ elem,
                match ToTerraformValue elem with
                | Ok val => wrap elemType val
                | Err e => Err e
                | Panic => Panic
                end) elems with
        | Ok vals => Ok (tftypes.RawMap vals)
        | Err e => Err e
        | Panic => Panic
        end
  end.

(** [String.Equal], [Number.Equal], [Object.Equal], [List.Equal],
    [Map.Equal]; [Bool] as [String]. *)
Fixpoint Value_Equal (v o : Value) {struct v} : result bool :=
  match v with
  | String u n s =>
      match o with
      | String u' n' s' =>
          if negb (eqb u u') then Ok false
          else if negb (eqb n n') then Ok false
          else Ok (bool_decide (s = s'))
      | _ => Ok false
      end
  | Number u n q =>
      match o with
      | Number u' n' q' =>
          if negb (eqb u u') then Ok false
          else if negb (eqb n n') then Ok false
          else Ok (Number_Value_Equal q q')
      | _ => Ok false
      end
  | Bool u n b =>
      match o with
      | Bool u' n' b' =>
          if negb (eqb u u') then Ok false
          else if negb (eqb n n') then Ok false
          else Ok (eqb b b')
      | _ => Ok false
      end
  | Object u n attrs attrTypes =>
      match o with
      | Object u' n' attrs' attrTypes' =>
          if negb (eqb u u') then Ok false
          else if negb (eqb n n') then Ok false
          else if bool_decide (size attrTypes ≠ size attrTypes') then Ok false
          else
            match for_range_all (λ k ty,
                    match attrTypes' !! k with
                    | None => Ok false
                    | Some attr => iface_Equal ty attr
                    end) attrTypes with
            | Ok true =>
                if bool_decide (size attrs ≠ size attrs') then Ok false
                else for_range_all (λ k a,
                       match attrs' !! k with
                       | None => Ok false
                       | Some attr => Value_Equal a attr
                       end) attrs
            | other => other
            end
      | _ => Ok false
      end
  | List u n elems elemType =>
      match o with
      | List u' n' elems' elemType' =>
          if negb (eqb u u') then Ok false
          else if negb (eqb n n') then Ok false
          else
            match iface_Equal elemType elemType' with
            | Ok true =>
                if bool_decide (length elems ≠ length elems') then Ok false
                else for_range_all2 Value_Equal elems elems'
            | other => other
            end
      | _ => Ok false
      end
  | Map u n elems elemType =>
      match o with
      | Map u' n' elems' elemType' =>
          if negb (eqb u u') then Ok false
          else if negb (eqb n n') then Ok false
          else
            match iface_Equal elemType elemType' with
            | Ok true =>
                if bool_decide (size elems ≠ size elems') then Ok false
                else for_range_all (λ key mElem,
                       match elems' !! key with
                       | None => Ok false
                       | Some oElem => Value_Equal mElem oElem
                       end) elems
            | other => other
            end
      | _ => Ok false
      end
  end.

(** *** Decoding *)

(** [stringValueFromTerraform] *)
Definition stringValueFromTerraform (in_ : tftypes.Value) : result Value :=
  if negb (tftypes.IsKnown in_) then Ok (String true false "")
  else if tftypes.IsNull in_ then Ok (String false true "")
  else s ← tftypes.As_string in_; Ok (String false false s).

(** [numberValueFromTerraform]: the target of [As] is
    [big.NewFloat(0)]. *)
Definition numberValueFromTerraform (in_ : tftypes.Value) : result Value :=
  if negb (tftypes.IsKnown in_) then Ok (Number true false None)
  else if tftypes.IsNull in_ then Ok (Number false true None)
  else n ← tftypes.As_number (big.NewFloat 0) in_; Ok (Number false false (Some n)).

(** Modelled from the spec: [boolValueFromTerraform] ([bool.go] is not
    among the sources), by the decode algorithm of the spec: "first check
    wire-level known/null tri-state flags — if unknown or null, return the
    corresponding Value immediately", as its two siblings above do. *)
Definition boolValueFromTerraform (in_ : tftypes.Value) : result Value :=
  if negb (tftypes.IsKnown in_) then Ok (Bool true false false)
  else if tftypes.IsNull in_ then Ok (Bool false true false)
  else b ← tftypes.As_bool in_; Ok (Bool false false b).

(** Modelled from the spec: the [ValueFromTerraform] method of the
    primitives, "decode(ctx, wireValue) → (Value, error)", dispatching to
    the function of the primitive. *)
Definition primitive_ValueFromTerraform (p : primitive) (in_ : tftypes.Value)
  : result Value :=
  match p with
  | StringType => stringValueFromTerraform in_
  | NumberType => numberValueFromTerraform in_
  | BoolType => boolValueFromTerraform in_
  end.

(** [ObjectType.ValueFromTerraform], [ListType.ValueFromTerraform],
    [MapType.ValueFromTerraform].  The three tests [!in.IsKnown()],
    [in.IsNull()] and [in.As(&val)] that follow the type test are one
    match on the dynamic value, so that the recursion is structural in the
    wire value; [ValueFromTerraform_ListType] and its siblings below give
    the sequence of the sources. *)
Fixpoint ValueFromTerraform (t : Type_) (in_ : tftypes.Value) {struct in_}
  : result Value :=
  let 'tftypes.mkValue inType payload := in_ in
  match t with
  | Prim p => primitive_ValueFromTerraform p (tftypes.mkValue inType payload)
  | ObjectType attrTypes =>
      match TerraformType (ObjectType attrTypes) with
      | Ok ty =>
          if negb (tftypes.Is inType ty) then Err ErrObjectType
          else
            match payload with
            | tftypes.RawUnknown => Ok (Object true false ∅ attrTypes)
            | tftypes.RawNil => Ok (Object false true ∅ attrTypes)
            | tftypes.RawMap val =>
                match for_range_map (λ k v,
                        match default None (attrTypes !! k) with
                        | Some ty' => ValueFromTerraform ty' v
                        | None => Panic
                        end) val with
                | Ok attributes => Ok (Object false false attributes attrTypes)
                | Err err => Err err
                | Panic => Panic
                end
            | _ => Err ErrAs
            end
      | Err err => Err err
      | Panic => Panic
      end
  | ListType e =>
      match TerraformType (ListType e) with
      | Ok ty =>
          if negb (tftypes.Is inType ty) then Err ErrListElemType
          else
            match payload with
            | tftypes.RawUnknown => Ok (List true false [] e)
            | tftypes.RawNil => Ok (List false true [] e)
            | tftypes.RawList val =>
                match for_range_list (λ elem,
                        match e with
                        | Some e' => ValueFromTerraform e' elem
                        | None => Panic
                        end) val with
                | Ok elems => Ok (List false false elems e)
                | Err err => Err err
                | Panic => Panic
                end
            | _ => Err ErrAs
            end
      | Err err => Err err
      | Panic => Panic
      end
  | MapType e =>
      if negb (tftypes.IsMap inType) then Err ErrNotMap
      else
        match iface_TerraformType e with
        | Ok ety =>
            if negb (tftypes.Is inType (tftypes.Map ety)) then Err ErrMapElemType
            else
              match payload with
              | tftypes.RawUnknown => Ok (Map true false ∅ e)
              | tftypes.RawNil => Ok (Map false true ∅ e)
              | tftypes.RawMap val =>
                  match for_range_map (λ _ elem,
                          match e with
                          | Some e' => ValueFromTerraform e' elem
                          | None => Panic
                          end) val with
                  | Ok elems => Ok (Map false false elems e)
                  | Err err => Err err
                  | Panic => Panic
                  end
              | _ => Err ErrAs
              end
        | Err err => Err err
        | Panic => Panic
        end
  end.

(** [av, err := l.ElemType.ValueFromTerraform(ctx, elem)] on an interface
    receiver. *)
Definition iface_ValueFromTerraform (o : option Type_) (in_ : tftypes.Value)
  : result Value :=
  match o with Some t => ValueFromTerraform t in_ | None => Panic end.

End types.

(** ** Package schema *)
Module schema.

(** [NestingMode] *)
Inductive NestingMode :=
| NestingModeUnknown
| NestingModeSingle
| NestingModeList
| NestingModeSet
| NestingModeMap.

(** [Attribute] is declared in a file that is not among the sources; the
    sources read its fields [Type] and [Attributes], both interface
    values.  [NestedAttributes] has the four implementations of
    [nested_attributes.go]; [nestedAttributes] is the map they embed. *)
Inductive Attribute :=
| mkAttribute (Type_ : option types.Type_) (Attributes : option NestedAttributes)
with NestedAttributes :=
| singleNestedAttributes (nestedAttributes : gmap string Attribute)
| listNestedAttributes (nestedAttributes : gmap string Attribute) (min max : Z)
| setNestedAttributes (nestedAttributes : gmap string Attribute) (min max : Z)
| mapNestedAttributes (nestedAttributes : gmap string Attribute) (min max : Z).

Definition Attribute_Type (a : Attribute) : option types.Type_ :=
  let 'mkAttribute t _ := a in t.
Definition Attribute_Attributes (a : Attribute) : option NestedAttributes :=
  let 'mkAttribute _ n := a in n.

Definition GetAttributes (n : NestedAttributes) : gmap string Attribute :=
  match n with
  | singleNestedAttributes attrs
  | listNestedAttributes attrs _ _
  | setNestedAttributes attrs _ _
  | mapNestedAttributes attrs _ _ => attrs
  end.

Definition GetNestingMode (n : NestedAttributes) : NestingMode :=
  match n with
  | singleNestedAttributes _ => NestingModeSingle
  | listNestedAttributes _ _ _ => NestingModeList
  | setNestedAttributes _ _ _ => NestingModeSet
  | mapNestedAttributes _ _ _ => NestingModeMap
  end.

(** The body of the loop of [nestedAttributes.AttributeType] and of
    [Schema.AttributeType]: the entry that an attribute leaves in
    [attrTypes], if any; the second assignment overwrites the first.
    [AttributeType] is the method of the four implementations:
    [singleNestedAttributes] inherits that of the embedded map,
    [listNestedAttributes] wraps it in a list, and the other two return
    nil. *)
Fixpoint attrTypes_entry (a : Attribute) : option (option types.Type_) :=
  match a with
  | mkAttribute t n =>
      match n with
      | Some n' => Some (AttributeType n')
      | None =>
          match t with
          | Some t' => Some (Some t')
          | None => None
          end
      end
  end
with AttributeType (n : NestedAttributes) : option types.Type_ :=
  match n with
  | singleNestedAttributes attrs =>
      Some (types.ObjectType (omap attrTypes_entry attrs))
  | listNestedAttributes attrs _ _ =>
      Some (types.ListType (Some (types.ObjectType (omap attrTypes_entry attrs))))
  | setNestedAttributes _ _ _ => None
  | mapNestedAttributes _ _ _ => None
  end.

(** [nestedAttributes.AttributeType] *)
Definition nestedAttributes_AttributeType (n : gmap string Attribute) : types.Type_ :=
  types.ObjectType (omap attrTypes_entry n).

(** [Schema] *)
Record Schema := mkSchema {
  Attributes : gmap string Attribute;
  Version : Z;
  DeprecationMessage : string;
  Description : string;
  MarkdownDescription : string
}.

(** [Schema.AttributeType] *)
Definition Schema_AttributeType (s : Schema) : types.Type_ :=
  types.ObjectType (omap attrTypes_entry (Attributes s)).

(** What a step can return, and what a path is walked through: the
    [interface{}] of [tftypes.AttributePathStepper]. *)
Inductive node :=
| NSchema (s : Schema)
| NAttribute (a : Attribute)
| NnestedAttributes (n : gmap string Attribute)
| NType (t : option types.Type_).

(** [Schema.ApplyTerraform5AttributePathStep] *)
Definition Schema_ApplyTerraform5AttributePathStep
    (s : Schema) (step : tftypes.AttributePathStep) : result node :=
  match step with
  | tftypes.AttributeName v =>
      match Attributes s !! v with
      | Some attr => Ok (NAttribute attr)
      | None => Err (ErrAttributeNotFound v "schema")
      end
  | _ => Err (ErrCannotApplyStep (tftypes.step_kind step) "schema")
  end.

(** [nestedAttributes.ApplyTerraform5AttributePathStep] *)
Definition nestedAttributes_ApplyTerraform5AttributePathStep
    (n : gmap string Attribute) (step : tftypes.AttributePathStep) : result node :=
  match step with
  | tftypes.AttributeName a =>
      match n !! a with
      | Some res => Ok (NAttribute res)
      | None => Err (ErrAttributeNotFound a "Attributes")
      end
  | _ => Err (ErrCannotApplyStep (tftypes.step_kind step) "Attributes")
  end.

(** The [ApplyTerraform5AttributePathStep] of the four implementations. *)
Definition NestedAttributes_ApplyTerraform5AttributePathStep
    (n : NestedAttributes) (step : tftypes.AttributePathStep) : result node :=
  match n with
  | singleNestedAttributes attrs =>
      nestedAttributes_ApplyTerraform5AttributePathStep attrs step
  | listNestedAttributes attrs _ _ =>
      match step with
      | tftypes.ElementKeyInt _ => Ok (NnestedAttributes attrs)
      | _ => Err (ErrCannotApplyStep (tftypes.step_kind step) "ListNestedAttributes")
      end
  | setNestedAttributes attrs _ _ =>
      match step with
      | tftypes.ElementKeyValue _ => Ok (NnestedAttributes attrs)
      | _ => Err (ErrCannotApplyStep (tftypes.step_kind step) "sets")
      end
  | mapNestedAttributes attrs _ _ =>
      match step with
      | tftypes.ElementKeyString _ => Ok (NnestedAttributes attrs)
      | _ => Err (ErrCannotApplyStep (tftypes.step_kind step) "maps")
      end
  end.

(** Modelled from the spec: [Attribute.ApplyTerraform5AttributePathStep]
    (declared with [Attribute], not among the sources).  "Attribute —
    polymorphic over {leaf Type, nested-attribute group}" and "Path
    Stepper: applies a single addressing step ... to a Type or a schema
    node, yielding the child Type/node or a typed error": the step goes to
    the leaf Type when there is one, else to the nested group. *)
Definition Attribute_ApplyTerraform5AttributePathStep
    {ps : types.PrimitiveStepper}
    (a : Attribute) (step : tftypes.AttributePathStep) : result node :=
  match Attribute_Type a with
  | Some t => r ← types.ApplyTerraform5AttributePathStep t step; Ok (NType r)
  | None =>
      match Attribute_Attributes a with
      | Some n => NestedAttributes_ApplyTerraform5AttributePathStep n step
      | None => Err ErrNoTypeOrAttributes
      end
  end.

(** [tftypes.WalkAttributePath]: apply the steps in turn; stop at the
    first one that fails, or at a value that is no stepper (nil).  The
    three results of the Go function are the node reached, the path that
    remains and the error. *)
Definition apply_step {ps : types.PrimitiveStepper}
    (n : node) (step : tftypes.AttributePathStep) : result node :=
  match n with
  | NSchema s => Schema_ApplyTerraform5AttributePathStep s step
  | NAttribute a => Attribute_ApplyTerraform5AttributePathStep a step
  | NnestedAttributes m => nestedAttributes_ApplyTerraform5AttributePathStep m step
  | NType (Some t) => r ← types.ApplyTerraform5AttributePathStep t step; Ok (NType r)
  | NType None => Err ErrNotAttributePathStepper
  end.

Fixpoint WalkAttributePath {ps : types.PrimitiveStepper}
    (n : node) (path : list tftypes.AttributePathStep)
  : result (node * list tftypes.AttributePathStep * option error) :=
  match path with
  | [] => Ok (n, path, None)
  | step :: rest =>
      match apply_step n step with
      | Ok next => WalkAttributePath next rest
      | Err err => Ok (n, path, Some err)
      | Panic => Panic
      end
  end.

(** [Schema.AttributeAtPath] *)
Definition AttributeAtPath {ps : types.PrimitiveStepper}
    (s : Schema) (path : list tftypes.AttributePathStep)
  : result Attribute :=
  '(res, remaining, err) ← WalkAttributePath (NSchema s) path;
  match err with
  | Some err => Err (ErrStillRemains (length remaining) err)
  | None =>
      match res with
      | NType (Some _) => Err ErrPathInsideAtomicAttribute
      | NAttribute a => Ok a
      | _ => Err ErrUnexpectedType
      end
  end.

(** [Schema.AttributeTypeAtPath] *)
Definition AttributeTypeAtPath {ps : types.PrimitiveStepper}
    (s : Schema) (path : list tftypes.AttributePathStep)
  : result (option types.Type_) :=
  '(rawType, remaining, err) ← WalkAttributePath (NSchema s) path;
  match err with
  | Some err => Err (ErrStillRemains (length remaining) err)
  | None =>
      match rawType with
      | NType (Some typ) => Ok (Some typ)
      | NnestedAttributes n => Ok (Some (nestedAttributes_AttributeType n))
      | NAttribute a =>
          match Attribute_Type a with
          | Some t => Ok (Some t)
          | None =>
              match Attribute_Attributes a with
              | Some n => Ok (AttributeType n)
              | None => Panic
              end
          end
      | _ => Err ErrUnexpectedType
      end
  end.

(** The body of the loop of [Schema.TerraformType]: both branches are
    evaluated in turn, so that [attr.Type.TerraformType] is called even
    where the second assignment overwrites its result;
    [attr.Attributes.AttributeType()] may be the nil interface. *)
Definition TerraformType_entry (a : Attribute) : result (option tftypes.Type_) :=
  first ← match Attribute_Type a with
           | Some t => ty ← types.TerraformType t; Ok (Some ty)
           | None => Ok None
           end;
  match Attribute_Attributes a with
  | Some n => ty ← types.iface_TerraformType (AttributeType n); Ok (Some ty)
  | None => Ok first
  end.

(** [Schema.TerraformType] *)
Definition Schema_TerraformType (s : Schema) : result tftypes.Type_ :=
  attrTypes ← for_range_map_opt (λ _ a, TerraformType_entry a) (Attributes s);
  Ok (tftypes.Object attrTypes).

(** [GetMinItems] and [GetMaxItems] of the four implementations. *)
Definition GetMinItems (n : NestedAttributes) : Z :=
  match n with
  | singleNestedAttributes _ => 0
  | listNestedAttributes _ min _ => min
  | setNestedAttributes _ min _ => min
  | mapNestedAttributes _ min _ => min
  end.

Definition GetMaxItems (n : NestedAttributes) : Z :=
  match n with
  | singleNestedAttributes _ => 0
  | listNestedAttributes _ _ max => max
  | setNestedAttributes _ _ max => max
  | mapNestedAttributes _ _ max => max
  end.

Section Equal.

(** [Attribute.Equal] is declared with [Attribute], in a file that is not
    among the sources: the [Equal] of the nested attributes is given for
    any such function. *)
Variable Attribute_Equal : Attribute → Attribute → bool.

(** The tail that the four [Equal] methods have in common:
    [if len(other.nestedAttributes) != len(s.nestedAttributes) { return
    false }], then the loop over [s.nestedAttributes]. *)
Definition nestedAttributes_Equal (s other : gmap string Attribute) : bool :=
  if bool_decide (size other ≠ size s) then false
  else map_forallb (λ k v,
         match other !! k with
         | None => false
         | Some otherV => Attribute_Equal v otherV
         end) s.

(** [singleNestedAttributes.Equal], [listNestedAttributes.Equal],
    [setNestedAttributes.Equal], [mapNestedAttributes.Equal]; the argument
    is an interface value. *)
Definition NestedAttributes_Equal (n : NestedAttributes) (o : option NestedAttributes)
  : bool :=
  match n with
  | singleNestedAttributes s =>
      match o with
      | Some (singleNestedAttributes other) => nestedAttributes_Equal s other
      | _ => false
      end
  | listNestedAttributes l min max =>
      match o with
      | Some (listNestedAttributes other omin omax) =>
          if bool_decide (min ≠ omin) then false
          else if bool_decide (max ≠ omax) then false
          else nestedAttributes_Equal l other
      | _ => false
      end
  | setNestedAttributes s min max =>
      match o with
      | Some (setNestedAttributes other omin omax) =>
          if bool_decide (min ≠ omin) then false
          else if bool_decide (max ≠ omax) then false
          else nestedAttributes_Equal s other
      | _ => false
      end
  | mapNestedAttributes m min max =>
      match o with
      | Some (mapNestedAttributes other omin omax) =>
          if bool_decide (min ≠ omin) then false
          else if bool_decide (max ≠ omax) then false
          else nestedAttributes_Equal m other
      | _ => false
      end
  end.

End Equal.

End schema.

(** ** Package internal/reflect

    Of this package the sources hold the tests of [Struct] and
    [FromStruct] only; the functions are modelled from the spec (section
    4.4) and from what the tests expect. *)
Module reflect.

(** [reflect.Options]; [Options{}] has both flags false. *)
Record Options := mkOptions {
  UnhandledNullAsEmpty : bool;
  UnhandledUnknownAsEmpty : bool
}.

(** Modelled from the spec: the native shapes.  A target is the Go type
    of a native field: a plain scalar, a struct whose fields carry the
    [tfsdk] tags that are the keys of the map, or a type that is itself an
    [attr.Value] ("a field that itself knows how to decode a Value"). *)
Inductive Target :=
| TString
| TBool
| TNumber
| TAttrValue
| TStruct (fields : gmap string Target).

Inductive Native :=
| NString (s : string)
| NBool (b : bool)
| NNumber (f : big.Float)
| NAttrValue (v : types.Value)
| NStruct (fields : gmap string Native).

(** Modelled from the spec: "the native field's zero/empty value"
    ([reflect.Zero]); for a field that is a [types.String] it is the
    struct with no field set. *)
Fixpoint zero (t : Target) : Native :=
  match t with
  | TString => NString ""
  | TBool => NBool false
  | TNumber => NNumber (big.mkFloat 0 0 0)
  | TAttrValue => NAttrValue (types.String false false "")
  | TStruct fields => NStruct (zero <$> fields)
  end.

(** Modelled from the spec: the name check of [Struct], "requires the set
    of schema attribute names and the set of native field names to match
    exactly; any asymmetry fails immediately with an error enumerating
    both the names present only in the schema and the names present only
    in the native shape".  The tests compare the tags with the attributes
    of the object value. *)
Definition check_fields {A B} (targetFields : gmap string A)
    (objectFields : gmap string B) : result unit :=
  let objectMissing := dom targetFields ∖ dom objectFields in
  let targetMissing := dom objectFields ∖ dom targetFields in
  if decide (objectMissing = ∅ ∧ targetMissing = ∅) then Ok ()
  else Err (ErrStructObjectMismatch objectMissing targetMissing).

(** The text of the mismatch error, as the tests read it: after
    "mismatch between struct and object:", one sentence for each side that
    has names, with the names. *)
Definition mismatch_sentences (e : error) : list (string * gset string) :=
  match e with
  | ErrStructObjectMismatch structOnly objectOnly =>
      (if decide (structOnly = ∅) then []
       else [("Struct defines fields not found in object", structOnly)]) ++
      (if decide (objectOnly = ∅) then []
       else [("Object defines fields not found in struct", objectOnly)])
  | _ => []
  end.

(** Modelled from the spec: [Struct], given the conversion of one field:
    the value must be an object ("can't reflect %s into a struct, must be
    an object"); the names must match; then "recurse
    attribute-by-attribute", each field with the type its attribute has
    in [typ]. *)
Definition Struct_with {ps : types.PrimitiveStepper}
    (into : option types.Type_ → tftypes.Value → Target → result Native)
    (typ : types.Type_) (object : tftypes.Value) (fields : gmap string Target)
  : result Native :=
  match tftypes.Value_Type object with
  | tftypes.Object _ =>
      objectFields ← tftypes.As_map object;
      _ ← check_fields fields objectFields;
      result ← for_range_map (λ field target,
        match objectFields !! field with
        | Some v =>
            attrType ← types.ApplyTerraform5AttributePathStep typ
                         (tftypes.AttributeName field);
            into attrType v target
        | None => Panic
        end) fields;
      Ok (NStruct result)
  | _ => Err ErrNotAnObject
  end.

(** Modelled from the spec: decode, "into(Type, Value, nativeShape,
    options)": "a field that itself knows how to decode a Value receives
    the appropriate sentinel on Unknown/Null.  If a target field offers no
    such representation, behavior is governed by two independent flags
    ... when the applicable flag is false, decoding an Unknown/Null into a
    field incapable of representing it fails with an explicit unhandled
    error; when true, the native field's zero/empty value is used
    instead"; "scalars convert directly". *)
Fixpoint Into {ps : types.PrimitiveStepper}
    (opts : Options) (typ : option types.Type_) (val : tftypes.Value)
    (target : Target) {struct target} : result Native :=
  match target with
  | TAttrValue => v ← types.iface_ValueFromTerraform typ val; Ok (NAttrValue v)
  | _ =>
      if negb (tftypes.IsKnown val) then
        if UnhandledUnknownAsEmpty opts then Ok (zero target)
        else Err ErrUnhandledUnknown
      else if tftypes.IsNull val then
        if UnhandledNullAsEmpty opts then Ok (zero target)
        else Err ErrUnhandledNull
      else
        match target with
        | TString => s ← tftypes.As_string val; Ok (NString s)
        | TBool => b ← tftypes.As_bool val; Ok (NBool b)
        | TNumber => f ← tftypes.As_number (big.mkFloat 0 0 0) val; Ok (NNumber f)
        | TAttrValue => v ← types.iface_ValueFromTerraform typ val; Ok (NAttrValue v)
        | TStruct fields =>
            match typ with
            | Some typ' => Struct_with (Into opts) typ' val fields
            | None => Panic
            end
        end
  end.

(** [refl.Struct] as the tests call it. *)
Definition Struct {ps : types.PrimitiveStepper}
    (typ : types.Type_) (object : tftypes.Value)
    (fields : gmap string Target) (opts : Options) : result Native :=
  Struct_with (Into opts) typ object fields.

(** Modelled from the spec: encode, "fromStruct(Type, nativeValue) →
    (Value, error): mirror of decode; ... a native value that implements a
    Value-producing/consuming extensibility hook is used directly in place
    of generic structural recursion", with the control flow of section 2,
    "wire/native data → Type.ValueFromTerraform → Value tree".  Package
    [types] imports this package, so the engine cannot name [types.Object]
    or [types.String]: what it returns for a scalar or a struct is what the
    given Type decodes.  A scalar is handed to the Type as a known wire
    value; a struct must have exactly the attributes of the object Type;
    each field is converted, encoded and validated against the type of its
    attribute, and the object Type decodes the wire object of the fields,
    as [TestFromStruct_primitives] expects. *)
Fixpoint FromValue (typ : option types.Type_) (val : Native) {struct val}
  : result types.Value :=
  match val with
  | NAttrValue v => Ok v
  | NString s =>
      types.iface_ValueFromTerraform typ (tftypes.mkValue tftypes.String (tftypes.RawString s))
  | NBool b =>
      types.iface_ValueFromTerraform typ (tftypes.mkValue tftypes.Bool (tftypes.RawBool b))
  | NNumber f =>
      types.iface_ValueFromTerraform typ
        (tftypes.mkValue tftypes.Number (tftypes.RawNumber (Some f)))
  | NStruct fields =>
      match typ with
      | Some (types.ObjectType attrTypes) =>
          _ ← check_fields fields attrTypes;
          objValues ← for_range_map (λ name field,
            match FromValue (default None (attrTypes !! name)) field with
            | Ok attrVal =>
                tfVal ← types.ToTerraformValue attrVal;
                types.wrap (default None (attrTypes !! name)) tfVal
            | Err e => Err e
            | Panic => Panic
            end) fields;
          objType ← types.TerraformType (types.ObjectType attrTypes);
          tfVal ← tftypes.NewValue objType (tftypes.RawMap objValues);
          types.ValueFromTerraform (types.ObjectType attrTypes) tfVal
      | Some _ => Err ErrNotAnObject
      | None => Panic
      end
  end.

(** [refl.FromStruct] as the tests call it. *)
Definition FromStruct (typ : types.Type_) (fields : gmap string Native)
  : result types.Value :=
  FromValue (Some typ) (NStruct fields).

End reflect.

(** ** Predicates of the specification *)

Definition ok_true (r : result bool) : bool :=
  match r with Ok true => true | _ => false end.

(** A Type "built from the six variants": no nil component. *)
Fixpoint wf (t : types.Type_) : bool :=
  match t with
  | types.Prim _ => true
  | types.ObjectType m =>
      map_forallb (λ _ o, match o with Some t' => wf t' | None => false end) m
  | types.ListType (Some e) | types.MapType (Some e) => wf e
  | types.ListType None | types.MapType None => false
  end.

(** The variant of a Type. *)
Inductive variant := VString | VNumber | VBool | VObject | VList | VMap.

Definition variant_of (t : types.Type_) : variant :=
  match t with
  | types.Prim types.StringType => VString
  | types.Prim types.NumberType => VNumber
  | types.Prim types.BoolType => VBool
  | types.ObjectType _ => VObject
  | types.ListType _ => VList
  | types.MapType _ => VMap
  end.

(** The payload field of a value holds something other than the zero
    value of its Go type. *)
Definition payload_populated (v : types.Value) : bool :=
  match v with
  | types.String _ _ s => negb (bool_decide (s = ""))
  | types.Number _ _ q => match q with Some _ => true | None => false end
  | types.Bool _ _ b => b
  | types.Object _ _ attrs _ => negb (bool_decide (size attrs = 0))
  | types.List _ _ elems _ => negb (bool_decide (length elems = 0))
  | types.Map _ _ elems _ => negb (bool_decide (size elems = 0))
  end.

(** Tri-state exclusivity of one value: the two flags are not both set,
    and the payload is populated only when both are false. *)
Definition exclusive (v : types.Value) : bool :=
  negb (types.Value_Unknown v && types.Value_Null v) &&
  (negb (payload_populated v) ||
   (negb (types.Value_Unknown v) && negb (types.Value_Null v))).

(** Exclusivity of a value and of every value inside it. *)
Fixpoint tri_state (v : types.Value) : bool :=
  exclusive v &&
  match v with
  | types.Object _ _ attrs _ => map_forallb (λ _ a, tri_state a) attrs
  | types.List _ _ elems _ => forallb tri_state elems
  | types.Map _ _ elems _ => map_forallb (λ _ a, tri_state a) elems
  | _ => true
  end.

(** The three states. *)
Inductive state := Unknown | Null | Known.

Definition holds (s : state) (v : types.Value) : bool :=
  match s with
  | Unknown => types.Value_Unknown v
  | Null => types.Value_Null v
  | Known => negb (types.Value_Unknown v) && negb (types.Value_Null v)
  end.

(** A value of declared Type [t] whose payload conforms to [t]: the
    declared element and attribute types are those of [t] (by
    [Type.Equal]), [t] has no nil component, an unknown or null value
    carries no payload, a known number has a valid one, and the elements of a
    known container conform to the element type; a known object has
    exactly the attributes of its type. *)
Fixpoint conforms (v : types.Value) (t : types.Type_) {struct v} : bool :=
  negb (types.Value_Unknown v && types.Value_Null v) &&
  match v, t with
  | types.String u n s, types.Prim types.StringType =>
      if u || n then bool_decide (s = "") else true
  | types.Number u n q, types.Prim types.NumberType =>
      if u || n then match q with None => true | Some _ => false end
      else match q with Some f => big.valid f | None => false end
  | types.Bool u n b, types.Prim types.BoolType =>
      if u || n then negb b else true
  | types.Object u n attrs attrTypes, types.ObjectType m =>
      wf (types.ObjectType m) &&
      ok_true (types.Type_Equal (types.ObjectType m) (Some (types.ObjectType attrTypes))) &&
      if u || n then bool_decide (size attrs = 0)
      else
        bool_decide (size attrs = size m) &&
        map_forallb (λ k a,
          match m !! k with
          | Some (Some ty) => conforms a ty
          | _ => false
          end) attrs
  | types.List u n elems elemType, types.ListType (Some e) =>
      wf e && ok_true (types.Type_Equal e elemType) &&
      if u || n then bool_decide (length elems = 0)
      else forallb (λ elem, conforms elem e) elems
  | types.Map u n elems elemType, types.MapType (Some e) =>
      wf e && ok_true (types.Type_Equal e elemType) &&
      if u || n then bool_decide (size elems = 0)
      else map_forallb (λ _ elem, conforms elem e) elems
  | _, _ => false
  end.

(** Encode, then decode with the declared Type: the Go value of
    [ToTerraformValue] is validated against [TerraformType] and wrapped by
    [tftypes.NewValue], as [Object.As] and [List.ElementsAs] do, before it
    goes to [ValueFromTerraform]. *)
Definition round_trip (t : types.Type_) (v : types.Value) : result types.Value :=
  val ← types.ToTerraformValue v;
  typ ← types.TerraformType t;
  if tftypes.ValidateValue typ val then
    in_ ← tftypes.NewValue typ val;
    types.ValueFromTerraform t in_
  else Err ErrValidate.

(** What [numberValueFromTerraform] makes of a number: the value set in
    [big.NewFloat(0)]. *)
Definition decoded_number (f : big.Float) : big.Float :=
  big.Set_ (big.NewFloat 0) f.

(** The value with every known number in it decoded. *)
Fixpoint decoded (v : types.Value) : types.Value :=
  match v with
  | types.Number false false (Some f) =>
      types.Number false false (Some (decoded_number f))
  | types.Object u n attrs attrTypes =>
      types.Object u n (decoded <$> attrs) attrTypes
  | types.List u n elems elemType => types.List u n (decoded <$> elems) elemType
  | types.Map u n elems elemType => types.Map u n (decoded <$> elems) elemType
  | _ => v
  end.

(** Every known number in the value is a number of 53 bits: decoding it
    does not change the number. *)
Fixpoint numbers_fit (v : types.Value) : bool :=
  match v with
  | types.Number false false (Some f) =>
      match big.Cmp (decoded_number f) f with Eq => true | _ => false end
  | types.Object _ _ attrs _ => map_forallb (λ _ a, numbers_fit a) attrs
  | types.List _ _ elems _ => forallb numbers_fit elems
  | types.Map _ _ elems _ => map_forallb (λ _ a, numbers_fit a) elems
  | _ => true
  end.

(** The trip of a value: it has an encoding that [tftypes.NewValue]
    accepts for the wire type of [t], and [t] decodes the wire value to
    the value with its numbers decoded. *)
Definition round_trips (v : types.Value) (t : types.Type_) : Prop :=
  ∃ val ty,
    types.ToTerraformValue v = Ok val ∧
    types.TerraformType t = Ok ty ∧
    tftypes.NewValue ty val = Ok (tftypes.mkValue ty val) ∧
    types.ValueFromTerraform t (tftypes.mkValue ty val) = Ok (decoded v).

(** A native field can hold an unknown (a null) value only where it is
    itself a Value. *)
Definition represents_state (t : reflect.Target) : bool :=
  match t with reflect.TAttrValue => true | _ => false end.

(** The Unknown and the Null value of a Type, as [ValueFromTerraform]
    builds them: the flag, and no payload. *)
Definition Unknown_of (t : types.Type_) : types.Value :=
  match t with
  | types.Prim types.StringType => types.String true false ""
  | types.Prim types.NumberType => types.Number true false None
  | types.Prim types.BoolType => types.Bool true false false
  | types.ObjectType attrTypes => types.Object true false ∅ attrTypes
  | types.ListType e => types.List true false [] e
  | types.MapType e => types.Map true false ∅ e
  end.

Definition Null_of (t : types.Type_) : types.Value :=
  match t with
  | types.Prim types.StringType => types.String false true ""
  | types.Prim types.NumberType => types.Number false true None
  | types.Prim types.BoolType => types.Bool false true false
  | types.ObjectType attrTypes => types.Object false true ∅ attrTypes
  | types.ListType e => types.List false true [] e
  | types.MapType e => types.Map false true ∅ e
  end.

Definition is_primitive (t : types.Type_) : bool :=
  match t with types.Prim _ => true | _ => false end.

(** The errors that report a wire value of the wrong shape. *)
Definition shape_mismatch (e : error) : bool :=
  match e with
  | ErrListElemType | ErrNotMap | ErrMapElemType | ErrObjectType | ErrAs => true
  | _ => false
  end.

(** The errors that report an attribute that does not exist. *)
Definition not_found (e : error) : bool :=
  match e with
  | ErrAttributeNotFound _ _ => true
  | ErrStillRemains _ (ErrAttributeNotFound _ _) => true
  | _ => false
  end.

(** ** Package types: handing a value to the reflection engine *)

(** [types.ObjectAsOptions] *)
Record ObjectAsOptions := mkObjectAsOptions {
  UnhandledNullAsEmpty : bool;
  UnhandledUnknownAsEmpty : bool
}.

Section into.
Context {T R : Type}.

(** [reflect.Into(ctx, typ, val, target, opts)]: the engine is not among
    the sources; the three callers below are given for any engine, whose
    result stands for what it stores in [target] and the error it
    returns. *)
Variable Into : types.Type_ → tftypes.Value → T → reflect.Options → result R.

(** [fmt.Errorf("error getting Terraform value for element %q: %w", key,
    err)] and [fmt.Errorf("error using created Terraform value for element
    %q: %w", key, err)] of [Map.ElementsAs]. *)
Variable errGetting errUsing : string → error → error.

(** [List.ElementsAs] *)
Definition List_ElementsAs (Unknown Null : bool) (Elems : list types.Value)
    (ElemType : option types.Type_) (target : T) (allowUnhandled : bool) : result R :=
  values ← types.ToTerraformValue (types.List Unknown Null Elems ElemType);
  elemTT ← types.iface_TerraformType ElemType;
  val ← tftypes.NewValue (tftypes.List elemTT) values;
  Into (types.ListType ElemType) val target
    (reflect.mkOptions allowUnhandled allowUnhandled).

(** [Map.ElementsAs]: the wire map is built from [Elems] by a loop of its
    own, which reads neither [Unknown] nor [Null]. *)
Definition Map_ElementsAs (Unknown Null : bool) (Elems : gmap string types.Value)
    (ElemType : option types.Type_) (target : T) (allowUnhandled : bool) : result R :=
  values ← for_range_map (λ key elem,
    match types.ToTerraformValue elem with
    | Ok val =>
        elemTT ← types.iface_TerraformType ElemType;
        if tftypes.ValidateValue elemTT val then tftypes.NewValue elemTT val
        else Err (errUsing key ErrValidate)
    | Err err => Err (errGetting key err)
    | Panic => Panic
    end) Elems;
  elemTT ← types.iface_TerraformType ElemType;
  val ← tftypes.NewValue (tftypes.Map elemTT) (tftypes.RawMap values);
  Into (types.MapType ElemType) val target
    (reflect.mkOptions allowUnhandled allowUnhandled).

(** [Object.As] *)
Definition Object_As (Unknown Null : bool) (Attrs : gmap string types.Value)
    (AttrTypes : gmap string (option types.Type_)) (target : T)
    (opts : ObjectAsOptions) : result R :=
  typ ← types.TerraformType (types.ObjectType AttrTypes);
  val ← types.ToTerraformValue (types.Object Unknown Null Attrs AttrTypes);
  if tftypes.ValidateValue typ val then
    in_ ← tftypes.NewValue typ val;
    Into (types.ObjectType AttrTypes) in_ target
      (reflect.mkOptions (UnhandledNullAsEmpty opts) (UnhandledUnknownAsEmpty opts))
  else Err ErrValidate.

End into.

(** ** Further predicates *)

(** A wire value as [tftypes.NewValue] builds them: the dynamic value fits
    the declared type, a number is not the nil pointer (that makes a null
    value), and the same holds of the elements. *)
Fixpoint valid_value (v : tftypes.Value) : bool :=
  let 'tftypes.mkValue t r := v in
  tftypes.ValidateValue t r &&
  match r with
  | tftypes.RawNumber None => false
  | tftypes.RawList l => forallb valid_value l
  | tftypes.RawMap m => map_forallb (λ _ x, valid_value x) m
  | _ => true
  end.

(** The wire value with every number in it as [numberValueFromTerraform]
    reads it: set in [big.NewFloat(0)]. *)
Fixpoint rounded (v : tftypes.Value) : tftypes.Value :=
  let 'tftypes.mkValue t r := v in
  tftypes.mkValue t
    match r with
    | tftypes.RawNumber (Some f) => tftypes.RawNumber (Some (decoded_number f))
    | tftypes.RawList l => tftypes.RawList (rounded <$> l)
    | tftypes.RawMap m => tftypes.RawMap (rounded <$> m)
    | other => other
    end.

(** Every element type and attribute type that the value declares, at
    every depth, is a Type without nil component. *)
Fixpoint types_wf (v : types.Value) : bool :=
  match v with
  | types.Object _ _ attrs attrTypes =>
      wf (types.ObjectType attrTypes) && map_forallb (λ _ a, types_wf a) attrs
  | types.List _ _ elems elemType =>
      wf (types.ListType elemType) && forallb types_wf elems
  | types.Map _ _ elems elemType =>
      wf (types.MapType elemType) && map_forallb (λ _ a, types_wf a) elems
  | _ => true
  end.

(** The struct of a value: which of [types.String], [types.Number], ... it
    is. *)
Definition variant_of_value (v : types.Value) : variant :=
  match v with
  | types.String _ _ _ => VString
  | types.Number _ _ _ => VNumber
  | types.Bool _ _ _ => VBool
  | types.Object _ _ _ _ => VObject
  | types.List _ _ _ _ => VList
  | types.Map _ _ _ _ => VMap
  end.

(** The Type that a value declares: for the containers the Type that
    [Object.As], [List.ElementsAs] and [Map.ElementsAs] build from the
    fields of the value ([ObjectType{AttrTypes: o.AttrTypes}],
    [ListType{ElemType: l.ElemType}], [MapType{ElemType: m.ElemType}]). *)
Definition declared_type (v : types.Value) : types.Type_ :=
  match v with
  | types.String _ _ _ => types.Prim types.StringType
  | types.Number _ _ _ => types.Prim types.NumberType
  | types.Bool _ _ _ => types.Prim types.BoolType
  | types.Object _ _ _ attrTypes => types.ObjectType attrTypes
  | types.List _ _ _ elemType => types.ListType elemType
  | types.Map _ _ _ elemType => types.MapType elemType
  end.

(** A value of Type [t]: it declares [t] (by [Type.Equal], so it is of
    the struct of [t]), the elements of a list or a map are values of the
    element type, and the attributes of an object are values of the types
    that [t] gives to their names. *)
Fixpoint of_type (v : types.Value) (t : types.Type_) {struct v} : bool :=
  ok_true (types.Type_Equal t (Some (declared_type v))) &&
  match v, t with
  | types.Object _ _ attrs _, types.ObjectType m =>
      map_forallb (λ k a,
        match m !! k with
        | Some (Some ty) => of_type a ty
        | _ => false
        end) attrs
  | types.List _ _ elems _, types.ListType (Some e) =>
      forallb (λ elem, of_type elem e) elems
  | types.Map _ _ elems _, types.MapType (Some e) =>
      map_forallb (λ _ elem, of_type elem e) elems
  | _, _ => true
  end.

(** Every known object in the value holds the attributes that its
    [AttrTypes] declares, no more and no fewer. *)
Fixpoint complete (v : types.Value) : bool :=
  match v with
  | types.Object u n attrs attrTypes =>
      (u || n || bool_decide (dom attrs = dom attrTypes)) &&
      map_forallb (λ _ a, complete a) attrs
  | types.List _ _ elems _ => forallb complete elems
  | types.Map _ _ elems _ => map_forallb (λ _ a, complete a) elems
  | _ => true
  end.

(** The number of elements or attributes that a value holds. *)
Definition payload_size (v : types.Value) : nat :=
  match v with
  | types.Object _ _ attrs _ => size attrs
  | types.List _ _ elems _ => length elems
  | types.Map _ _ elems _ => size elems
  | _ => 0
  end.

(** What [ToTerraformValue] makes of the two flags: the primitives test
    [Null] first, the containers [Unknown]. *)
Definition encoded_state (v : types.Value) : state :=
  match v with
  | types.String u n _ | types.Number u n _ | types.Bool u n _ =>
      if n then Null else if u then Unknown else Known
  | types.Object u n _ _ | types.List u n _ _ | types.Map u n _ _ =>
      if u then Unknown else if n then Null else Known
  end.

(** The entry that [Schema.AttributeTypeAtPath] returns for an attribute:
    [a.Type] when it is set, else [a.Attributes.AttributeType()]. *)
Definition type_of_attribute (a : schema.Attribute) : result (option types.Type_) :=
  match schema.Attribute_Type a with
  | Some t => Ok (Some t)
  | None =>
      match schema.Attribute_Attributes a with
      | Some n => Ok (schema.AttributeType n)
      | None => Panic
      end
  end.

(** ** Tactics *)

(** What the inversion of a primitive's decoding leaves in [H]: the
    value, with the primitive when the wire value is known. *)
Ltac prim_inv H :=
  match type of H with
  | _ ∧ _ => let Hp := fresh in destruct H as [Hp ->]; try discriminate Hp
  | _ = _ => rewrite H
  | False => destruct H
  end.

(** Case analysis on the outcome of a walk. *)
Ltac solve_walk :=
  intros;
  repeat match goal with
  | H : ∃ _, _ |- _ => destruct H
  | |- _ ↔ _ => split; intros
  | |- _ ∧ _ => split
  end;
  first [congruence | by eexists _, _].

(** ** The loops *)

Section loops.
Context {A B : Type}.
Implicit Types (m : gmap string A).

Lemma map_forallb_spec (p : string → A → bool) m :
  map_forallb p m = true ↔ ∀ k a, m !! k = Some a → p k a = true.
Proof.
  unfold map_forallb.
  apply (map_fold_weak_ind
           (λ r m, r = true ↔ ∀ k a, m !! k = Some a → p k a = true)).
  - split; [|done]. intros _ k a. by rewrite lookup_empty.
  - intros i x m' r Hi IH. rewrite andb_true_iff, IH. split.
    + intros [Hm Hx] k a [[-> ->]|[? ?]]%lookup_insert_Some; eauto.
    + intros H. split.
      * intros k a Hk. apply H. rewrite lookup_insert_ne; [done|].
        intros ->. congruence.
      * apply H. by rewrite lookup_insert_eq.
Qed.

Lemma map_sum_lookup (f : A → nat) m k a :
  m !! k = Some a → f a ≤ map_sum f m.
Proof.
  revert k a. unfold map_sum.
  apply (map_fold_weak_ind (λ r m, ∀ k a, m !! k = Some a → f a ≤ r)).
  - intros k a. by rewrite lookup_empty.
  - intros i x m' r Hi IH k a [[-> ->]|[? Hk]]%lookup_insert_Some; [lia|].
    specialize (IH _ _ Hk). lia.
Qed.

(** The collecting loop succeeds exactly when its body succeeds on every
    entry, and then holds the results under the same keys. *)
Lemma for_range_map_spec (f : string → A → result B) m :
  match for_range_map f m with
  | Ok mb =>
      (∀ k a, m !! k = Some a → is_ok (f k a) = true) ∧
      (∀ k, mb !! k = m !! k ≫= λ a, get_ok (f k a))
  | _ => ∃ k a, m !! k = Some a ∧ is_ok (f k a) = false
  end.
Proof.
  unfold for_range_map.
  apply (map_fold_weak_ind (λ r m,
    match r with
    | Ok mb =>
        (∀ k a, m !! k = Some a → is_ok (f k a) = true) ∧
        (∀ k, mb !! k = m !! k ≫= λ a, get_ok (f k a))
    | _ => ∃ k a, m !! k = Some a ∧ is_ok (f k a) = false
    end)).
  - split; [intros k a; by rewrite lookup_empty|].
    intros k. by rewrite !lookup_empty.
  - intros i x m' r Hi IH.
    assert (Hlift : (∃ k a, m' !! k = Some a ∧ is_ok (f k a) = false) →
                    ∃ k a, <[i:=x]> m' !! k = Some a ∧ is_ok (f k a) = false).
    { intros (k & a & Hk & Hf). exists k, a. split; [|done].
      rewrite lookup_insert_ne; [done|]. intros ->. congruence. }
    destruct r as [mb| |]; [|by apply Hlift..].
    destruct IH as [IH1 IH2].
    destruct (f i x) as [b| |] eqn:Hfx.
    + split.
      * intros k a [[-> ->]|[? ?]]%lookup_insert_Some; [by rewrite Hfx|eauto].
      * intros k. destruct (decide (i = k)) as [->|Hne].
        -- rewrite !lookup_insert_eq. simpl. by rewrite Hfx.
        -- rewrite !lookup_insert_ne by done. apply IH2.
    + exists i, x. rewrite lookup_insert_eq, Hfx. done.
    + exists i, x. rewrite lookup_insert_eq, Hfx. done.
Qed.

Lemma for_range_map_Ok (f : string → A → result B) m mb :
  for_range_map f m = Ok mb →
  ∀ k, mb !! k = m !! k ≫= λ a, get_ok (f k a).
Proof.
  intros H. pose proof (for_range_map_spec f m) as Hs.
  rewrite H in Hs. apply Hs.
Qed.

Lemma for_range_map_Ok_lookup (f : string → A → result B) m mb k b :
  for_range_map f m = Ok mb → mb !! k = Some b →
  ∃ a, m !! k = Some a ∧ f k a = Ok b.
Proof.
  intros H Hk. rewrite (for_range_map_Ok _ _ _ H) in Hk.
  destruct (m !! k) as [a|]; [|done]. exists a. split; [done|].
  simpl in Hk. destruct (f k a); simplify_eq/=. done.
Qed.

Lemma for_range_map_total (f : string → A → result B) m :
  (∀ k a, m !! k = Some a → is_ok (f k a) = true) →
  ∃ mb, for_range_map f m = Ok mb.
Proof.
  intros H. pose proof (for_range_map_spec f m) as Hs.
  destruct (for_range_map f m) as [mb| |]; [by eexists|..];
    destruct Hs as (k & a & Hk & Hf); rewrite (H _ _ Hk) in Hf; done.
Qed.

(** The collecting loop returns exactly the map [mb] when the body gives
    the entry of [mb] at each key of [m], and [mb] has no other key. *)
Lemma for_range_map_intro (f : string → A → result B) m (mb : gmap string B) :
  (∀ k a, m !! k = Some a → ∃ b, f k a = Ok b ∧ mb !! k = Some b) →
  (∀ k, m !! k = None → mb !! k = None) →
  for_range_map f m = Ok mb.
Proof.
  intros Hsome Hnone.
  destruct (for_range_map_total f m) as [mb' Hmb'].
  { intros k a Hk. destruct (Hsome _ _ Hk) as (b & -> & _). done. }
  rewrite Hmb'. f_equal. apply map_eq. intros k.
  rewrite (for_range_map_Ok _ _ _ Hmb').
  destruct (m !! k) as [a|] eqn:Hk; simpl.
  - destruct (Hsome _ _ Hk) as (b & -> & ->). done.
  - by rewrite Hnone.
Qed.

Lemma for_range_all_true (p : string → A → result bool) m :
  for_range_all p m = Ok true ↔ ∀ k a, m !! k = Some a → p k a = Ok true.
Proof.
  unfold for_range_all.
  apply (map_fold_weak_ind
           (λ r m, r = Ok true ↔ ∀ k a, m !! k = Some a → p k a = Ok true)).
  - split; [|done]. intros _ k a. by rewrite lookup_empty.
  - intros i x m' r Hi IH. split.
    + intros Hr k a Hk.
      assert (r = Ok true ∧ p i x = Ok true) as [Hr' Hp].
      { destruct r as [[]| |]; simplify_eq/=; done. }
      apply lookup_insert_Some in Hk as [[-> ->]|[? ?]]; [done|].
      by apply IH.
    + intros H.
      assert (r = Ok true) as ->.
      { apply IH. intros k a Hk. apply H. rewrite lookup_insert_ne; [done|].
        intros ->. congruence. }
      apply H. by rewrite lookup_insert_eq.
Qed.

Lemma for_range_all_total (p : string → A → result bool) m :
  (∀ k a, m !! k = Some a → is_ok (p k a) = true) →
  is_ok (for_range_all p m) = true.
Proof.
  unfold for_range_all.
  apply (map_fold_weak_ind
    (λ r m, (∀ k a, m !! k = Some a → is_ok (p k a) = true) → is_ok r = true)).
  - done.
  - intros i x m' r Hi IH H.
    assert (is_ok r = true) as Hr.
    { apply IH. intros k a Hk. apply H. rewrite lookup_insert_ne; [done|].
      intros ->. congruence. }
    destruct r as [[]| |]; try done. apply H. by rewrite lookup_insert_eq.
Qed.

Lemma for_range_list_spec (f : A → result B) xs ys :
  for_range_list f xs = Ok ys ↔ Forall2 (λ x y, f x = Ok y) xs ys.
Proof.
  revert ys. induction xs as [|x xs IH]; intros ys; simpl.
  - split; [intros [= <-]; constructor|by intros ->%Forall2_nil_inv_l].
  - split.
    + destruct (f x) as [y| |] eqn:Hx; [|done..].
      destruct (for_range_list f xs) as [ys'| |] eqn:Hxs; [|done..].
      intros [= <-]. constructor; [done|]. by apply IH.
    + intros (y & ys' & Hy & Hys & ->)%Forall2_cons_inv_l.
      rewrite Hy. apply IH in Hys. by rewrite Hys.
Qed.

Lemma for_range_all2_true (p : A → A → result bool) xs ys :
  Forall2 (λ x y, p x y = Ok true) xs ys → for_range_all2 p xs ys = Ok true.
Proof. induction 1 as [|x y xs ys Hxy _ IH]; simpl; [done|]. by rewrite Hxy. Qed.

End loops.

(** ** Induction through the nested maps *)

Lemma Type_ind' (P : types.Type_ → Prop) :
  (∀ p, P (types.Prim p)) →
  (∀ m, (∀ k t, m !! k = Some (Some t) → P t) → P (types.ObjectType m)) →
  (∀ e, (∀ t, e = Some t → P t) → P (types.ListType e)) →
  (∀ e, (∀ t, e = Some t → P t) → P (types.MapType e)) →
  ∀ t, P t.
Proof.
  intros HP HO HL HM t.
  assert (∀ n t, types.Type_size t < n → P t) as H;
    [|apply (H (S (types.Type_size t))); lia].
  clear t. induction n as [|n IH]; intros t Hn; [lia|].
  destruct t as [p|m|[e|]|[e|]]; simpl in Hn.
  - apply HP.
  - apply HO. intros k t Hk. apply IH.
    pose proof (map_sum_lookup
      (λ o, match o with Some t' => types.Type_size t' | None => 0 end)
      m k _ Hk) as Hle. simpl in Hle. lia.
  - apply HL. intros t [= <-]. apply IH. lia.
  - apply HL. done.
  - apply HM. intros t [= <-]. apply IH. lia.
  - apply HM. done.
Qed.

Lemma tfType_ind' (P : tftypes.Type_ → Prop) :
  P tftypes.String → P tftypes.Number → P tftypes.Bool →
  (∀ e, P e → P (tftypes.List e)) →
  (∀ e, P e → P (tftypes.Map e)) →
  (∀ m, (∀ k t, m !! k = Some t → P t) → P (tftypes.Object m)) →
  ∀ t, P t.
Proof.
  intros HS HN HB HL HM HO t.
  assert (∀ n t, tftypes.Type_size t < n → P t) as H;
    [|apply (H (S (tftypes.Type_size t))); lia].
  clear t. induction n as [|n IH]; intros t Hn; [lia|].
  destruct t as [| | |e|e|m]; simpl in Hn; auto.
  - apply HL, IH. lia.
  - apply HM, IH. lia.
  - apply HO. intros k t Hk. apply IH.
    pose proof (map_sum_lookup tftypes.Type_size m k _ Hk). lia.
Qed.

Lemma list_sum_elem (f : tftypes.Value → nat) l x :
  x ∈ l → f x ≤ list_sum (map f l).
Proof.
  induction 1 as [x l|x y l _ IH]; simpl; lia.
Qed.

Lemma tfValue_ind' (P : tftypes.Value → Prop) :
  (∀ ty l, (∀ x, x ∈ l → P x) → P (tftypes.mkValue ty (tftypes.RawList l))) →
  (∀ ty m, (∀ k x, m !! k = Some x → P x) → P (tftypes.mkValue ty (tftypes.RawMap m))) →
  (∀ ty r, (∀ l, r ≠ tftypes.RawList l) → (∀ m, r ≠ tftypes.RawMap m) →
           P (tftypes.mkValue ty r)) →
  ∀ v, P v.
Proof.
  intros HL HM HR v.
  assert (∀ n v, tftypes.Value_size v < n → P v) as H;
    [|apply (H (S (tftypes.Value_size v))); lia].
  clear v. induction n as [|n IH]; intros v Hn; [lia|].
  destruct v as [ty [| |s|q|b|l|m]]; simpl in Hn; try (by apply HR).
  - apply HL. intros x Hx. apply IH.
    pose proof (list_sum_elem tftypes.Value_size l x Hx). lia.
  - apply HM. intros k x Hk. apply IH.
    pose proof (map_sum_lookup tftypes.Value_size m k _ Hk). lia.
Qed.

Lemma list_sum_elem_Value (l : list types.Value) x :
  x ∈ l → types.Value_size x ≤ list_sum (map types.Value_size l).
Proof.
  induction 1 as [x l|x y l _ IH]; simpl; lia.
Qed.

Lemma Value_ind' (P : types.Value → Prop) :
  (∀ u n s, P (types.String u n s)) →
  (∀ u n q, P (types.Number u n q)) →
  (∀ u n b, P (types.Bool u n b)) →
  (∀ u n attrs ats, (∀ k a, attrs !! k = Some a → P a) →
                    P (types.Object u n attrs ats)) →
  (∀ u n elems et, (∀ x, x ∈ elems → P x) → P (types.List u n elems et)) →
  (∀ u n elems et, (∀ k a, elems !! k = Some a → P a) →
                   P (types.Map u n elems et)) →
  ∀ v, P v.
Proof.
  intros HS HN HB HO HL HM v.
  assert (∀ n v, types.Value_size v < n → P v) as H;
    [|apply (H (S (types.Value_size v))); lia].
  clear v. induction n as [|n IH]; intros v Hn; [lia|].
  destruct v as [u nl s|u nl q|u nl b|u nl attrs ats|u nl elems et|u nl elems et];
    simpl in Hn; auto.
  - apply HO. intros k a Hk. apply IH.
    pose proof (map_sum_lookup types.Value_size attrs k _ Hk). lia.
  - apply HL. intros x Hx. apply IH.
    pose proof (list_sum_elem_Value elems x Hx). lia.
  - apply HM. intros k a Hk. apply IH.
    pose proof (map_sum_lookup types.Value_size elems k _ Hk). lia.
Qed.

(** ** Types *)

Lemma Is_refl a : tftypes.Is a a = true.
Proof.
  induction a as [| | |e IH|e IH|m IH] using tfType_ind'; simpl; try done.
  rewrite bool_decide_eq_true_2 by done. simpl.
  apply map_forallb_spec. intros k ta Hk. rewrite Hk. eauto.
Qed.

Lemma wf_Object_lookup m k o :
  wf (types.ObjectType m) = true → m !! k = Some o →
  ∃ t, o = Some t ∧ wf t = true.
Proof.
  cbn [wf]. intros Hwf Hk.
  pose proof (proj1 (map_forallb_spec _ _) Hwf k o Hk) as H.
  destruct o as [t|]; [eauto|done].
Qed.

Lemma wf_Object_intro m :
  (∀ k o, m !! k = Some o → ∃ t, o = Some t ∧ wf t = true) →
  wf (types.ObjectType m) = true.
Proof.
  intros H. cbn [wf]. apply map_forallb_spec. intros k o Hk.
  by destruct (H _ _ Hk) as (t & -> & ?).
Qed.

(** A Type without nil component has a wire type. *)
Lemma TerraformType_wf t :
  wf t = true → ∃ ty, types.TerraformType t = Ok ty.
Proof.
  induction t as [p|m IH|e IH|e IH] using Type_ind'; intros Hwf.
  - by eexists.
  - cbn [types.TerraformType].
    destruct (for_range_map_total
      (λ (_ : string) v, match v with
                         | Some v' => types.TerraformType v'
                         | None => Panic
                         end) m) as [mb ->]; [|by eexists].
    intros k o Hk. destruct (wf_Object_lookup _ _ _ Hwf Hk) as (t & -> & Ht).
    destruct (IH _ _ Hk Ht) as [ty ->]. done.
  - destruct e as [e|]; [|done]. cbn [types.TerraformType].
    destruct (IH e eq_refl Hwf) as [ty ->]. by eexists.
  - destruct e as [e|]; [|done]. cbn [types.TerraformType].
    destruct (IH e eq_refl Hwf) as [ty ->]. by eexists.
Qed.

(** On a receiver without nil component [Equal] returns. *)
Lemma Type_Equal_total t o :
  wf t = true → ∃ b, types.Type_Equal t o = Ok b.
Proof.
  revert o. induction t as [p|m IH|e IH|e IH] using Type_ind'; intros o Hwf.
  - by eexists.
  - cbn [types.Type_Equal]. destruct o as [[p|other|e|e]|]; try by eexists.
    case_bool_decide; [by eexists|].
    match goal with |- ∃ b, ?r = Ok b =>
      assert (is_ok r = true) as Hok; [|destruct r; try done; by eexists] end.
    apply for_range_all_total. intros k v Hk.
    destruct (other !! k) as [attr|]; [|done].
    destruct (wf_Object_lookup _ _ _ Hwf Hk) as (t & -> & Ht).
    destruct (IH _ _ Hk attr Ht) as [b ->]. done.
  - destruct e as [e|]; [|by eexists]. cbn [types.Type_Equal].
    destruct o as [[p|other|e'|e']|]; try by eexists. by apply IH.
  - destruct e as [e|]; [|by eexists]. cbn [types.Type_Equal].
    destruct o as [[p|other|e'|e']|]; try by eexists. by apply IH.
Qed.

(** [Equal] is structural: it answers true for the receiver itself only. *)
Lemma Type_Equal_true t o :
  wf t = true → types.Type_Equal t o = Ok true → o = Some t.
Proof.
  revert o. induction t as [p|m IH|e IH|e IH] using Type_ind'; intros o Hwf.
  - cbn. destruct o as [[q|other|e|e]|]; try done.
    by destruct p, q.
  - cbn [types.Type_Equal]. destruct o as [[p|other|e|e]|]; try done.
    case_bool_decide as Hsize; [done|]. intros Hall.
    do 2 f_equal. symmetry.
    apply map_subseteq_size_eq; [|lia].
    apply map_subseteq_spec. intros k v Hk.
    pose proof (proj1 (for_range_all_true _ _) Hall k v Hk) as Hp.
    simpl in Hp. destruct (other !! k) as [attr|]; [|done].
    destruct (wf_Object_lookup _ _ _ Hwf Hk) as (t & -> & Ht).
    by rewrite (IH _ _ Hk attr Ht Hp).
  - destruct e as [e|]; [|done]. cbn [types.Type_Equal].
    destruct o as [[p|other|e'|e']|]; try done.
    intros H. by rewrite (IH e eq_refl e' Hwf H).
  - destruct e as [e|]; [|done]. cbn [types.Type_Equal].
    destruct o as [[p|other|e'|e']|]; try done.
    intros H. by rewrite (IH e eq_refl e' Hwf H).
Qed.

Lemma Type_Equal_refl t :
  wf t = true → types.Type_Equal t (Some t) = Ok true.
Proof.
  induction t as [p|m IH|e IH|e IH] using Type_ind'; intros Hwf.
  - by destruct p.
  - cbn [types.Type_Equal]. rewrite bool_decide_eq_false_2 by (intros ?; done).
    apply for_range_all_true. intros k v Hk. rewrite Hk.
    destruct (wf_Object_lookup _ _ _ Hwf Hk) as (t & -> & Ht).
    by apply (IH _ _ Hk).
  - destruct e as [e|]; [|done]. by apply (IH e).
  - destruct e as [e|]; [|done]. by apply (IH e).
Qed.

Lemma Type_Equal_sym t1 t2 :
  wf t1 = true → wf t2 = true →
  types.Type_Equal t1 (Some t2) = types.Type_Equal t2 (Some t1).
Proof.
  intros H1 H2.
  destruct (Type_Equal_total t1 (Some t2) H1) as [b1 Hb1].
  destruct (Type_Equal_total t2 (Some t1) H2) as [b2 Hb2].
  rewrite Hb1, Hb2. f_equal. destruct b1, b2; try done.
  - apply Type_Equal_true in Hb1 as [= ->]; [|done].
    rewrite Type_Equal_refl in Hb2; done.
  - apply Type_Equal_true in Hb2 as [= ->]; [|done].
    rewrite Type_Equal_refl in Hb1; done.
Qed.

(** Different variants are never equal. *)
Lemma Type_Equal_variant t1 t2 :
  variant_of t1 ≠ variant_of t2 → types.Type_Equal t1 (Some t2) = Ok false.
Proof.
  destruct t1 as [[]|m|[e|]|[e|]], t2 as [[]|m'|e'|e']; cbn; done.
Qed.

(** ** Equality of Types *)

(** Two objects are equal exactly when they have the same attribute names
    and the types under each name are equal. *)
Lemma Type_Equal_Object_iff m1 m2 :
  wf (types.ObjectType m1) = true → wf (types.ObjectType m2) = true →
  types.Type_Equal (types.ObjectType m1) (Some (types.ObjectType m2)) = Ok true ↔
  dom m1 = dom m2 ∧
  ∀ k x y, m1 !! k = Some x → m2 !! k = Some y → types.iface_Equal x y = Ok true.
Proof.
  intros H1 H2. split.
  - intros [= <-]%Type_Equal_true; [|done]. split; [done|].
    intros k x y Hx Hy. simplify_eq.
    destruct (wf_Object_lookup _ _ _ H1 Hx) as (t & -> & Ht).
    by apply Type_Equal_refl.
  - intros [Hdom Hall].
    assert (m2 = m1) as ->; [|by apply Type_Equal_refl].
    apply map_eq. intros k.
    destruct (m1 !! k) as [x|] eqn:Hx, (m2 !! k) as [y|] eqn:Hy; try done.
    + destruct (wf_Object_lookup _ _ _ H1 Hx) as (t & -> & Ht).
      specialize (Hall _ _ _ Hx Hy). simpl in Hall.
      apply Type_Equal_true in Hall; [congruence|done].
    + apply not_elem_of_dom in Hy. apply elem_of_dom_2 in Hx.
      rewrite Hdom in Hx. done.
    + apply not_elem_of_dom in Hx. apply elem_of_dom_2 in Hy.
      rewrite Hdom in Hx. done.
Qed.

(** C5: for all Types [t1], [t2] built from the six variants, [Equal] is
    reflexive and symmetric; it recurses structurally (a list or a map is
    compared by its element type, an object by its attribute names and the
    types under them, and altogether [Equal] holds exactly of identical
    structures); it does not depend on the order in which the attributes
    of an object were put in the map; it is false across variants; and
    [ObjectType{a:String}] is not equal to [ObjectType{a:String,b:Bool}]. *)
Theorem C5_Type_Equal (t1 t2 : types.Type_) :
  wf t1 = true → wf t2 = true →
  types.Type_Equal t1 (Some t1) = Ok true ∧
  types.Type_Equal t1 (Some t2) = types.Type_Equal t2 (Some t1) ∧
  (types.Type_Equal t1 (Some t2) = Ok true ↔ t1 = t2) ∧
  types.Type_Equal (types.ListType (Some t1)) (Some (types.ListType (Some t2)))
    = types.Type_Equal t1 (Some t2) ∧
  types.Type_Equal (types.MapType (Some t1)) (Some (types.MapType (Some t2)))
    = types.Type_Equal t1 (Some t2) ∧
  (∀ m1 m2, t1 = types.ObjectType m1 → t2 = types.ObjectType m2 →
     types.Type_Equal t1 (Some t2) = Ok true ↔
     dom m1 = dom m2 ∧
     ∀ k x y, m1 !! k = Some x → m2 !! k = Some y → types.iface_Equal x y = Ok true) ∧
  (∀ a b : string, a ≠ b →
     types.Type_Equal
       (types.ObjectType (<[a:=Some t1]> (<[b:=Some t2]> ∅)))
       (Some (types.ObjectType (<[b:=Some t2]> (<[a:=Some t1]> ∅)))) = Ok true) ∧
  (variant_of t1 ≠ variant_of t2 → types.Type_Equal t1 (Some t2) = Ok false) ∧
  types.Type_Equal
    (types.ObjectType {[ "a" := Some (types.Prim types.StringType) ]})
    (Some (types.ObjectType {[ "a" := Some (types.Prim types.StringType);
                               "b" := Some (types.Prim types.BoolType) ]}))
    = Ok false.
Proof.
  intros H1 H2. split_and!; try done.
  - by apply Type_Equal_refl.
  - by apply Type_Equal_sym.
  - split.
    + intros H. apply Type_Equal_true in H; congruence.
    + intros ->. by apply Type_Equal_refl.
  - intros m1 m2 -> ->. by apply Type_Equal_Object_iff.
  - intros a b Hab. rewrite (insert_insert_ne _ a b) by done.
    apply Type_Equal_refl, wf_Object_intro.
    intros k o [[_ <-]|[_ [[_ <-]|[_ Hk]]%lookup_insert_Some]]%lookup_insert_Some;
      [eauto..|by rewrite lookup_empty in Hk].
  - apply Type_Equal_variant.
Qed.

Lemma C5_Type_Equal_witness :
  let t1 := types.ListType (Some (types.Prim types.StringType)) in
  let t2 := types.ObjectType {[ "a" := Some (types.Prim types.NumberType) ]} in
  wf t1 = true ∧ wf t2 = true ∧
  types.Type_Equal t1 (Some t1) = Ok true ∧
  types.Type_Equal t1 (Some t2) = types.Type_Equal t2 (Some t1).
Proof.
  intros t1 t2.
  assert (wf t1 = true) as H1 by reflexivity.
  assert (wf t2 = true) as H2 by (vm_compute; reflexivity).
  destruct (C5_Type_Equal t1 t2 H1 H2) as (Hr & Hs & _).
  exact (conj H1 (conj H2 (conj Hr Hs))).
Defined.

(** The guard of [ListType.Equal] and [MapType.Equal]: a list or map type
    whose element type is nil equals nothing, itself included. *)
Lemma Type_Equal_nil_ElemType o :
  types.Type_Equal (types.ListType None) o = Ok false ∧
  types.Type_Equal (types.MapType None) o = Ok false.
Proof. done. Qed.

(** ** Decoding, in the sequence of the sources *)

(** [ListType.ValueFromTerraform]: the type test, then unknown, then null,
    then [in.As(&val)] and the loop over the elements. *)
Lemma ValueFromTerraform_ListType e in_ :
  types.ValueFromTerraform (types.ListType e) in_ =
  (ty ← types.TerraformType (types.ListType e);
   if negb (tftypes.Is (tftypes.Value_Type in_) ty) then Err ErrListElemType
   else if negb (tftypes.IsKnown in_) then Ok (types.List true false [] e)
   else if tftypes.IsNull in_ then Ok (types.List false true [] e)
   else
     val ← tftypes.As_list in_;
     elems ← for_range_list (types.iface_ValueFromTerraform e) val;
     Ok (types.List false false elems e)).
Proof.
  destruct in_ as [inType payload]. cbn [types.ValueFromTerraform].
  destruct (types.TerraformType (types.ListType e)) as [ty| |]; [|done..].
  cbn [mbind result_bind tftypes.Value_Type].
  destruct (tftypes.Is inType ty); [|done].
  destruct payload; try done; cbn; destruct e; done.
Qed.

(** [MapType.ValueFromTerraform]: the two type tests, then unknown, then
    null, then [in.As(&val)] and the loop over the elements. *)
Lemma ValueFromTerraform_MapType e in_ :
  types.ValueFromTerraform (types.MapType e) in_ =
  (if negb (tftypes.IsMap (tftypes.Value_Type in_)) then Err ErrNotMap
   else
     ety ← types.iface_TerraformType e;
     if negb (tftypes.Is (tftypes.Value_Type in_) (tftypes.Map ety))
     then Err ErrMapElemType
     else if negb (tftypes.IsKnown in_) then Ok (types.Map true false ∅ e)
     else if tftypes.IsNull in_ then Ok (types.Map false true ∅ e)
     else
       val ← tftypes.As_map in_;
       elems ← for_range_map (λ _, types.iface_ValueFromTerraform e) val;
       Ok (types.Map false false elems e)).
Proof.
  destruct in_ as [inType payload]. cbn [types.ValueFromTerraform].
  cbn [tftypes.Value_Type].
  destruct (tftypes.IsMap inType); [|done]. cbn [negb].
  destruct (types.iface_TerraformType e) as [ety| |]; [|done..].
  cbn [mbind result_bind].
  destruct (tftypes.Is inType (tftypes.Map ety)); [|done].
  destruct payload; try done; cbn; destruct e; done.
Qed.

(** [ObjectType.ValueFromTerraform]: the type test, then unknown, then
    null, then [in.As(&val)] and the loop over the attributes, each
    decoded by [object.AttrTypes[k]]. *)
Lemma ValueFromTerraform_ObjectType attrTypes in_ :
  types.ValueFromTerraform (types.ObjectType attrTypes) in_ =
  (ty ← types.TerraformType (types.ObjectType attrTypes);
   if negb (tftypes.Is (tftypes.Value_Type in_) ty) then Err ErrObjectType
   else if negb (tftypes.IsKnown in_) then Ok (types.Object true false ∅ attrTypes)
   else if tftypes.IsNull in_ then Ok (types.Object false true ∅ attrTypes)
   else
     val ← tftypes.As_map in_;
     attributes ← for_range_map (λ k,
       types.iface_ValueFromTerraform (default None (attrTypes !! k))) val;
     Ok (types.Object false false attributes attrTypes)).
Proof.
  destruct in_ as [inType payload]. cbn [types.ValueFromTerraform].
  destruct (types.TerraformType (types.ObjectType attrTypes)) as [ty| |]; [|done..].
  cbn [mbind result_bind tftypes.Value_Type].
  destruct (tftypes.Is inType ty); [|done].
  destruct payload; done.
Qed.

Lemma Is_Map_IsMap a ety : tftypes.Is a (tftypes.Map ety) = true → tftypes.IsMap a = true.
Proof. by destruct a. Qed.

(** C2, as the code has it: on an unknown or null wire value a primitive
    type returns the Unknown or Null value at once, whatever the declared
    wire type; [ObjectType], [ListType] and [MapType] first compare the
    declared wire type with their own, and return the Unknown or Null
    value (without looking at anything else) only when it matches; when it
    does not, they return the shape-mismatch error although the value is
    unknown or null. *)
Theorem C2_unknown_null (t : types.Type_) (ty : tftypes.Type_) (in_ : tftypes.Value) :
  types.TerraformType t = Ok ty →
  tftypes.IsKnown in_ = false ∨ tftypes.IsNull in_ = true →
  (is_primitive t = true ∨ tftypes.Is (tftypes.Value_Type in_) ty = true →
   types.ValueFromTerraform t in_ =
     Ok (if tftypes.IsKnown in_ then Null_of t else Unknown_of t)) ∧
  (is_primitive t = false → tftypes.Is (tftypes.Value_Type in_) ty = false →
   ∃ e, types.ValueFromTerraform t in_ = Err e ∧ shape_mismatch e = true).
Proof.
  intros Hty Hstate.
  assert (tftypes.Value_value in_ = tftypes.RawUnknown ∨
          tftypes.Value_value in_ = tftypes.RawNil) as Hpayload.
  { destruct in_ as [inType []]; destruct Hstate; auto; done. }
  clear Hstate. destruct t as [p|attrTypes|e|e].
  - split; [|done]. intros _. destruct in_ as [inType payload].
    simpl in Hpayload. by destruct Hpayload as [-> | ->], p.
  - rewrite ValueFromTerraform_ObjectType, Hty. cbn [mbind result_bind].
    split.
    + intros [?| ->]; [done|]. destruct in_ as [inType payload].
      simpl in Hpayload. by destruct Hpayload as [-> | ->].
    + intros _ ->. by eexists.
  - rewrite ValueFromTerraform_ListType, Hty. cbn [mbind result_bind].
    split.
    + intros [?| ->]; [done|]. destruct in_ as [inType payload].
      simpl in Hpayload. by destruct Hpayload as [-> | ->].
    + intros _ ->. by eexists.
  - rewrite ValueFromTerraform_MapType.
    destruct e as [e|]; [|done]. cbn [types.TerraformType] in Hty.
    cbn [types.iface_TerraformType].
    destruct (types.TerraformType e) as [ety| |]; [|done..].
    injection Hty as <-. cbn [mbind result_bind]. split.
    + intros [?|His]; [done|]. rewrite (Is_Map_IsMap _ _ His), His.
      destruct in_ as [inType payload].
      simpl in Hpayload. by destruct Hpayload as [-> | ->].
    + intros _ ->. destruct (tftypes.IsMap _); by eexists.
Qed.

Lemma C2_unknown_null_witness :
  let t := types.ListType (Some (types.Prim types.StringType)) in
  let ty := tftypes.List tftypes.String in
  let in_ := tftypes.mkValue (tftypes.List tftypes.String) tftypes.RawUnknown in
  types.TerraformType t = Ok ty ∧
  (tftypes.IsKnown in_ = false ∨ tftypes.IsNull in_ = true) ∧
  types.ValueFromTerraform t in_ = Ok (Unknown_of t).
Proof.
  intros t ty in_.
  assert (types.TerraformType t = Ok ty) as Hty by reflexivity.
  assert (tftypes.IsKnown in_ = false ∨ tftypes.IsNull in_ = true) as Hst
    by (left; reflexivity).
  split; [exact Hty|]. split; [exact Hst|].
  apply (proj1 (C2_unknown_null t ty in_ Hty Hst)). right. reflexivity.
Defined.

(** C2 as stated fails: [ListType{ElemType: StringType}] given an unknown
    wire value declared as a string returns the shape-mismatch error, and
    so do [MapType] and [ObjectType] given a null one. *)
Lemma C2_counterexample :
  let unknownString := tftypes.mkValue tftypes.String tftypes.RawUnknown in
  let nullString := tftypes.mkValue tftypes.String tftypes.RawNil in
  tftypes.IsKnown unknownString = false ∧
  tftypes.IsNull nullString = true ∧
  types.ValueFromTerraform (types.ListType (Some (types.Prim types.StringType)))
    unknownString = Err ErrListElemType ∧
  types.ValueFromTerraform (types.MapType (Some (types.Prim types.StringType)))
    nullString = Err ErrNotMap ∧
  types.ValueFromTerraform (types.ObjectType ∅) nullString = Err ErrObjectType ∧
  shape_mismatch ErrListElemType = true.
Proof. vm_compute. done. Qed.

(** ** Equality of values *)



(** ** Lowering nested attributes to a Type *)

(** C1, what the code does: single nesting gives the Object Type of the
    children and list nesting the list of it; set nesting and map nesting
    both return nil, so that map nesting does not give the map of the
    Object Type. *)
Theorem C1_AttributeType (attrs : gmap string schema.Attribute) (min max : Z) :
  schema.AttributeType (schema.singleNestedAttributes attrs)
    = Some (schema.nestedAttributes_AttributeType attrs) ∧
  schema.AttributeType (schema.listNestedAttributes attrs min max)
    = Some (types.ListType (Some (schema.nestedAttributes_AttributeType attrs))) ∧
  schema.AttributeType (schema.setNestedAttributes attrs min max) = None ∧
  schema.AttributeType (schema.mapNestedAttributes attrs min max) = None ∧
  schema.AttributeType (schema.mapNestedAttributes attrs min max)
    ≠ Some (types.MapType (Some (schema.nestedAttributes_AttributeType attrs))) ∧
  (∀ n, schema.GetAttributes n = attrs →
     schema.AttributeType n =
       match schema.GetNestingMode n with
       | schema.NestingModeSingle =>
           Some (schema.nestedAttributes_AttributeType attrs)
       | schema.NestingModeList =>
           Some (types.ListType (Some (schema.nestedAttributes_AttributeType attrs)))
       | _ => None
       end) ∧
  schema.AttributeType
    (schema.mapNestedAttributes
       {[ "a" := schema.mkAttribute (Some (types.Prim types.StringType)) None ]} 0 0)
    = None.
Proof. split_and!; try done. by intros [] <-. Qed.

Lemma C1_AttributeType_witness :
  let attrs : gmap string schema.Attribute :=
    {[ "a" := schema.mkAttribute (Some (types.Prim types.StringType)) None ]} in
  let n := schema.mapNestedAttributes attrs 0 0 in
  schema.GetAttributes n = attrs ∧ schema.AttributeType n = None.
Proof.
  intros attrs n.
  assert (schema.GetAttributes n = attrs) as H by reflexivity.
  split; [exact H|].
  exact (proj1 (proj2 (proj2 (proj2 (proj2 (proj2 (C1_AttributeType attrs 0 0))))))
           n H).
Defined.

(** [nestedAttributes.AttributeType]: the Object Type has an entry for
    each child that has a Type or nested attributes; the nested ones win. *)
Lemma nestedAttributes_AttributeType_lookup attrs name :
  ∃ m, schema.nestedAttributes_AttributeType attrs = types.ObjectType m ∧
       m !! name =
         match attrs !! name with
         | Some (schema.mkAttribute _ (Some n)) => Some (schema.AttributeType n)
         | Some (schema.mkAttribute (Some t) None) => Some (Some t)
         | _ => None
         end.
Proof.
  eexists. split; [done|]. rewrite lookup_omap.
  destruct (attrs !! name) as [[[t|] [n|]]|]; done.
Qed.

(** The nil of a map-nested (or set-nested) attribute goes into the
    Object Type of the schema as a nil entry, on which
    [ObjectType.TerraformType] panics. *)
Lemma Schema_AttributeType_map_nested :
  let s := schema.mkSchema
    {[ "m" := schema.mkAttribute None
                (Some (schema.mapNestedAttributes
                   {[ "a" := schema.mkAttribute
                               (Some (types.Prim types.StringType)) None ]} 0 0)) ]}
    0 "" "" "" in
  schema.Schema_AttributeType s = types.ObjectType {[ "m" := None ]} ∧
  wf (schema.Schema_AttributeType s) = false ∧
  types.TerraformType (schema.Schema_AttributeType s) = Panic.
Proof. vm_compute. done. Qed.

(** ** Path stepping on Types *)

(** C4, what the code does: [ObjectType] answers an attribute name with
    the entry of its map, which is nil, without an error, when the name is
    not there; it rejects the other step kinds; [ListType] accepts an
    integer index only and [MapType] a string key only, and both return
    their element type for it. *)
Theorem C4_path_step {ps : types.PrimitiveStepper} :
  (∀ m name,
     types.ApplyTerraform5AttributePathStep (types.ObjectType m)
       (tftypes.AttributeName name) = Ok (default None (m !! name))) ∧
  (∀ m name, m !! name = None →
     types.ApplyTerraform5AttributePathStep (types.ObjectType m)
       (tftypes.AttributeName name) = Ok None) ∧
  types.ApplyTerraform5AttributePathStep
    (types.ObjectType {[ "a" := Some (types.Prim types.StringType) ]})
    (tftypes.AttributeName "b") = Ok None ∧
  (∀ m step, tftypes.step_kind step ≠ KAttributeName →
     types.ApplyTerraform5AttributePathStep (types.ObjectType m) step
       = Err (ErrCannotApplyStep (tftypes.step_kind step) "ObjectType")) ∧
  (∀ e i,
     types.ApplyTerraform5AttributePathStep (types.ListType e)
       (tftypes.ElementKeyInt i) = Ok e) ∧
  (∀ e step, tftypes.step_kind step ≠ KElementKeyInt →
     types.ApplyTerraform5AttributePathStep (types.ListType e) step
       = Err (ErrCannotApplyStep (tftypes.step_kind step) "ListType")) ∧
  (∀ e k,
     types.ApplyTerraform5AttributePathStep (types.MapType e)
       (tftypes.ElementKeyString k) = Ok e) ∧
  (∀ e step, tftypes.step_kind step ≠ KElementKeyString →
     types.ApplyTerraform5AttributePathStep (types.MapType e) step
       = Err (ErrCannotApplyStep (tftypes.step_kind step) "MapType")).
Proof.
  split_and!; try done.
  - intros m name Hm. cbn. by rewrite Hm.
  - by intros m [].
  - by intros e [].
  - by intros e [].
Qed.

Lemma C4_path_step_witness :
  (∅ : gmap string (option types.Type_)) !! "b" = None ∧
  types.ApplyTerraform5AttributePathStep (ps := types.unreached)
    (types.ObjectType ∅) (tftypes.AttributeName "b") = Ok None.
Proof.
  assert ((∅ : gmap string (option types.Type_)) !! "b" = None) as H
    by reflexivity.
  split; [exact H|].
  exact (proj1 (proj2 C4_path_step) ∅ "b" H).
Defined.

(** ** Resolving a path in a schema *)

(** X24.  The first step of a path is applied by the schema itself:
    [AttributeAtPath] and [AttributeTypeAtPath] on a path whose first step
    names no attribute of the schema fail with the schema's not-found
    error, wrapped, whatever follows in the path, and the whole path
    remains; a first step that is no attribute name is refused in the same
    way, with an error that is no not-found error; the empty path ends on
    the schema itself, which is neither a Type nor an Attribute, and gives
    the unexpected-type error.  None of this depends on the stepper of the
    primitives. *)
Theorem AttributeAtPath_first_step {ps : types.PrimitiveStepper}
    (s : schema.Schema) :
  schema.AttributeAtPath s [] = Err ErrUnexpectedType ∧
  schema.AttributeTypeAtPath s [] = Err ErrUnexpectedType ∧
  (∀ name rest, schema.Attributes s !! name = None →
     let e := ErrStillRemains (S (length rest)) (ErrAttributeNotFound name "schema") in
     schema.AttributeAtPath s (tftypes.AttributeName name :: rest) = Err e ∧
     schema.AttributeTypeAtPath s (tftypes.AttributeName name :: rest) = Err e ∧
     not_found e = true) ∧
  (∀ step rest, tftypes.step_kind step ≠ KAttributeName →
     let e := ErrStillRemains (S (length rest))
                (ErrCannotApplyStep (tftypes.step_kind step) "schema") in
     schema.AttributeAtPath s (step :: rest) = Err e ∧
     schema.AttributeTypeAtPath s (step :: rest) = Err e ∧
     not_found e = false).
Proof.
  split_and!; try done.
  - intros name rest Hname e.
    unfold schema.AttributeAtPath, schema.AttributeTypeAtPath. cbn.
    by rewrite Hname.
  - intros step rest Hkind e.
    unfold schema.AttributeAtPath, schema.AttributeTypeAtPath.
    by destruct step.
Qed.

Lemma AttributeAtPath_first_step_witness :
  let s := schema.mkSchema
    {[ "a" := schema.mkAttribute (Some (types.Prim types.StringType)) None ]}
    0 "" "" "" in
  schema.Attributes s !! "b" = None ∧
  schema.AttributeAtPath (ps := types.unreached) s
    [tftypes.AttributeName "b"; tftypes.AttributeName "a"]
  = Err (ErrStillRemains 2 (ErrAttributeNotFound "b" "schema")).
Proof.
  intros s.
  assert (schema.Attributes s !! "b" = None) as H by reflexivity.
  split; [exact H|].
  exact (proj1 (proj1 (proj2 (proj2 (AttributeAtPath_first_step s)))
                  "b" [tftypes.AttributeName "a"] H)).
Defined.

(** X25.  One step into an attribute that has a [Type]: the attribute
    hands the step to its Type, and [AttributeAtPath] reports what the
    Type's stepper returns: [ErrPathInsideAtomicAttribute] when it returns
    a Type, the unexpected-type error when it returns nil, its error,
    wrapped with one step remaining, when it refuses.  So an element of a
    list is inside the attribute; a name of an object is inside when the
    object has it, and gives the unexpected-type error, not a not-found
    error, when it has not; for a primitive the outcome is the one of the
    primitives' stepper, which the sources do not hold: the path is inside
    the attribute exactly when that stepper returns a Type. *)
Theorem AttributeAtPath_leaf_step {ps : types.PrimitiveStepper}
    (s : schema.Schema) (name : string) (a : schema.Attribute)
    (t : types.Type_) (step : tftypes.AttributePathStep) :
  schema.Attributes s !! name = Some a →
  schema.Attribute_Type a = Some t →
  let path := [tftypes.AttributeName name; step] in
  schema.AttributeAtPath s path
    = match types.ApplyTerraform5AttributePathStep t step with
      | Ok (Some _) => Err ErrPathInsideAtomicAttribute
      | Ok None => Err ErrUnexpectedType
      | Err e => Err (ErrStillRemains 1 e)
      | Panic => Panic
      end ∧
  (∀ e i, t = types.ListType (Some e) → step = tftypes.ElementKeyInt i →
     schema.AttributeAtPath s path = Err ErrPathInsideAtomicAttribute) ∧
  (∀ m n, t = types.ObjectType m → step = tftypes.AttributeName n →
     schema.AttributeAtPath s path
       = match m !! n with
         | Some (Some _) => Err ErrPathInsideAtomicAttribute
         | _ => Err ErrUnexpectedType
         end) ∧
  (∀ p, t = types.Prim p →
     (schema.AttributeAtPath s path = Err ErrPathInsideAtomicAttribute ↔
      ∃ t', types.primitive_ApplyTerraform5AttributePathStep p step = Ok (Some t')) ∧
     (∀ e, types.primitive_ApplyTerraform5AttributePathStep p step = Err e →
        schema.AttributeAtPath s path = Err (ErrStillRemains 1 e))).
Proof.
  intros Ha Ht path.
  assert (schema.AttributeAtPath s path
    = match types.ApplyTerraform5AttributePathStep t step with
      | Ok (Some _) => Err ErrPathInsideAtomicAttribute
      | Ok None => Err ErrUnexpectedType
      | Err e => Err (ErrStillRemains 1 e)
      | Panic => Panic
      end) as Hpath.
  { unfold schema.AttributeAtPath, path. cbn. rewrite Ha. cbn.
    unfold schema.Attribute_ApplyTerraform5AttributePathStep. rewrite Ht.
    by destruct (types.ApplyTerraform5AttributePathStep t step) as [[?|]| |]. }
  split_and!; [done|..].
  - intros e i -> ->. by rewrite Hpath.
  - intros m n -> ->. rewrite Hpath. cbn. by destruct (m !! n) as [[?|]|].
  - intros p ->. rewrite Hpath. cbn. split.
    + destruct (types.primitive_ApplyTerraform5AttributePathStep p step)
        as [[t'|]| |]; split; try done; try (by intros [? ?]); by eexists.
    + by intros e ->.
Qed.

(** The path a, b in the schema with a of type string, under two steppers
    of the primitives: one that refuses every step, as the steppers of
    List and Map refuse a step of the wrong kind, and one under which a
    step stays inside the primitive. *)
Lemma AttributeAtPath_leaf_step_witness :
  let s := schema.mkSchema
    {[ "a" := schema.mkAttribute (Some (types.Prim types.StringType)) None ]}
    0 "" "" "" in
  let a := schema.mkAttribute (Some (types.Prim types.StringType)) None in
  let path := [tftypes.AttributeName "a"; tftypes.AttributeName "b"] in
  let refuses : types.PrimitiveStepper :=
    λ _ step, Err (ErrCannotApplyStep (tftypes.step_kind step) "primitive") in
  let stays : types.PrimitiveStepper := λ p _, Ok (Some (types.Prim p)) in
  schema.Attributes s !! "a" = Some a ∧
  schema.AttributeAtPath (ps := refuses) s path
    = Err (ErrStillRemains 1 (ErrCannotApplyStep KAttributeName "primitive")) ∧
  schema.AttributeAtPath (ps := stays) s path = Err ErrPathInsideAtomicAttribute.
Proof.
  intros s a path refuses stays.
  assert (schema.Attributes s !! "a" = Some a) as H by reflexivity.
  split; [exact H|]. split.
  - exact (proj1 (@AttributeAtPath_leaf_step refuses s "a" a
             (types.Prim types.StringType) (tftypes.AttributeName "b")
             H eq_refl)).
  - exact (proj1 (@AttributeAtPath_leaf_step stays s "a" a
             (types.Prim types.StringType) (tftypes.AttributeName "b")
             H eq_refl)).
Defined.

(** A name that a nested group does not have: the not-found error of the
    group, wrapped, with that name and what follows it remaining. *)
Lemma AttributeAtPath_missing_nested_attribute {ps : types.PrimitiveStepper}
    (s : schema.Schema) (name x : string) (a : schema.Attribute)
    (attrs : gmap string schema.Attribute) (rest : list tftypes.AttributePathStep) :
  schema.Attributes s !! name = Some a →
  schema.Attribute_Type a = None →
  schema.Attribute_Attributes a = Some (schema.singleNestedAttributes attrs) →
  attrs !! x = None →
  schema.AttributeAtPath s
    (tftypes.AttributeName name :: tftypes.AttributeName x :: rest)
  = Err (ErrStillRemains (S (length rest)) (ErrAttributeNotFound x "Attributes")).
Proof.
  intros Ha Ht Hn Hx. unfold schema.AttributeAtPath. cbn. rewrite Ha. cbn.
  unfold schema.Attribute_ApplyTerraform5AttributePathStep.
  rewrite Ht, Hn. cbn. by rewrite Hx.
Qed.

(** The nil that [ObjectType] returns for a name it does not have ends the
    walk without an error: [AttributeAtPath] then reports neither failure
    mode, but an unexpected type. *)
Lemma AttributeAtPath_missing_object_attribute {ps : types.PrimitiveStepper} :
  schema.AttributeAtPath
    (schema.mkSchema
       {[ "a" := schema.mkAttribute
                   (Some (types.ObjectType {[ "b" := Some (types.Prim types.StringType) ]}))
                   None ]}
       0 "" "" "")
    [tftypes.AttributeName "a"; tftypes.AttributeName "c"]
  = Err ErrUnexpectedType.
Proof. reflexivity. Qed.

(** ** Reflection: decoding into a native struct *)

(** C6: given an object value and a struct whose tagged field names are
    not the attribute names of the object, [Struct] (and [Into] on a
    struct target) fails with the one mismatch error, which holds the
    names that only the struct has and the names that only the object has;
    its text has the sentence of a side exactly when that side has names:
    one sentence for a one-sided mismatch, both for a two-sided one. *)
Theorem C6_Struct_mismatch {ps : types.PrimitiveStepper}
    (typ : types.Type_) (ty : gmap string tftypes.Type_)
    (objectFields : gmap string tftypes.Value)
    (fields : gmap string reflect.Target) (opts : reflect.Options) :
  dom fields ≠ dom objectFields →
  let object := tftypes.mkValue (tftypes.Object ty) (tftypes.RawMap objectFields) in
  let structOnly : gset string := dom fields ∖ dom objectFields in
  let objectOnly : gset string := dom objectFields ∖ dom fields in
  let err := ErrStructObjectMismatch structOnly objectOnly in
  reflect.Struct typ object fields opts = Err err ∧
  reflect.Into opts (Some typ) object (reflect.TStruct fields) = Err err ∧
  (structOnly ≠ ∅ ∨ objectOnly ≠ ∅) ∧
  (structOnly ≠ ∅ → objectOnly = ∅ →
   reflect.mismatch_sentences err
     = [("Struct defines fields not found in object", structOnly)]) ∧
  (structOnly = ∅ → objectOnly ≠ ∅ →
   reflect.mismatch_sentences err
     = [("Object defines fields not found in struct", objectOnly)]) ∧
  (structOnly ≠ ∅ → objectOnly ≠ ∅ →
   reflect.mismatch_sentences err
     = [("Struct defines fields not found in object", structOnly);
        ("Object defines fields not found in struct", objectOnly)]).
Proof.
  intros Hdom object structOnly objectOnly err.
  assert (¬ (structOnly = ∅ ∧ objectOnly = ∅)) as Hne.
  { intros [H1 H2]. apply Hdom. subst structOnly objectOnly.
    apply set_eq. intros x. split; intros Hx.
    - destruct (decide (x ∈ dom objectFields)); [done|]. set_solver.
    - destruct (decide (x ∈ dom fields)); [done|]. set_solver. }
  assert (reflect.Struct typ object fields opts = Err err) as HStruct.
  { unfold reflect.Struct, reflect.Struct_with. cbn.
    unfold reflect.check_fields. by rewrite decide_False. }
  split_and!.
  - done.
  - done.
  - destruct (decide (structOnly = ∅)); [|by left].
    destruct (decide (objectOnly = ∅)); [|by right]. by destruct Hne.
  - intros H1 H2. cbn. rewrite decide_False, decide_True by done. done.
  - intros H1 H2. cbn. rewrite decide_True, decide_False by done. done.
  - intros H1 H2. cbn. rewrite !decide_False by done. done.
Qed.

Lemma C6_Struct_mismatch_witness :
  let fields : gmap string reflect.Target := {[ "a" := reflect.TString ]} in
  let objectFields : gmap string tftypes.Value :=
    {[ "b" := tftypes.mkValue tftypes.String (tftypes.RawString "hello") ]} in
  let object :=
    tftypes.mkValue (tftypes.Object {[ "b" := tftypes.String ]})
      (tftypes.RawMap objectFields) in
  dom fields ≠ dom objectFields ∧
  reflect.Struct (ps := types.unreached)
    (types.ObjectType {[ "a" := Some (types.Prim types.StringType) ]})
    object fields (reflect.mkOptions false false)
  = Err (ErrStructObjectMismatch
           (dom fields ∖ dom objectFields) (dom objectFields ∖ dom fields)).
Proof.
  intros fields objectFields object.
  assert (dom fields ≠ dom objectFields) as H.
  { subst fields objectFields. rewrite !dom_singleton_L.
    intros Heq. assert ("a" ∈ ({[ "b" ]} : gset string)) as Hin.
    { rewrite <- Heq. by apply elem_of_singleton. }
    apply elem_of_singleton in Hin. discriminate. }
  split; [exact H|].
  exact (proj1 (C6_Struct_mismatch
    (types.ObjectType {[ "a" := Some (types.Prim types.StringType) ]})
    {[ "b" := tftypes.String ]} objectFields fields
    (reflect.mkOptions false false) H)).
Defined.

(** The three tests of the mismatch, with the sets computed. *)
Lemma TestNewStruct_mismatch {ps : types.PrimitiveStepper} :
  let hello := tftypes.mkValue tftypes.String (tftypes.RawString "hello") in
  let a_String := types.ObjectType {[ "a" := Some (types.Prim types.StringType) ]} in
  let opts := reflect.mkOptions false false in
  reflect.Struct (types.ObjectType ∅)
    (tftypes.mkValue (tftypes.Object ∅) (tftypes.RawMap ∅))
    {[ "a" := reflect.TString ]} opts
  = Err (ErrStructObjectMismatch {[ "a" ]} ∅) ∧
  reflect.Struct a_String
    (tftypes.mkValue (tftypes.Object {[ "a" := tftypes.String ]})
       (tftypes.RawMap {[ "a" := hello ]}))
    ∅ opts
  = Err (ErrStructObjectMismatch ∅ {[ "a" ]}) ∧
  reflect.Struct a_String
    (tftypes.mkValue (tftypes.Object {[ "b" := tftypes.String ]})
       (tftypes.RawMap {[ "b" := hello ]}))
    {[ "a" := reflect.TString ]} opts
  = Err (ErrStructObjectMismatch {[ "a" ]} {[ "b" ]}) ∧
  reflect.mismatch_sentences (ErrStructObjectMismatch {[ "a" ]} ∅)
  = [("Struct defines fields not found in object", {[ "a" ]})] ∧
  reflect.mismatch_sentences (ErrStructObjectMismatch ∅ {[ "a" ]})
  = [("Object defines fields not found in struct", {[ "a" ]})] ∧
  reflect.mismatch_sentences (ErrStructObjectMismatch {[ "a" ]} {[ "b" ]})
  = [("Struct defines fields not found in object", {[ "a" ]});
     ("Object defines fields not found in struct", {[ "b" ]})].
Proof. vm_compute. done. Qed.

(** C8: an unknown (a null) value that goes to a native field which
    cannot hold one is handled by the flag of that state alone: with
    [UnhandledUnknownAsEmpty] ([UnhandledNullAsEmpty]) false, as in
    [Options{}], decoding fails with the unhandled-value error; with it
    true the field gets its zero value, the empty string for a string
    field.  A field that is itself a Value gets the Unknown or Null value
    whatever the flags. *)
Theorem C8_unhandled {ps : types.PrimitiveStepper}
    (opts : reflect.Options) (typ : option types.Type_) (val : tftypes.Value)
    (target : reflect.Target) :
  represents_state target = false →
  (tftypes.IsKnown val = false →
   reflect.Into opts typ val target =
     if reflect.UnhandledUnknownAsEmpty opts then Ok (reflect.zero target)
     else Err ErrUnhandledUnknown) ∧
  (tftypes.IsNull val = true →
   reflect.Into opts typ val target =
     if reflect.UnhandledNullAsEmpty opts then Ok (reflect.zero target)
     else Err ErrUnhandledNull) ∧
  reflect.zero reflect.TString = reflect.NString "" ∧
  (∀ n, reflect.Into (reflect.mkOptions n false) typ
          (tftypes.mkValue (tftypes.Value_Type val) tftypes.RawUnknown) reflect.TString
        = Err ErrUnhandledUnknown) ∧
  (∀ n, reflect.Into (reflect.mkOptions n true) typ
          (tftypes.mkValue (tftypes.Value_Type val) tftypes.RawUnknown) reflect.TString
        = Ok (reflect.NString "")) ∧
  (∀ u, reflect.Into (reflect.mkOptions false u) typ
          (tftypes.mkValue (tftypes.Value_Type val) tftypes.RawNil) reflect.TString
        = Err ErrUnhandledNull) ∧
  (∀ u, reflect.Into (reflect.mkOptions true u) typ
          (tftypes.mkValue (tftypes.Value_Type val) tftypes.RawNil) reflect.TString
        = Ok (reflect.NString "")).
Proof.
  intros Htarget. split_and!; try done.
  - intros Hknown. destruct target; try done; cbn; by rewrite Hknown.
  - intros Hnull.
    assert (tftypes.IsKnown val = true) as Hknown.
    { destruct val as [? []]; done. }
    destruct target; try done; cbn; by rewrite Hknown, Hnull.
Qed.

Lemma C8_unhandled_witness :
  let val := tftypes.mkValue tftypes.String tftypes.RawUnknown in
  represents_state reflect.TString = false ∧
  tftypes.IsKnown val = false ∧
  reflect.Into (ps := types.unreached) (reflect.mkOptions false false)
    (Some (types.Prim types.StringType)) val reflect.TString
  = Err ErrUnhandledUnknown.
Proof.
  intros val.
  assert (represents_state reflect.TString = false) as H by reflexivity.
  assert (tftypes.IsKnown val = false) as Hk by reflexivity.
  split; [exact H|]. split; [exact Hk|].
  exact (proj1 (C8_unhandled (reflect.mkOptions false false)
    (Some (types.Prim types.StringType)) val reflect.TString H) Hk).
Defined.

(** The fields of [TestNewStruct_complex] that the model covers: with both
    flags set, the unhandled null and the unhandled unknown give the empty
    string, and the field that is a [types.String] gets the Unknown value;
    with the flags of [Options{}] the same struct is refused. *)
Lemma TestNewStruct_unhandled {ps : types.PrimitiveStepper} :
  let typ := types.ObjectType
    {[ "attribute_value" := Some (types.Prim types.StringType);
       "unhandled_null" := Some (types.Prim types.StringType);
       "unhandled_unknown" := Some (types.Prim types.StringType) ]} in
  let object := tftypes.mkValue
    (tftypes.Object {[ "attribute_value" := tftypes.String;
                       "unhandled_null" := tftypes.String;
                       "unhandled_unknown" := tftypes.String ]})
    (tftypes.RawMap
       {[ "attribute_value" := tftypes.mkValue tftypes.String tftypes.RawUnknown;
          "unhandled_null" := tftypes.mkValue tftypes.String tftypes.RawNil;
          "unhandled_unknown" := tftypes.mkValue tftypes.String tftypes.RawUnknown ]}) in
  let fields : gmap string reflect.Target :=
    {[ "attribute_value" := reflect.TAttrValue;
       "unhandled_null" := reflect.TString;
       "unhandled_unknown" := reflect.TString ]} in
  reflect.Struct typ object fields (reflect.mkOptions true true)
  = Ok (reflect.NStruct
          {[ "attribute_value" := reflect.NAttrValue (types.String true false "");
             "unhandled_null" := reflect.NString "";
             "unhandled_unknown" := reflect.NString "" ]}) ∧
  is_ok (reflect.Struct typ object fields (reflect.mkOptions false false)) = false.
Proof. vm_compute. done. Qed.

(** ** Tri-state exclusivity *)

Lemma exclusive_Known v :
  types.Value_Unknown v = false → types.Value_Null v = false → exclusive v = true.
Proof. unfold exclusive. intros -> ->. cbn. apply orb_true_r. Qed.

Lemma tri_state_container_intro (elems : gmap string types.Value) :
  (∀ k a, elems !! k = Some a → tri_state a = true) →
  map_forallb (λ _ a, tri_state a) elems = true.
Proof. intros H. by apply map_forallb_spec. Qed.

Lemma for_range_list_tri_state (f : tftypes.Value → result types.Value) val elems :
  (∀ x, x ∈ val → ∀ v, f x = Ok v → tri_state v = true) →
  for_range_list f val = Ok elems →
  forallb tri_state elems = true.
Proof.
  intros IH Hloop. apply for_range_list_spec in Hloop.
  induction Hloop as [|x y xs ys Hxy _ IHl]; simpl; [done|].
  rewrite (IH x (list_elem_of_here _ _) _ Hxy). simpl.
  apply IHl. intros x' Hx'. apply IH. by apply list_elem_of_further.
Qed.

Lemma for_range_map_tri_state {A} (f : string → A → result types.Value) val elems :
  (∀ k x, val !! k = Some x → ∀ v, f k x = Ok v → tri_state v = true) →
  for_range_map f val = Ok elems →
  map_forallb (λ _ a, tri_state a) elems = true.
Proof.
  intros IH Hloop. apply tri_state_container_intro. intros k a Hk.
  destruct (for_range_map_Ok_lookup _ _ _ _ _ Hloop Hk) as (x & Hx & Hf).
  by eapply IH.
Qed.

(** Every value that [ValueFromTerraform] returns is exclusive, and so is
    every value inside it. *)
Lemma ValueFromTerraform_tri_state in_ :
  ∀ t v, types.ValueFromTerraform t in_ = Ok v → tri_state v = true.
Proof.
  induction in_ as [ty l IH|ty m IH|ty r Hl Hm] using tfValue_ind';
    intros [p|attrTypes|e|e] v.
  - destruct p; cbn; done.
  - rewrite ValueFromTerraform_ObjectType.
    destruct (types.TerraformType _); [|done..]. cbn.
    by destruct (tftypes.Is ty _).
  - rewrite ValueFromTerraform_ListType.
    destruct (types.TerraformType _); [|done..]. cbn.
    destruct (tftypes.Is ty _); [|done]. cbn.
    destruct (for_range_list _ l) as [elems| |] eqn:Hloop; [|done..].
    intros [= <-]. cbn [tri_state]. rewrite andb_true_iff.
    split; [by apply exclusive_Known|].
    eapply for_range_list_tri_state; [|done].
    intros x Hx v Hv. destruct e as [e|]; [|done]. by eapply IH.
  - rewrite ValueFromTerraform_MapType. cbn.
    destruct (tftypes.IsMap ty); [|done]. cbn.
    destruct (types.iface_TerraformType e); [|done..]. cbn.
    by destruct (tftypes.Is ty _).
  - destruct p; cbn; done.
  - rewrite ValueFromTerraform_ObjectType.
    destruct (types.TerraformType _); [|done..]. cbn.
    destruct (tftypes.Is ty _); [|done]. cbn.
    destruct (for_range_map _ m) as [attrs| |] eqn:Hloop; [|done..].
    intros [= <-]. cbn [tri_state]. rewrite andb_true_iff.
    split; [by apply exclusive_Known|].
    eapply for_range_map_tri_state; [|done].
    intros k x Hx v Hv. simpl in Hv.
    destruct (default None (attrTypes !! k)) as [t|]; [|done]. by eapply IH.
  - rewrite ValueFromTerraform_ListType.
    destruct (types.TerraformType _); [|done..]. cbn.
    by destruct (tftypes.Is ty _).
  - rewrite ValueFromTerraform_MapType. cbn.
    destruct (tftypes.IsMap ty); [|done]. cbn.
    destruct (types.iface_TerraformType e); [|done..]. cbn.
    destruct (tftypes.Is ty _); [|done]. cbn.
    destruct (for_range_map _ m) as [elems| |] eqn:Hloop; [|done..].
    intros [= <-]. cbn [tri_state]. rewrite andb_true_iff.
    split; [by apply exclusive_Known|].
    eapply for_range_map_tri_state; [|done].
    intros k x Hx v Hv. simpl in Hv. destruct e as [e|]; [|done]. by eapply IH.
  - destruct p, r as [| |s|[q|]|b|l|m]; cbn; try done;
      intros [= <-]; cbn [tri_state]; rewrite andb_true_r;
      first [by apply exclusive_Known | reflexivity].
  - rewrite ValueFromTerraform_ObjectType.
    destruct (types.TerraformType _); [|done..]. cbn.
    destruct (tftypes.Is ty _); [|done].
    destruct r as [| |s|q|b|l|m]; cbn; try done; try (intros [= <-]; done).
    by destruct (Hm m).
  - rewrite ValueFromTerraform_ListType.
    destruct (types.TerraformType _); [|done..]. cbn.
    destruct (tftypes.Is ty _); [|done].
    destruct r as [| |s|q|b|l|m]; cbn; try done; try (intros [= <-]; done).
    by destruct (Hl l).
  - rewrite ValueFromTerraform_MapType. cbn.
    destruct (tftypes.IsMap ty); [|done]. cbn.
    destruct (types.iface_TerraformType e); [|done..]. cbn.
    destruct (tftypes.Is ty _); [|done].
    destruct r as [| |s|q|b|l|m]; cbn; try done; try (intros [= <-]; done).
    by destruct (Hm m).
Qed.

(** What [FromStruct] returns was decoded by the object Type. *)
Lemma FromStruct_tri_state typ fields v :
  reflect.FromStruct typ fields = Ok v → tri_state v = true.
Proof.
  unfold reflect.FromStruct. cbn [reflect.FromValue].
  destruct typ as [p|attrTypes|e|e]; try done.
  destruct (reflect.check_fields fields attrTypes); [|done..].
  cbn [mbind result_bind].
  destruct (for_range_map _ fields) as [objValues| |]; [|done..].
  cbn [mbind result_bind].
  destruct (types.TerraformType _) as [objType| |]; [|done..].
  cbn [mbind result_bind].
  destruct (tftypes.NewValue objType _) as [tfVal| |]; [|done..].
  apply ValueFromTerraform_tri_state.
Qed.

Lemma exclusive_exactly_one v :
  exclusive v = true ↔
  (∃ s, holds s v = true ∧ ∀ s', holds s' v = true → s' = s) ∧
  (payload_populated v = true → holds Known v = true).
Proof.
  unfold exclusive, holds.
  destruct (types.Value_Unknown v), (types.Value_Null v),
    (payload_populated v); cbn; split; try done.
  - intros [(s & Hs & Huniq) _].
    pose proof (Huniq Unknown eq_refl). pose proof (Huniq Null eq_refl).
    congruence.
  - intros [(s & Hs & Huniq) _].
    pose proof (Huniq Unknown eq_refl). pose proof (Huniq Null eq_refl).
    congruence.
  - intros [_ H]. by specialize (H eq_refl).
  - intros _. split; [|done]. exists Unknown. split; [done|]. by intros [].
  - intros [_ H]. by specialize (H eq_refl).
  - intros _. split; [|done]. exists Null. split; [done|]. by intros [].
  - intros _. split; [|done]. exists Known. split; [done|]. by intros [].
  - intros _. split; [|done]. exists Known. split; [done|]. by intros [].
Qed.

Lemma tri_state_exclusive v : tri_state v = true → exclusive v = true.
Proof. destruct v; cbn [tri_state]; by intros [? _]%andb_true_iff. Qed.

(** C9: every Value that a [ValueFromTerraform] returns and every Value
    that [FromStruct] returns, with every Value inside it, is in exactly
    one of the states Unknown, Null and Known: the two flags are never
    both set, and the payload is populated only when both are false. *)
Theorem C9_tri_state (v : types.Value) :
  (∃ t in_, types.ValueFromTerraform t in_ = Ok v) ∨
  (∃ typ fields, reflect.FromStruct typ fields = Ok v) →
  tri_state v = true ∧
  (∃ s, holds s v = true ∧ ∀ s', holds s' v = true → s' = s) ∧
  types.Value_Unknown v && types.Value_Null v = false ∧
  (payload_populated v = true → holds Known v = true).
Proof.
  intros Hv.
  assert (tri_state v = true) as Htri.
  { destruct Hv as [(t & in_ & H)|(typ & fields & H)].
    - by eapply ValueFromTerraform_tri_state.
    - by eapply FromStruct_tri_state. }
  split; [done|].
  pose proof (tri_state_exclusive _ Htri) as Hex.
  pose proof (proj1 (exclusive_exactly_one v) Hex) as [H1 H2].
  split_and!; [done| |done].
  unfold exclusive in Hex. apply andb_true_iff in Hex as [Hex _].
  by apply negb_true_iff in Hex.
Qed.

Lemma C9_tri_state_witness :
  let t := types.ListType (Some (types.Prim types.StringType)) in
  let in_ := tftypes.mkValue (tftypes.List tftypes.String)
    (tftypes.RawList [tftypes.mkValue tftypes.String tftypes.RawUnknown;
                      tftypes.mkValue tftypes.String (tftypes.RawString "x")]) in
  let v := types.List false false
    [types.String true false ""; types.String false false "x"]
    (Some (types.Prim types.StringType)) in
  types.ValueFromTerraform t in_ = Ok v ∧ tri_state v = true.
Proof.
  intros t in_ v.
  assert (types.ValueFromTerraform t in_ = Ok v) as H by reflexivity.
  split; [exact H|].
  exact (proj1 (C9_tri_state v (or_introl (ex_intro _ t (ex_intro _ in_ H))))).
Defined.

(** [TestFromStruct_primitives], and a field of type [types.String] with
    both flags set: the object Type decodes its encoding, which is null. *)
Lemma TestFromStruct_primitives :
  let typ := types.ObjectType
    {[ "name" := Some (types.Prim types.StringType);
       "age" := Some (types.Prim types.NumberType);
       "opted_in" := Some (types.Prim types.BoolType) ]} in
  reflect.FromStruct typ
    {[ "name" := reflect.NString "myfirstdisk";
       "age" := reflect.NNumber (big.NewFloat 30);
       "opted_in" := reflect.NBool true ]}
  = Ok (types.Object false false
          {[ "name" := types.String false false "myfirstdisk";
             "age" := types.Number false false (Some (big.NewFloat 30));
             "opted_in" := types.Bool false false true ]}
          {[ "name" := Some (types.Prim types.StringType);
             "age" := Some (types.Prim types.NumberType);
             "opted_in" := Some (types.Prim types.BoolType) ]}) ∧
  reflect.FromStruct
    (types.ObjectType {[ "a" := Some (types.Prim types.StringType) ]})
    {[ "a" := reflect.NAttrValue (types.String true true "") ]}
  = Ok (types.Object false false {[ "a" := types.String false true "" ]}
          {[ "a" := Some (types.Prim types.StringType) ]}).
Proof. vm_compute. done. Qed.

(** ** Round trip *)

Lemma Cmp_refl x : big.Cmp x x = Eq.
Proof. unfold big.Cmp. apply Z.compare_refl. Qed.

(** A number of precision up to 53 is decoded to the same number. *)
Lemma decoded_number_small f :
  (big.prec f ≤ 53)%N → big.Cmp (decoded_number f) f = Eq.
Proof.
  intros Hp. unfold decoded_number, big.Set_.
  change (big.NewFloat 0) with (big.mkFloat 53 0 0). cbn [big.prec N.eqb].
  change (53 =? 0)%N with false. cbn iota.
  destruct (53 <? big.prec f)%N eqn:Hlt.
  - apply N.ltb_lt in Hlt. lia.
  - unfold big.Cmp. cbn [big.mant big.exp]. apply Z.compare_refl.
Qed.

Lemma NewValue_Ok_ValidateValue ty val v :
  tftypes.NewValue ty val = Ok v → tftypes.ValidateValue ty val = true.
Proof. unfold tftypes.NewValue. by destruct (tftypes.ValidateValue ty val). Qed.

Lemma wrap_Ok e ety val :
  types.TerraformType e = Ok ety →
  tftypes.NewValue ety val = Ok (tftypes.mkValue ety val) →
  types.wrap (Some e) val = Ok (tftypes.mkValue ety val).
Proof.
  intros H1 H2. unfold types.wrap. cbn. rewrite H1. cbn.
  by rewrite (NewValue_Ok_ValidateValue _ _ _ H2).
Qed.

Lemma NewValue_container ty val :
  tftypes.ValidateValue ty val = true →
  (∀ n, val ≠ tftypes.RawNumber n) →
  tftypes.NewValue ty val = Ok (tftypes.mkValue ty val).
Proof.
  intros Hval Hn. unfold tftypes.NewValue. rewrite Hval.
  destruct val; try done. by destruct (Hn n).
Qed.

Lemma round_trips_inv v e ety :
  round_trips v e → types.TerraformType e = Ok ety →
  ∃ val, types.ToTerraformValue v = Ok val ∧
         tftypes.NewValue ety val = Ok (tftypes.mkValue ety val) ∧
         types.ValueFromTerraform e (tftypes.mkValue ety val) = Ok (decoded v).
Proof.
  intros (val & ty & Hto & Hty & Hval & Hfrom) Hety.
  rewrite Hty in Hety. injection Hety as ->. by exists val.
Qed.

(** The loop of [List.ToTerraformValue] and the loop of
    [ListType.ValueFromTerraform] undo each other, element by element and
    in order. *)
Lemma round_trip_elems_list e ety elems :
  types.TerraformType e = Ok ety →
  (∀ x, x ∈ elems → round_trips x e) →
  ∃ vals,
    for_range_list (λ elem,
      match types.ToTerraformValue elem with
      | Ok val => types.wrap (Some e) val
      | Err err => Err err
      | Panic => Panic
      end) elems = Ok vals ∧
    forallb (λ v, tftypes.Is (tftypes.Value_Type v) ety) vals = true ∧
    for_range_list (types.iface_ValueFromTerraform (Some e)) vals
      = Ok (decoded <$> elems).
Proof.
  intros Hety. induction elems as [|x elems IH]; intros Hall.
  - by exists [].
  - destruct (round_trips_inv x e ety) as (val & Hto & Hval & Hfrom);
      [apply Hall; left|done|].
    destruct IH as (vals & Henc & His & Hdec).
    { intros y Hy. apply Hall. by right. }
    exists (tftypes.mkValue ety val :: vals). split_and!.
    + cbn [for_range_list]. by rewrite Hto, (wrap_Ok _ _ _ Hety Hval), Henc.
    + cbn [forallb tftypes.Value_Type]. by rewrite Is_refl, His.
    + cbn [for_range_list]. rewrite Hdec.
      cbn [types.iface_ValueFromTerraform]. by rewrite Hfrom.
Qed.

(** The same for the loops over a map, of [Map] and of [Object]: [tyOf]
    gives the declared type under each key. *)
Lemma round_trip_elems_map (tyOf : string → option types.Type_)
    (elems : gmap string types.Value) :
  (∀ k a, elems !! k = Some a →
     ∃ e ety, tyOf k = Some e ∧ types.TerraformType e = Ok ety ∧ round_trips a e) →
  ∃ vals,
    for_range_map (λ k a,
      match types.ToTerraformValue a with
      | Ok val => types.wrap (tyOf k) val
      | Err err => Err err
      | Panic => Panic
      end) elems = Ok vals ∧
    (∀ k v, vals !! k = Some v →
       ∃ e ety, tyOf k = Some e ∧ types.TerraformType e = Ok ety ∧
                tftypes.Value_Type v = ety) ∧
    (∀ k, is_Some (vals !! k) ↔ is_Some (elems !! k)) ∧
    for_range_map (λ k, types.iface_ValueFromTerraform (tyOf k)) vals
      = Ok (decoded <$> elems).
Proof.
  intros Hall.
  set (f := λ (k : string) (a : types.Value),
    match types.ToTerraformValue a with
    | Ok val => types.wrap (tyOf k) val
    | Err err => Err err
    | Panic => Panic
    end).
  assert (∀ k a, elems !! k = Some a →
            ∃ e ety val, tyOf k = Some e ∧ types.TerraformType e = Ok ety ∧
              f k a = Ok (tftypes.mkValue ety val) ∧
              types.ValueFromTerraform e (tftypes.mkValue ety val)
                = Ok (decoded a)) as Hf.
  { intros k a Hk. destruct (Hall k a Hk) as (e & ety & Hty & Hety & Hrt).
    destruct (round_trips_inv a e ety Hrt Hety) as (val & Hto & Hval & Hfrom).
    exists e, ety, val. split_and!; try done.
    unfold f. by rewrite Hto, Hty, (wrap_Ok _ _ _ Hety Hval). }
  destruct (for_range_map_total f elems) as [vals Hvals].
  { intros k a Hk. destruct (Hf k a Hk) as (e & ety & val & _ & _ & -> & _). done. }
  exists vals. split; [done|].
  pose proof (for_range_map_Ok _ _ _ Hvals) as Hlookup.
  split_and!.
  - intros k v Hv.
    destruct (for_range_map_Ok_lookup _ _ _ _ _ Hvals Hv) as (a & Ha & Hfa).
    destruct (Hf k a Ha) as (e & ety & val & Hty & Hety & Hfa' & _).
    exists e, ety. split_and!; try done. rewrite Hfa in Hfa'. by simplify_eq.
  - intros k. rewrite Hlookup. destruct (elems !! k) as [a|] eqn:Ha; simpl.
    + destruct (Hf k a Ha) as (e & ety & val & _ & _ & -> & _). simpl.
      split; eauto.
    + split; intros [? ?]; done.
  - apply for_range_map_intro.
    + intros k v Hv.
      destruct (for_range_map_Ok_lookup _ _ _ _ _ Hvals Hv) as (a & Ha & Hfa).
      destruct (Hf k a Ha) as (e & ety & val & Hty & Hety & Hfa' & Hfrom).
      exists (decoded a). rewrite lookup_fmap, Ha. split; [|done].
      rewrite Hfa in Hfa'. simplify_eq. by rewrite Hty.
    + intros k Hk. rewrite Hlookup in Hk. rewrite lookup_fmap.
      destruct (elems !! k) as [a|] eqn:Ha; [|done]. simpl in Hk.
      destruct (Hf k a Ha) as (e & ety & val & _ & _ & Hfa & _).
      by rewrite Hfa in Hk.
Qed.

Lemma ok_true_inv r : ok_true r = true → r = Ok true.
Proof. by destruct r as [[]| |]. Qed.

Lemma conforms_exclusive v t :
  conforms v t = true →
  types.Value_Unknown v && types.Value_Null v = false.
Proof.
  destruct v; cbn [conforms]; intros [H _]%andb_true_iff;
    by apply negb_true_iff in H.
Qed.

Lemma map_dom_eq_of_size {A B} (m1 : gmap string A) (m2 : gmap string B) :
  size m1 = size m2 →
  (∀ k, is_Some (m1 !! k) → is_Some (m2 !! k)) →
  ∀ k, is_Some (m2 !! k) → is_Some (m1 !! k).
Proof.
  intros Hsize Hsub k Hk.
  assert (dom m1 = dom m2) as Hdom.
  { apply set_subseteq_size_eq.
    - intros x Hx. apply elem_of_dom. apply Hsub. by apply elem_of_dom.
    - rewrite !size_dom. lia. }
  apply elem_of_dom. rewrite Hdom. by apply elem_of_dom.
Qed.

(** The trip of a conforming value, known or not. *)
Lemma conforms_round_trips v : ∀ t, conforms v t = true → round_trips v t.
Proof.
  induction v as [u n s|u n q|u n b|u n attrs ats IH|u n elems et IH|u n elems et IH]
    using Value_ind'; intros t Hc;
    pose proof (conforms_exclusive _ _ Hc) as Hex;
    cbn [conforms] in Hc; apply andb_true_iff in Hc as [_ Hc].
  - destruct t as [[]|m|e|e]; try done.
    destruct u, n; try done; cbn in Hc;
      try apply bool_decide_eq_true in Hc as ->;
      unfold round_trips; eexists _, _; split_and!; reflexivity.
  - destruct t as [[]|m|e|e]; try done.
    destruct u, n, q as [q|]; try done;
      unfold round_trips; eexists _, _; split_and!; reflexivity.
  - destruct t as [[]|m|e|e]; try done.
    destruct u, n, b; try done;
      unfold round_trips; eexists _, _; split_and!; reflexivity.
  - destruct t as [[]|m|e|e]; try done.
    apply andb_true_iff in Hc as [[Hwf Heq]%andb_true_iff Hst].
    apply ok_true_inv, Type_Equal_true in Heq; [|done].
    injection Heq as ->.
    destruct (TerraformType_wf _ Hwf) as [ty HTT].
    pose proof HTT as HTT'. cbn [types.TerraformType] in HTT'.
    destruct (for_range_map _ m) as [tys| |] eqn:Htys; [|done..].
    injection HTT' as <-.
    destruct u, n; try done; cbn [orb] in Hst.
    + apply bool_decide_eq_true, map_size_empty_inv in Hst as ->.
      exists tftypes.RawUnknown, (tftypes.Object tys). split_and!; try done.
      rewrite ValueFromTerraform_ObjectType, HTT.
      cbn [mbind result_bind tftypes.Value_Type]. by rewrite Is_refl.
    + apply bool_decide_eq_true, map_size_empty_inv in Hst as ->.
      exists tftypes.RawNil, (tftypes.Object tys). split_and!; try done.
      rewrite ValueFromTerraform_ObjectType, HTT.
      cbn [mbind result_bind tftypes.Value_Type]. by rewrite Is_refl.
    + apply andb_true_iff in Hst as [Hsize%bool_decide_eq_true Hall].
      pose proof (proj1 (map_forallb_spec _ _) Hall) as Hattrs. clear Hall.
      assert (∀ k a, attrs !! k = Some a →
                ∃ e, m !! k = Some (Some e) ∧ conforms a e = true) as Hattrs'.
      { intros k a Hk. specialize (Hattrs k a Hk). simpl in Hattrs.
        destruct (m !! k) as [[e|]|]; try done. by exists e. }
      destruct (round_trip_elems_map (λ k, default None (m !! k)) attrs)
        as (vals & Henc & Hty & Hdom & Hdec).
      { intros k a Hk. destruct (Hattrs' k a Hk) as (e & Hm & Hconf).
        destruct (wf_Object_lookup _ _ _ Hwf Hm) as (e' & [= <-] & He).
        destruct (TerraformType_wf e He) as [ety Hety].
        exists e, ety. split_and!; try done; [by rewrite Hm|by apply (IH k)]. }
      exists (tftypes.RawMap vals), (tftypes.Object tys). split_and!; try done.
      * cbn [types.ToTerraformValue]. by rewrite Henc.
      * apply NewValue_container; [|done].
        cbn [tftypes.ValidateValue]. apply andb_true_iff. split.
        -- apply map_forallb_spec. intros k t' Hk. apply bool_decide_eq_true.
           apply Hdom.
           apply (map_dom_eq_of_size attrs m Hsize).
           ++ intros k' [a Ha]. destruct (Hattrs' k' a Ha) as (e & -> & _). done.
           ++ destruct (for_range_map_Ok_lookup _ _ _ _ _ Htys Hk) as (o & -> & _).
              done.
        -- apply map_forallb_spec. intros k v Hv.
           destruct (Hty k v Hv) as (e & ety & He & Hety & <-).
           rewrite (for_range_map_Ok _ _ _ Htys k).
           destruct (m !! k) as [[e'|]|]; try done. simpl in He.
           injection He as ->. simpl. rewrite Hety. simpl. apply Is_refl.
      * rewrite ValueFromTerraform_ObjectType, HTT.
        cbn [mbind result_bind tftypes.Value_Type]. rewrite Is_refl. cbn.
        by rewrite Hdec.
  - destruct t as [[]|m|[e|]|[e|]]; try done.
    apply andb_true_iff in Hc as [[Hwf Heq]%andb_true_iff Hst].
    apply ok_true_inv, Type_Equal_true in Heq as ->; [|done].
    destruct (TerraformType_wf e Hwf) as [ety Hety].
    assert (types.TerraformType (types.ListType (Some e)) = Ok (tftypes.List ety))
      as HTT by (cbn; by rewrite Hety).
    destruct u, n; try done; cbn [orb] in Hst.
    + apply bool_decide_eq_true, nil_length_inv in Hst as ->.
      exists tftypes.RawUnknown, (tftypes.List ety). split_and!; try done.
      rewrite ValueFromTerraform_ListType, HTT. cbn. by rewrite Is_refl.
    + apply bool_decide_eq_true, nil_length_inv in Hst as ->.
      exists tftypes.RawNil, (tftypes.List ety). split_and!; try done.
      rewrite ValueFromTerraform_ListType, HTT. cbn. by rewrite Is_refl.
    + destruct (round_trip_elems_list e ety elems Hety) as (vals & Henc & His & Hdec).
      { intros x Hx. apply IH; [done|].
        apply (proj1 (forallb_forall _ _) Hst), list_elem_of_In, Hx. }
      exists (tftypes.RawList vals), (tftypes.List ety). split_and!; try done.
      * cbn [types.ToTerraformValue]. by rewrite Henc.
      * by apply NewValue_container.
      * rewrite ValueFromTerraform_ListType, HTT. cbn. rewrite Is_refl. cbn.
        by rewrite Hdec.
  - destruct t as [[]|m|[e|]|[e|]]; try done.
    apply andb_true_iff in Hc as [[Hwf Heq]%andb_true_iff Hst].
    apply ok_true_inv, Type_Equal_true in Heq as ->; [|done].
    destruct (TerraformType_wf e Hwf) as [ety Hety].
    assert (types.TerraformType (types.MapType (Some e)) = Ok (tftypes.Map ety))
      as HTT by (cbn; by rewrite Hety).
    destruct u, n; try done; cbn [orb] in Hst.
    + apply bool_decide_eq_true, map_size_empty_inv in Hst as ->.
      exists tftypes.RawUnknown, (tftypes.Map ety). split_and!; try done.
      rewrite ValueFromTerraform_MapType. cbn. rewrite Hety. cbn.
      by rewrite Is_refl.
    + apply bool_decide_eq_true, map_size_empty_inv in Hst as ->.
      exists tftypes.RawNil, (tftypes.Map ety). split_and!; try done.
      rewrite ValueFromTerraform_MapType. cbn. rewrite Hety. cbn.
      by rewrite Is_refl.
    + destruct (round_trip_elems_map (λ _, Some e) elems)
        as (vals & Henc & Hty & _ & Hdec).
      { intros k a Hk. exists e, ety. split_and!; try done. apply (IH k); [done|].
        by apply (proj1 (map_forallb_spec _ _) Hst k). }
      exists (tftypes.RawMap vals), (tftypes.Map ety). split_and!; try done.
      * cbn [types.ToTerraformValue]. by rewrite Henc.
      * apply NewValue_container; [|done].
        cbn. apply map_forallb_spec. intros k v Hv.
        destruct (Hty k v Hv) as (e' & ety' & [= <-] & Hety' & <-).
        rewrite Hety in Hety'. injection Hety' as <-. apply Is_refl.
      * rewrite ValueFromTerraform_MapType. cbn. rewrite Hety. cbn.
        rewrite Is_refl. cbn. by rewrite Hdec.
Qed.

(** The decoded value is [Equal] to a conforming value whose numbers are
    numbers of 53 bits. *)
Lemma Value_Equal_decoded v :
  ∀ t, conforms v t = true → numbers_fit v = true →
       types.Value_Equal (decoded v) v = Ok true.
Proof.
  induction v as [u n s|u n q|u n b|u n attrs ats IH|u n elems et IH|u n elems et IH]
    using Value_ind'; intros t Hc Hfit;
    cbn [conforms] in Hc; apply andb_true_iff in Hc as [_ Hc].
  - cbn. rewrite !eqb_reflx. cbn. by rewrite bool_decide_eq_true_2.
  - destruct t as [[]|m|e|e]; try done.
    destruct u, n, q as [q|]; try done. cbn in Hfit |- *.
    by destruct (big.Cmp (decoded_number q) q).
  - cbn. by rewrite !eqb_reflx.
  - destruct t as [[]|m|e|e]; try done.
    apply andb_true_iff in Hc as [[Hwf Heq]%andb_true_iff Hst].
    apply ok_true_inv, Type_Equal_true in Heq; [|done]. injection Heq as ->.
    cbn [decoded types.Value_Equal]. rewrite !eqb_reflx. cbn [negb].
    rewrite bool_decide_eq_false_2 by (intros ?; done).
    rewrite (proj2 (for_range_all_true _ m)).
    2:{ intros k ty Hk. rewrite Hk.
        destruct (wf_Object_lookup _ _ _ Hwf Hk) as (t & -> & Ht).
        by apply Type_Equal_refl. }
    rewrite map_size_fmap.
    rewrite bool_decide_eq_false_2 by (intros ?; done).
    apply for_range_all_true. intros k a' Hk.
    apply lookup_fmap_Some in Hk as (a & <- & Hk). rewrite Hk.
    cbn [numbers_fit] in Hfit.
    pose proof (proj1 (map_forallb_spec _ _) Hfit k a Hk) as Hfa.
    destruct (u || n).
    + apply bool_decide_eq_true, map_size_empty_inv in Hst as ->.
      by rewrite lookup_empty in Hk.
    + apply andb_true_iff in Hst as [_ Hall].
      pose proof (proj1 (map_forallb_spec _ _) Hall k a Hk) as Ha. simpl in Ha.
      destruct (m !! k) as [[e|]|]; try done. by apply (IH k a Hk e).
  - destruct t as [[]|m|[e|]|[e|]]; try done.
    apply andb_true_iff in Hc as [[Hwf Heq]%andb_true_iff Hst].
    apply ok_true_inv, Type_Equal_true in Heq as ->; [|done].
    cbn [decoded types.Value_Equal]. rewrite !eqb_reflx. cbn [negb].
    cbn [types.iface_Equal]. rewrite Type_Equal_refl by done.
    rewrite length_fmap.
    rewrite bool_decide_eq_false_2 by (intros ?; done).
    apply for_range_all2_true, Forall2_fmap_l, Forall_Forall2_diag, Forall_forall.
    intros x Hx. cbn [numbers_fit] in Hfit.
    apply (IH x Hx e).
    + destruct (u || n).
      * apply bool_decide_eq_true, nil_length_inv in Hst as ->.
        by apply elem_of_nil in Hx.
      * apply (proj1 (forallb_forall _ _) Hst), list_elem_of_In, Hx.
    + apply (proj1 (forallb_forall _ _) Hfit), list_elem_of_In, Hx.
  - destruct t as [[]|m|[e|]|[e|]]; try done.
    apply andb_true_iff in Hc as [[Hwf Heq]%andb_true_iff Hst].
    apply ok_true_inv, Type_Equal_true in Heq as ->; [|done].
    cbn [decoded types.Value_Equal]. rewrite !eqb_reflx. cbn [negb].
    cbn [types.iface_Equal]. rewrite Type_Equal_refl by done.
    rewrite map_size_fmap.
    rewrite bool_decide_eq_false_2 by (intros ?; done).
    apply for_range_all_true. intros k a' Hk.
    apply lookup_fmap_Some in Hk as (a & <- & Hk). rewrite Hk.
    cbn [numbers_fit] in Hfit.
    apply (IH k a Hk e).
    + destruct (u || n).
      * apply bool_decide_eq_true, map_size_empty_inv in Hst as ->.
        by rewrite lookup_empty in Hk.
      * by apply (proj1 (map_forallb_spec _ _) Hst k).
    + by apply (proj1 (map_forallb_spec _ _) Hfit k).
Qed.

(** C3, what the code does: a known value whose payload conforms to its
    declared Type [t] is encoded by [ToTerraformValue] to a Go value that
    [tftypes.NewValue] accepts for the wire type of [t], and
    [t.ValueFromTerraform] decodes the wire value: to the value itself,
    elements in their positions and keys all there, except that every
    number in it has gone through [big.NewFloat(0).Set], which keeps 53
    bits.  The result is [Equal] to the value when its numbers are numbers
    of 53 bits (those of precision up to 53 are); the number 2^53 + 1,
    held with 64 bits, comes back as 2^53 and is not [Equal]. *)
Theorem C3_round_trip (v : types.Value) (t : types.Type_) :
  conforms v t = true → holds Known v = true →
  round_trip t v = Ok (decoded v) ∧
  (numbers_fit v = true → types.Value_Equal (decoded v) v = Ok true) ∧
  (∀ f, v = types.Number false false (Some f) → (big.prec f ≤ 53)%N →
        types.Value_Equal (decoded v) v = Ok true) ∧
  (∀ elems et, v = types.List false false elems et →
     ∃ elems', decoded v = types.List false false elems' et ∧
               length elems' = length elems ∧
               ∀ i, elems' !! i = decoded <$> elems !! i) ∧
  (∀ elems et, v = types.Map false false elems et →
     ∃ elems', decoded v = types.Map false false elems' et ∧
               dom elems' = dom elems ∧
               ∀ k, elems' !! k = decoded <$> elems !! k) ∧
  (let big64 := types.Number false false (Some (big.mkFloat 64 (2 ^ 53 + 1) 0)) in
   conforms big64 (types.Prim types.NumberType) = true ∧
   round_trip (types.Prim types.NumberType) big64
     = Ok (types.Number false false (Some (big.mkFloat 53 (2 ^ 52) 1))) ∧
   types.Value_Equal
     (types.Number false false (Some (big.mkFloat 53 (2 ^ 52) 1))) big64
     = Ok false).
Proof.
  intros Hc _.
  destruct (conforms_round_trips v t Hc) as (val & ty & Hto & Hty & Hval & Hfrom).
  split_and!.
  - unfold round_trip. rewrite Hto. cbn. rewrite Hty. cbn.
    by rewrite (NewValue_Ok_ValidateValue _ _ _ Hval), Hval.
  - intros Hfit. by eapply Value_Equal_decoded.
  - intros f -> Hp. cbn. by rewrite decoded_number_small.
  - intros elems et ->. exists (decoded <$> elems). split_and!; [done| |].
    + by rewrite length_fmap.
    + intros i. by rewrite list_lookup_fmap.
  - intros elems et ->. exists (decoded <$> elems). split_and!; [done| |].
    + by rewrite dom_fmap_L.
    + intros k. by rewrite lookup_fmap.
  - vm_compute. done.
Qed.

Lemma C3_round_trip_witness :
  let t := types.ObjectType
    {[ "name" := Some (types.Prim types.StringType);
       "size" := Some (types.Prim types.NumberType);
       "tags" := Some (types.ListType (Some (types.Prim types.StringType)));
       "labels" := Some (types.MapType (Some (types.Prim types.BoolType))) ]} in
  let v := types.Object false false
    {[ "name" := types.String false false "db1";
       "size" := types.Number false false (Some (big.mkFloat 24 5 (-1)));
       "tags" := types.List false false
                   [types.String false false "prod"; types.String true false "";
                    types.String false false "east"]
                   (Some (types.Prim types.StringType));
       "labels" := types.Map false false
                     {[ "x" := types.Bool false false true;
                        "y" := types.Bool false true false ]}
                     (Some (types.Prim types.BoolType)) ]}
    {[ "name" := Some (types.Prim types.StringType);
       "size" := Some (types.Prim types.NumberType);
       "tags" := Some (types.ListType (Some (types.Prim types.StringType)));
       "labels" := Some (types.MapType (Some (types.Prim types.BoolType))) ]} in
  conforms v t = true ∧ holds Known v = true ∧ numbers_fit v = true ∧
  round_trip t v = Ok (decoded v) ∧
  types.Value_Equal (decoded v) v = Ok true.
Proof.
  intros t v.
  assert (conforms v t = true) as Hc by (vm_compute; reflexivity).
  assert (holds Known v = true) as Hk by reflexivity.
  assert (numbers_fit v = true) as Hfit by (vm_compute; reflexivity).
  split; [exact Hc|]. split; [exact Hk|]. split; [exact Hfit|].
  destruct (C3_round_trip v t Hc Hk) as (Hrt & Heq & _).
  exact (conj Hrt (Heq Hfit)).
Defined.

(** ** More on the loops *)

Section loops_more.
Context {A B : Type}.
Implicit Types (m : gmap string A).

(** An error of the loop is the error of one entry. *)
Lemma for_range_map_Err (f : string → A → result B) m e :
  for_range_map f m = Err e → ∃ k a, m !! k = Some a ∧ f k a = Err e.
Proof.
  unfold for_range_map.
  apply (map_fold_weak_ind (λ r m,
    r = Err e → ∃ k a, m !! k = Some a ∧ f k a = Err e)); [done|].
  intros i x m' r Hi IH H. destruct r as [mb|e'|]; [| |done].
  - destruct (f i x) as [b|e'|] eqn:Hfx; try done. injection H as ->.
    exists i, x. by rewrite lookup_insert_eq.
  - destruct (IH H) as (k & a & Hk & Hf). exists k, a. split; [|done].
    rewrite lookup_insert_ne; [done|]. intros ->. congruence.
Qed.

Lemma for_range_map_Ok_inv (f : string → A → result B) m mb k a :
  for_range_map f m = Ok mb → m !! k = Some a →
  ∃ b, f k a = Ok b ∧ mb !! k = Some b.
Proof.
  intros H Hk. pose proof (for_range_map_spec f m) as Hs. rewrite H in Hs.
  destruct Hs as [Hok Hl]. specialize (Hok k a Hk).
  destruct (f k a) as [b| |] eqn:Hf; try done. exists b. split; [done|].
  rewrite Hl, Hk. simpl. by rewrite Hf.
Qed.

Lemma for_range_map_dom (f : string → A → result B) m mb :
  for_range_map f m = Ok mb → dom mb = dom m.
Proof.
  intros H. pose proof (for_range_map_spec f m) as Hs. rewrite H in Hs.
  destruct Hs as [Hok Hl]. apply set_eq. intros k.
  rewrite !elem_of_dom, Hl. destruct (m !! k) as [a|] eqn:Hk; simpl.
  - specialize (Hok k a Hk). by destruct (f k a).
  - split; intros [? ?]; done.
Qed.

Lemma for_range_map_opt_spec (f : string → A → result (option B)) m :
  match for_range_map_opt f m with
  | Ok mb =>
      (∀ k a, m !! k = Some a → is_ok (f k a) = true) ∧
      (∀ k, mb !! k = m !! k ≫= λ a, mjoin (get_ok (f k a)))
  | Err e => ∃ k a, m !! k = Some a ∧ f k a = Err e
  | Panic => ∃ k a, m !! k = Some a ∧ is_ok (f k a) = false
  end.
Proof.
  unfold for_range_map_opt.
  apply (map_fold_weak_ind (λ r m,
    match r with
    | Ok mb =>
        (∀ k a, m !! k = Some a → is_ok (f k a) = true) ∧
        (∀ k, mb !! k = m !! k ≫= λ a, mjoin (get_ok (f k a)))
    | Err e => ∃ k a, m !! k = Some a ∧ f k a = Err e
    | Panic => ∃ k a, m !! k = Some a ∧ is_ok (f k a) = false
    end)).
  - split; [intros k a; by rewrite lookup_empty|].
    intros k. by rewrite !lookup_empty.
  - intros i x m' r Hi IH.
    destruct r as [mb|e|].
    + destruct IH as [IH1 IH2].
      destruct (f i x) as [[b|]|e|] eqn:Hfx.
      * split.
        -- intros k a [[-> ->]|[? ?]]%lookup_insert_Some; [by rewrite Hfx|eauto].
        -- intros k. destruct (decide (i = k)) as [->|Hne].
           ++ rewrite !lookup_insert_eq. simpl. by rewrite Hfx.
           ++ rewrite !lookup_insert_ne by done. apply IH2.
      * split.
        -- intros k a [[-> ->]|[? ?]]%lookup_insert_Some; [by rewrite Hfx|eauto].
        -- intros k. destruct (decide (i = k)) as [->|Hne].
           ++ rewrite lookup_insert_eq. simpl. rewrite Hfx. simpl.
              by rewrite IH2, Hi.
           ++ rewrite lookup_insert_ne by done. apply IH2.
      * exists i, x. by rewrite lookup_insert_eq.
      * exists i, x. by rewrite lookup_insert_eq, Hfx.
    + destruct IH as (k & a & Hk & Hf). exists k, a. split; [|done].
      rewrite lookup_insert_ne; [done|]. intros ->. congruence.
    + destruct IH as (k & a & Hk & Hf). exists k, a. split; [|done].
      rewrite lookup_insert_ne; [done|]. intros ->. congruence.
Qed.

End loops_more.

(** ** The wire type of a Type *)

Lemma TerraformType_not_Err t e : types.TerraformType t ≠ Err e.
Proof.
  induction t as [p|m IH|e0 IH|e0 IH] using Type_ind'.
  - done.
  - cbn [types.TerraformType].
    destruct (for_range_map _ m) as [tys|e'|] eqn:Hl; try done.
    intros [= ->]. apply for_range_map_Err in Hl as (k & [t|] & Hk & Hf); [|done].
    by eapply IH.
  - destruct e0 as [t|]; [|done]. cbn [types.TerraformType].
    destruct (types.TerraformType t) eqn:Ht; try done. intros [= ->]. by eapply IH.
  - destruct e0 as [t|]; [|done]. cbn [types.TerraformType].
    destruct (types.TerraformType t) eqn:Ht; try done. intros [= ->]. by eapply IH.
Qed.

Lemma TerraformType_Ok_wf t ty : types.TerraformType t = Ok ty → wf t = true.
Proof.
  revert ty. induction t as [p|m IH|e0 IH|e0 IH] using Type_ind'; intros ty H.
  - done.
  - cbn [types.TerraformType] in H.
    destruct (for_range_map _ m) as [tys| |] eqn:Hl; try done.
    apply wf_Object_intro. intros k o Hk.
    pose proof (for_range_map_spec
      (λ (_ : string) v, match v with
                         | Some v' => types.TerraformType v'
                         | None => Panic
                         end) m) as Hs.
    rewrite Hl in Hs. destruct Hs as [Hok _].
    specialize (Hok k o Hk). simpl in Hok. destruct o as [t|]; [|done].
    exists t. split; [done|].
    destruct (types.TerraformType t) eqn:Ht; try done. by eapply IH.
  - destruct e0 as [t|]; [|done]. cbn in H |- *.
    destruct (types.TerraformType t) eqn:Ht; try done. by eapply IH.
  - destruct e0 as [t|]; [|done]. cbn in H |- *.
    destruct (types.TerraformType t) eqn:Ht; try done. by eapply IH.
Qed.

Lemma TerraformType_ObjectType_inv m ty :
  types.TerraformType (types.ObjectType m) = Ok ty →
  ∃ tys, ty = tftypes.Object tys ∧
    for_range_map (λ (_ : string) v,
      match v with
      | Some v' => types.TerraformType v'
      | None => Panic
      end) m = Ok tys ∧
    dom tys = dom m ∧
    ∀ k, tys !! k = m !! k ≫= λ o, get_ok (types.iface_TerraformType o).
Proof.
  cbn [types.TerraformType]. intros H.
  destruct (for_range_map _ m) as [tys| |] eqn:Hl; try done.
  injection H as <-. exists tys. split_and!; try done.
  - by eapply for_range_map_dom.
  - intros k. rewrite (for_range_map_Ok _ _ _ Hl k).
    by destruct (m !! k) as [[t|]|].
Qed.

Lemma TerraformType_ListType_inv e ty :
  types.TerraformType (types.ListType e) = Ok ty →
  ∃ e' ety, e = Some e' ∧ types.TerraformType e' = Ok ety ∧ ty = tftypes.List ety.
Proof.
  destruct e as [e'|]; [|done]. cbn.
  destruct (types.TerraformType e') as [ety| |] eqn:He; try done.
  intros [= <-]. by exists e', ety.
Qed.

Lemma TerraformType_MapType_inv e ty :
  types.TerraformType (types.MapType e) = Ok ty →
  ∃ e' ety, e = Some e' ∧ types.TerraformType e' = Ok ety ∧ ty = tftypes.Map ety.
Proof.
  destruct e as [e'|]; [|done]. cbn.
  destruct (types.TerraformType e') as [ety| |] eqn:He; try done.
  intros [= <-]. by exists e', ety.
Qed.

(** X1.  [TerraformType] returns exactly for the Types without a nil
    element or attribute type, at any depth; for the others the method
    call on the nil interface panics.  It never fails otherwise, and the
    wire type has the shape of the Type: the wire type of a list (a map)
    is the list (the map) of the element's wire type, that of an object
    has the same attribute names. *)
Theorem TerraformType_total_iff_wf (t : types.Type_) :
  is_ok (types.TerraformType t) = wf t ∧
  (wf t = false → types.TerraformType t = Panic) ∧
  (∀ e, types.TerraformType t ≠ Err e) ∧
  (∀ e ty, t = types.ListType e → types.TerraformType t = Ok ty →
     ∃ e' ety, e = Some e' ∧ types.TerraformType e' = Ok ety ∧ ty = tftypes.List ety) ∧
  (∀ e ty, t = types.MapType e → types.TerraformType t = Ok ty →
     ∃ e' ety, e = Some e' ∧ types.TerraformType e' = Ok ety ∧ ty = tftypes.Map ety) ∧
  (∀ m ty, t = types.ObjectType m → types.TerraformType t = Ok ty →
     ∃ tys, ty = tftypes.Object tys ∧ dom tys = dom m ∧
       ∀ k, tys !! k = m !! k ≫= λ o, get_ok (types.iface_TerraformType o)).
Proof.
  assert (is_ok (types.TerraformType t) = wf t) as Hiff.
  { destruct (wf t) eqn:Hwf.
    - by destruct (TerraformType_wf t Hwf) as [ty ->].
    - destruct (types.TerraformType t) as [ty| |] eqn:H; try done.
      apply TerraformType_Ok_wf in H. congruence. }
  split_and!; [done| | | | |].
  - intros Hwf. rewrite Hwf in Hiff.
    destruct (types.TerraformType t) as [ty|e|] eqn:H; try done.
    by destruct (TerraformType_not_Err t e).
  - apply TerraformType_not_Err.
  - intros e ty ->. apply TerraformType_ListType_inv.
  - intros e ty ->. apply TerraformType_MapType_inv.
  - intros m ty -> H.
    destruct (TerraformType_ObjectType_inv _ _ H) as (tys & -> & _ & Hdom & Hl).
    by exists tys.
Qed.

(** On the wire types of the embedding, [Is] is identity. *)
Lemma Is_eq a b : tftypes.Is a b = true → a = b.
Proof.
  revert b. induction a as [| | |e IH|e IH|m IH] using tfType_ind';
    intros [| | |e'|e'|m'] H; try done; simpl in H.
  - f_equal. by apply IH.
  - f_equal. by apply IH.
  - apply andb_true_iff in H as [Hsize%bool_decide_eq_true Hall]. f_equal.
    apply map_subseteq_size_eq; [|lia].
    apply map_subseteq_spec. intros k ta Hk.
    pose proof (proj1 (map_forallb_spec _ _) Hall k ta Hk) as Hp. simpl in Hp.
    destruct (m' !! k) as [tb|]; [|done]. by rewrite (IH k ta Hk tb Hp).
Qed.

(** ** Decoding: what a successful call tells

    The primitive Types decode as [types.primitive_ValueFromTerraform]
    has them: [stringValueFromTerraform] and [numberValueFromTerraform]
    are the functions of the sources; the dispatch to them and the
    decoding of a [Bool] are modelled from the spec. *)

Lemma decoded_number_idem f : decoded_number (decoded_number f) = decoded_number f.
Proof.
  unfold decoded_number at 1. unfold big.Set_.
  change (big.NewFloat 0) with (big.mkFloat 53 0 0). cbn [big.prec].
  change (53 =? 0)%N with false. cbn iota.
  assert (big.prec (decoded_number f) = 53%N) as Hp.
  { unfold decoded_number, big.Set_.
    change (big.NewFloat 0) with (big.mkFloat 53 0 0). cbn [big.prec].
    change (53 =? 0)%N with false. cbn iota.
    destruct (53 <? big.prec f)%N; [|done].
    by destruct (big.round 53 (big.mant f) (big.exp f)). }
  rewrite Hp. change (53 <? 53)%N with false. cbn iota.
  rewrite <- Hp. by destruct (decoded_number f).
Qed.

Lemma primitive_ValueFromTerraform_inv p in_ v :
  types.primitive_ValueFromTerraform p in_ = Ok v →
  match tftypes.Value_value in_ with
  | tftypes.RawUnknown => v = Unknown_of (types.Prim p)
  | tftypes.RawNil => v = Null_of (types.Prim p)
  | tftypes.RawString s => p = types.StringType ∧ v = types.String false false s
  | tftypes.RawNumber (Some f) =>
      p = types.NumberType ∧ v = types.Number false false (Some (decoded_number f))
  | tftypes.RawBool b => p = types.BoolType ∧ v = types.Bool false false b
  | _ => False
  end.
Proof.
  destruct in_ as [ty r].
  destruct p, r as [| |s|[f|]|b|l|m]; cbn; try done; intros [= <-]; done.
Qed.

Lemma ValueFromTerraform_ListType_inv e in_ v :
  types.ValueFromTerraform (types.ListType e) in_ = Ok v →
  ∃ e' ety, e = Some e' ∧ types.TerraformType e' = Ok ety ∧
    tftypes.Value_Type in_ = tftypes.List ety ∧
    match tftypes.Value_value in_ with
    | tftypes.RawUnknown => v = types.List true false [] e
    | tftypes.RawNil => v = types.List false true [] e
    | tftypes.RawList l =>
        ∃ elems, Forall2 (λ x y, types.ValueFromTerraform e' x = Ok y) l elems ∧
                 v = types.List false false elems e
    | _ => False
    end.
Proof.
  rewrite ValueFromTerraform_ListType.
  destruct (types.TerraformType (types.ListType e)) as [ty| |] eqn:HT; try done.
  destruct (TerraformType_ListType_inv _ _ HT) as (e' & ety & -> & He & ->).
  cbn [mbind result_bind].
  destruct (tftypes.Is _ _) eqn:His; [|done]. cbn [negb].
  intros H. exists e', ety. split_and!; try done; [by apply Is_eq|].
  destruct in_ as [ty r]. destruct r as [| |s|q|b|l|m]; cbn in H |- *; try done.
  - by injection H as <-.
  - by injection H as <-.
  - destruct (for_range_list _ l) as [elems| |] eqn:Hl; try done.
    injection H as <-. exists elems. split; [|done].
    by apply for_range_list_spec in Hl.
Qed.

Lemma ValueFromTerraform_MapType_inv e in_ v :
  types.ValueFromTerraform (types.MapType e) in_ = Ok v →
  ∃ e' ety, e = Some e' ∧ types.TerraformType e' = Ok ety ∧
    tftypes.Value_Type in_ = tftypes.Map ety ∧
    match tftypes.Value_value in_ with
    | tftypes.RawUnknown => v = types.Map true false ∅ e
    | tftypes.RawNil => v = types.Map false true ∅ e
    | tftypes.RawMap m =>
        ∃ elems, for_range_map (λ _, types.ValueFromTerraform e') m = Ok elems ∧
                 v = types.Map false false elems e
    | _ => False
    end.
Proof.
  rewrite ValueFromTerraform_MapType.
  destruct (tftypes.IsMap _); [|done]. cbn [negb].
  destruct e as [e'|]; [|done]. cbn [types.iface_TerraformType].
  destruct (types.TerraformType e') as [ety| |] eqn:He; try done.
  cbn [mbind result_bind].
  destruct (tftypes.Is _ _) eqn:His; [|done]. cbn [negb].
  intros H. exists e', ety. split_and!; try done; [by apply Is_eq|].
  destruct in_ as [ty r]. destruct r as [| |s|q|b|l|m]; cbn in H |- *; try done.
  - by injection H as <-.
  - by injection H as <-.
  - destruct (for_range_map _ m) as [elems| |] eqn:Hl; try done.
    injection H as <-. by exists elems.
Qed.

Lemma ValueFromTerraform_ObjectType_inv attrTypes in_ v :
  types.ValueFromTerraform (types.ObjectType attrTypes) in_ = Ok v →
  ∃ ty, types.TerraformType (types.ObjectType attrTypes) = Ok ty ∧
    tftypes.Value_Type in_ = ty ∧
    match tftypes.Value_value in_ with
    | tftypes.RawUnknown => v = types.Object true false ∅ attrTypes
    | tftypes.RawNil => v = types.Object false true ∅ attrTypes
    | tftypes.RawMap m =>
        ∃ attrs,
          for_range_map (λ k,
            types.iface_ValueFromTerraform (default None (attrTypes !! k))) m
            = Ok attrs ∧
          v = types.Object false false attrs attrTypes
    | _ => False
    end.
Proof.
  rewrite ValueFromTerraform_ObjectType.
  destruct (types.TerraformType (types.ObjectType attrTypes)) as [ty| |] eqn:HT;
    try done.
  cbn [mbind result_bind].
  destruct (tftypes.Is _ _) eqn:His; [|done]. cbn [negb].
  intros H. exists ty. split_and!; try done; [by apply Is_eq|].
  destruct in_ as [ty' r]. destruct r as [| |s|q|b|l|m]; cbn in H |- *; try done.
  - by injection H as <-.
  - by injection H as <-.
  - destruct (for_range_map _ m) as [attrs| |] eqn:Hl; try done.
    injection H as <-. by exists attrs.
Qed.

Lemma ValueFromTerraform_Ok_wf t in_ v :
  types.ValueFromTerraform t in_ = Ok v → wf t = true.
Proof.
  destruct t as [p|m|e|e]; [done| | |]; intros H.
  - apply ValueFromTerraform_ObjectType_inv in H as (ty & HT & _).
    by eapply TerraformType_Ok_wf.
  - apply ValueFromTerraform_ListType_inv in H as (e' & ety & -> & HT & _).
    cbn. by eapply TerraformType_Ok_wf.
  - apply ValueFromTerraform_MapType_inv in H as (e' & ety & -> & HT & _).
    cbn. by eapply TerraformType_Ok_wf.
Qed.

Lemma ValueFromTerraform_Prim p in_ :
  types.ValueFromTerraform (types.Prim p) in_ = types.primitive_ValueFromTerraform p in_.
Proof. by destruct in_. Qed.

Lemma for_range_list_total {A B} (f : A → result B) xs :
  (∀ x, x ∈ xs → is_ok (f x) = true) → ∃ ys, for_range_list f xs = Ok ys.
Proof.
  induction xs as [|x xs IH]; intros H; [by eexists|].
  cbn [for_range_list].
  pose proof (H x (list_elem_of_here _ _)) as Hx.
  destruct (f x) as [y| |]; try done.
  destruct IH as [ys ->]; [|by eexists].
  intros x' Hx'. apply H. by right.
Qed.

Lemma valid_value_list ty l x :
  valid_value (tftypes.mkValue ty (tftypes.RawList l)) = true → x ∈ l →
  valid_value x = true ∧ ∃ e, ty = tftypes.List e ∧ tftypes.Value_Type x = e.
Proof.
  cbn [valid_value]. intros [Hval Hch]%andb_true_iff Hx.
  apply list_elem_of_In in Hx. split.
  - by apply (proj1 (forallb_forall _ _) Hch).
  - cbn in Hval. destruct ty as [| | |e|e|m]; try done. exists e. split; [done|].
    by apply Is_eq, (proj1 (forallb_forall _ _) Hval).
Qed.

Lemma valid_value_map ty m k x :
  valid_value (tftypes.mkValue ty (tftypes.RawMap m)) = true → m !! k = Some x →
  valid_value x = true.
Proof.
  cbn [valid_value]. intros [Hval Hch]%andb_true_iff Hk.
  by apply (proj1 (map_forallb_spec _ _) Hch k).
Qed.

(** The values that decoding returns declare Types without nil
    component, at every depth. *)
Lemma ValueFromTerraform_types_wf t :
  ∀ in_ v, types.ValueFromTerraform t in_ = Ok v → types_wf v = true.
Proof.
  induction t as [p|m IH|e IH|e IH] using Type_ind'; intros in_ v H;
    pose proof (ValueFromTerraform_Ok_wf _ _ _ H) as Hwf.
  - rewrite ValueFromTerraform_Prim in H.
    apply primitive_ValueFromTerraform_inv in H.
    destruct (tftypes.Value_value in_) as [| |s|[f|]|b|l|wm]; try done;
      destruct p; prim_inv H; reflexivity.
  - apply ValueFromTerraform_ObjectType_inv in H as (ty & HT & Hty & Hcase).
    destruct (tftypes.Value_value in_) as [| |s|q|b|l|wm]; try done;
      try (subst v; cbn [types_wf]; rewrite Hwf; reflexivity).
    destruct Hcase as (attrs & Hloop & ->). cbn [types_wf]. rewrite Hwf.
    apply map_forallb_spec. intros k a Hk.
    destruct (for_range_map_Ok_lookup _ _ _ _ _ Hloop Hk) as (x & Hx & Hf).
    destruct (m !! k) as [[t|]|] eqn:Hm; simpl in Hf; try done. by eapply IH.
  - apply ValueFromTerraform_ListType_inv in H as (e' & ety & -> & HT & Hty & Hcase).
    destruct (tftypes.Value_value in_) as [| |s|q|b|l|wm]; try done;
      try (subst v; cbn [types_wf]; rewrite Hwf; reflexivity).
    destruct Hcase as (elems & Hloop & ->). cbn [types_wf]. rewrite Hwf.
    apply forallb_forall. intros y Hy%list_elem_of_In.
    revert y Hy. apply Forall_forall.
    eapply Forall2_Forall_r; [done|]. apply Forall_forall. intros x _ y Hy.
    by eapply IH.
  - apply ValueFromTerraform_MapType_inv in H as (e' & ety & -> & HT & Hty & Hcase).
    destruct (tftypes.Value_value in_) as [| |s|q|b|l|wm]; try done;
      try (subst v; cbn [types_wf]; rewrite Hwf; reflexivity).
    destruct Hcase as (elems & Hloop & ->). cbn [types_wf]. rewrite Hwf.
    apply map_forallb_spec. intros k a Hk.
    destruct (for_range_map_Ok_lookup _ _ _ _ _ Hloop Hk) as (x & Hx & Hf).
    by eapply IH.
Qed.

(** The flags of a decoded value are the state of the wire value. *)
Lemma ValueFromTerraform_flags t in_ v :
  types.ValueFromTerraform t in_ = Ok v →
  types.Value_Unknown v = negb (tftypes.IsKnown in_) ∧
  types.Value_Null v = tftypes.IsNull in_ ∧
  variant_of_value v = variant_of t.
Proof.
  destruct t as [p|m|e|e]; intros H.
  - rewrite ValueFromTerraform_Prim in H.
    apply primitive_ValueFromTerraform_inv in H.
    unfold tftypes.IsKnown, tftypes.IsNull.
    destruct (tftypes.Value_value in_) as [| |s|[f|]|b|l|wm]; try done;
      destruct p; prim_inv H; done.
  - apply ValueFromTerraform_ObjectType_inv in H as (ty & HT & Hty & Hcase).
    unfold tftypes.IsKnown, tftypes.IsNull.
    destruct (tftypes.Value_value in_) as [| |s|q|b|l|wm]; try done;
      try (by subst v).
    by destruct Hcase as (attrs & Hloop & ->).
  - apply ValueFromTerraform_ListType_inv in H as (e' & ety & -> & HT & Hty & Hcase).
    unfold tftypes.IsKnown, tftypes.IsNull.
    destruct (tftypes.Value_value in_) as [| |s|q|b|l|wm]; try done;
      try (by subst v).
    by destruct Hcase as (attrs & Hloop & ->).
  - apply ValueFromTerraform_MapType_inv in H as (e' & ety & -> & HT & Hty & Hcase).
    unfold tftypes.IsKnown, tftypes.IsNull.
    destruct (tftypes.Value_value in_) as [| |s|q|b|l|wm]; try done;
      try (by subst v).
    by destruct Hcase as (attrs & Hloop & ->).
Qed.

Lemma ValueFromTerraform_valid_Ok t :
  ∀ ty in_, types.TerraformType t = Ok ty → tftypes.Value_Type in_ = ty →
            valid_value in_ = true →
            ∃ v, types.ValueFromTerraform t in_ = Ok v.
Proof.
  induction t as [p|m IH|e IH|e IH] using Type_ind'; intros ty [ity r] HT Hty Hv;
    cbn [tftypes.Value_Type] in Hty; subst ity;
    pose proof Hv as Hv'; cbn [valid_value] in Hv';
    apply andb_true_iff in Hv' as [Hval Hch].
  - rewrite ValueFromTerraform_Prim. injection HT as <-.
    destruct p, r as [| |s|[f|]|b|l|wm]; try done; cbn; eauto.
  - destruct (TerraformType_ObjectType_inv _ _ HT) as (tys & -> & Htys & Hdom & Hl).
    rewrite ValueFromTerraform_ObjectType, HT.
    cbn [mbind result_bind tftypes.Value_Type]. rewrite Is_refl. cbn [negb].
    destruct r as [| |s|q|b|l|wm]; try done; [cbn; eauto..|].
    cbn [tftypes.ValidateValue] in Hval. apply andb_true_iff in Hval as [_ Hall].
    destruct (for_range_map_total
      (λ k, types.iface_ValueFromTerraform (default None (m !! k))) wm)
      as [attrs Ha]; [|cbn; rewrite Ha; eauto].
    intros k x Hk.
    pose proof (proj1 (map_forallb_spec _ _) Hall k x Hk) as Hx. simpl in Hx.
    rewrite Hl in Hx. destruct (m !! k) as [[t|]|] eqn:Hm; simpl in Hx; try done.
    destruct (types.TerraformType t) as [ty'| |] eqn:Ht; simpl in Hx; try done.
    destruct (IH k t Hm ty' x Ht) as [v Hvx].
    + by apply Is_eq.
    + by eapply valid_value_map.
    + simpl. by rewrite Hvx.
  - destruct (TerraformType_ListType_inv _ _ HT) as (e' & ety & -> & He & ->).
    rewrite ValueFromTerraform_ListType, HT.
    cbn [mbind result_bind tftypes.Value_Type]. rewrite Is_refl. cbn [negb].
    destruct r as [| |s|q|b|l|wm]; try done; [cbn; eauto..|].
    destruct (for_range_list_total (types.iface_ValueFromTerraform (Some e')) l)
      as [elems Ha]; [|cbn; rewrite Ha; eauto].
    intros x Hx.
    destruct (valid_value_list _ _ _ Hv Hx) as (Hvx & e0 & [= <-] & Hty).
    destruct (IH e' eq_refl ety x He Hty Hvx) as [v Hd]. simpl. by rewrite Hd.
  - destruct (TerraformType_MapType_inv _ _ HT) as (e' & ety & -> & He & ->).
    rewrite ValueFromTerraform_MapType.
    cbn [mbind result_bind tftypes.Value_Type tftypes.IsMap negb
         types.iface_TerraformType].
    rewrite He. cbn [mbind result_bind]. rewrite Is_refl. cbn [negb].
    destruct r as [| |s|q|b|l|wm]; try done; [cbn; eauto..|].
    destruct (for_range_map_total
      (λ _ : string, types.iface_ValueFromTerraform (Some e')) wm)
      as [elems Ha]; [|cbn; rewrite Ha; eauto].
    intros k x Hk. cbn [tftypes.ValidateValue] in Hval.
    pose proof (proj1 (map_forallb_spec _ _) Hval k x Hk) as Hx. simpl in Hx.
    destruct (IH e' eq_refl ety x He) as [v Hd].
    + by apply Is_eq.
    + by eapply valid_value_map.
    + simpl. by rewrite Hd.
Qed.

(** X2.  Decoding is total on the wire values that [tftypes.NewValue]
    builds: a Type whose wire type is [ty] decodes every valid wire value
    of type [ty]; the value returned is of the struct of the Type, its
    flags are the state of the wire value, and the types it declares have
    no nil component. *)
Theorem ValueFromTerraform_total
    (t : types.Type_) (ty : tftypes.Type_) (in_ : tftypes.Value) :
  types.TerraformType t = Ok ty →
  tftypes.Value_Type in_ = ty →
  valid_value in_ = true →
  ∃ v, types.ValueFromTerraform t in_ = Ok v ∧
       variant_of_value v = variant_of t ∧
       types.Value_Unknown v = negb (tftypes.IsKnown in_) ∧
       types.Value_Null v = tftypes.IsNull in_ ∧
       types_wf v = true.
Proof.
  intros HT Hty Hv.
  destruct (ValueFromTerraform_valid_Ok t ty in_ HT Hty Hv) as [v H].
  destruct (ValueFromTerraform_flags _ _ _ H) as (Hu & Hn & Hvar).
  exists v. split_and!; try done. by eapply ValueFromTerraform_types_wf.
Qed.

Lemma ValueFromTerraform_total_witness :
  let t := types.ObjectType
    {[ "name" := Some (types.Prim types.StringType);
       "tags" := Some (types.ListType (Some (types.Prim types.StringType))) ]} in
  let ty := tftypes.Object
    {[ "name" := tftypes.String; "tags" := tftypes.List tftypes.String ]} in
  let in_ := tftypes.mkValue ty (tftypes.RawMap
    {[ "name" := tftypes.mkValue tftypes.String (tftypes.RawString "db");
       "tags" := tftypes.mkValue (tftypes.List tftypes.String) tftypes.RawUnknown ]}) in
  types.TerraformType t = Ok ty ∧ tftypes.Value_Type in_ = ty ∧
  valid_value in_ = true ∧
  ∃ v, types.ValueFromTerraform t in_ = Ok v ∧ types_wf v = true.
Proof.
  intros t ty in_.
  assert (types.TerraformType t = Ok ty) as HT by (vm_compute; reflexivity).
  assert (tftypes.Value_Type in_ = ty) as Hty by reflexivity.
  assert (valid_value in_ = true) as Hv by (vm_compute; reflexivity).
  split; [exact HT|]. split; [exact Hty|]. split; [exact Hv|].
  destruct (ValueFromTerraform_total t ty in_ HT Hty Hv) as (v & H & _ & _ & _ & Hwf).
  exists v. exact (conj H Hwf).
Defined.

(** Decoding a valid wire value gives a value that makes the trip to the
    wire and back unchanged. *)
Lemma ValueFromTerraform_round_trips t :
  ∀ in_ v, valid_value in_ = true → types.ValueFromTerraform t in_ = Ok v →
           round_trips v t ∧ decoded v = v.
Proof.
  induction t as [p|m IH|e IH|e IH] using Type_ind'; intros in_ v Hv H.
  - rewrite ValueFromTerraform_Prim in H.
    apply primitive_ValueFromTerraform_inv in H.
    destruct (tftypes.Value_value in_) as [| |s|[f|]|b|l|wm]; try done;
      destruct p; prim_inv H;
      (split; [unfold round_trips; eexists _, _; split_and!; reflexivity|]);
      try reflexivity.
    cbn [decoded]. by rewrite decoded_number_idem.
  - pose proof H as H0.
    apply ValueFromTerraform_ObjectType_inv in H as (ty & HT & Hty & Hcase).
    destruct (TerraformType_ObjectType_inv _ _ HT) as (tys & -> & Htys & Hdomtys & Hl).
    destruct in_ as [ity r]. cbn [tftypes.Value_Type tftypes.Value_value] in *.
    subst ity. pose proof Hv as Hv'. cbn [valid_value] in Hv'.
    apply andb_true_iff in Hv' as [Hval Hch].
    destruct r as [| |s|q|b|l|wm]; try done.
    + subst v. cbn [decoded]. rewrite fmap_empty. split; [|done].
      exists tftypes.RawNil, (tftypes.Object tys). split_and!;
        first [done | cbn [decoded]; by rewrite fmap_empty].
    + subst v. cbn [decoded]. rewrite fmap_empty. split; [|done].
      exists tftypes.RawUnknown, (tftypes.Object tys). split_and!;
        first [done | cbn [decoded]; by rewrite fmap_empty].
    + destruct Hcase as (attrs & Hloop & ->).
      assert (∀ k a, attrs !! k = Some a →
                ∃ e ety x, m !! k = Some (Some e) ∧ types.TerraformType e = Ok ety ∧
                  wm !! k = Some x ∧ valid_value x = true ∧
                  types.ValueFromTerraform e x = Ok a) as Hattrs.
      { intros k a Hk.
        destruct (for_range_map_Ok_lookup _ _ _ _ _ Hloop Hk) as (x & Hx & Hf).
        destruct (m !! k) as [[e|]|] eqn:Hm; simpl in Hf; try done.
        pose proof (ValueFromTerraform_Ok_wf _ _ _ Hf) as Hwfe.
        destruct (TerraformType_wf e Hwfe) as [ety Hety].
        exists e, ety, x. split_and!; try done. by eapply valid_value_map. }
      destruct (round_trip_elems_map (λ k, default None (m !! k)) attrs)
        as (vals & Henc & Hty & Hdom & Hdec).
      { intros k a Hk.
        destruct (Hattrs k a Hk) as (e & ety & x & Hm & Hety & Hx & Hvx & Hd).
        exists e, ety. split_and!; [by rewrite Hm|done|].
        by apply (IH k e Hm x a). }
      split.
      * exists (tftypes.RawMap vals), (tftypes.Object tys). split_and!; try done.
        -- cbn [types.ToTerraformValue]. by rewrite Henc.
        -- apply NewValue_container; [|done].
           cbn [tftypes.ValidateValue] in Hval |- *.
           apply andb_true_iff in Hval as [Hkeys _].
           apply andb_true_iff. split.
           ++ apply map_forallb_spec. intros k t' Hk. apply bool_decide_eq_true.
              apply Hdom. apply elem_of_dom.
              rewrite (for_range_map_dom _ _ _ Hloop). apply elem_of_dom.
              pose proof (proj1 (map_forallb_spec _ _) Hkeys k t' Hk) as Hin.
              simpl in Hin. by apply bool_decide_eq_true in Hin.
           ++ apply map_forallb_spec. intros k v Hv'.
              destruct (Hty k v Hv') as (e & ety & He & Hety & <-).
              rewrite Hl. destruct (m !! k) as [[e'|]|]; try done.
              simpl in He. injection He as ->. simpl. rewrite Hety. simpl.
              apply Is_refl.
        -- rewrite ValueFromTerraform_ObjectType, HT.
           cbn [mbind result_bind tftypes.Value_Type]. rewrite Is_refl. cbn.
           by rewrite Hdec.
      * cbn [decoded]. f_equal. apply map_eq. intros k. rewrite lookup_fmap.
        destruct (attrs !! k) as [a|] eqn:Hk; [|done]. simpl. f_equal.
        destruct (Hattrs k a Hk) as (e & ety & x & Hm & Hety & Hx & Hvx & Hd).
        by apply (IH k e Hm x a).
  - pose proof H as H0.
    apply ValueFromTerraform_ListType_inv in H as (e' & ety & -> & Hety & Hty & Hcase).
    assert (types.TerraformType (types.ListType (Some e')) = Ok (tftypes.List ety))
      as HT by (cbn; by rewrite Hety).
    destruct in_ as [ity r]. cbn [tftypes.Value_Type tftypes.Value_value] in *.
    subst ity.
    destruct r as [| |s|q|b|l|wm]; try done.
    + subst v. split; [|done].
      by exists tftypes.RawNil, (tftypes.List ety).
    + subst v. split; [|done].
      by exists tftypes.RawUnknown, (tftypes.List ety).
    + destruct Hcase as (elems & Hloop & ->).
      assert (Forall (λ y, round_trips y e' ∧ decoded y = y) elems) as Hall.
      { eapply Forall2_Forall_r; [done|]. apply Forall_forall. intros x Hx y Hy.
        apply (IH e' eq_refl x y); [|done].
        by destruct (valid_value_list _ _ _ Hv Hx). }
      destruct (round_trip_elems_list e' ety elems Hety) as (vals & Henc & His & Hdec).
      { intros y Hy. by apply (proj1 (Forall_forall _ _) Hall y Hy). }
      split.
      * exists (tftypes.RawList vals), (tftypes.List ety). split_and!; try done.
        -- cbn [types.ToTerraformValue]. by rewrite Henc.
        -- by apply NewValue_container.
        -- rewrite ValueFromTerraform_ListType, HT. cbn. rewrite Is_refl. cbn.
           by rewrite Hdec.
      * cbn [decoded]. f_equal. apply list_eq. intros i. rewrite list_lookup_fmap.
        destruct (elems !! i) as [y|] eqn:Hi; [|done]. simpl. f_equal.
        by apply (proj1 (Forall_forall _ _) Hall y), (list_elem_of_lookup_2 _ i).
  - pose proof H as H0.
    apply ValueFromTerraform_MapType_inv in H as (e' & ety & -> & Hety & Hty & Hcase).
    destruct in_ as [ity r]. cbn [tftypes.Value_Type tftypes.Value_value] in *.
    subst ity.
    destruct r as [| |s|q|b|l|wm]; try done.
    + subst v. cbn [decoded]. rewrite fmap_empty. split; [|done].
      exists tftypes.RawNil, (tftypes.Map ety). split_and!;
        first [done | cbn; by rewrite Hety | cbn [decoded]; by rewrite fmap_empty].
    + subst v. cbn [decoded]. rewrite fmap_empty. split; [|done].
      exists tftypes.RawUnknown, (tftypes.Map ety). split_and!;
        first [done | cbn; by rewrite Hety | cbn [decoded]; by rewrite fmap_empty].
    + destruct Hcase as (elems & Hloop & ->).
      assert (∀ k a, elems !! k = Some a → round_trips a e' ∧ decoded a = a) as Hall.
      { intros k a Hk.
        destruct (for_range_map_Ok_lookup _ _ _ _ _ Hloop Hk) as (x & Hx & Hf).
        apply (IH e' eq_refl x a); [|done]. by eapply valid_value_map. }
      destruct (round_trip_elems_map (λ _, Some e') elems)
        as (vals & Henc & Hty & _ & Hdec).
      { intros k a Hk. exists e', ety. split_and!; try done. by apply (Hall k). }
      split.
      * exists (tftypes.RawMap vals), (tftypes.Map ety). split_and!; try done.
        -- cbn [types.ToTerraformValue]. by rewrite Henc.
        -- cbn. by rewrite Hety.
        -- apply NewValue_container; [|done].
           cbn. apply map_forallb_spec. intros k v Hv'.
           destruct (Hty k v Hv') as (e0 & ety' & [= <-] & Hety' & <-).
           rewrite Hety in Hety'. injection Hety' as <-. apply Is_refl.
        -- rewrite ValueFromTerraform_MapType. cbn. rewrite Hety. cbn.
           rewrite Is_refl. cbn. by rewrite Hdec.
      * cbn [decoded]. f_equal. apply map_eq. intros k. rewrite lookup_fmap.
        destruct (elems !! k) as [a|] eqn:Hk; [|done]. simpl. f_equal.
        by apply (Hall k).
Qed.

(** X3.  Decoding is stable: the value that a Type decodes from a valid
    wire value is encoded by [ToTerraformValue] to a Go value that
    [tftypes.NewValue] accepts for the wire type of the Type, and decoding
    that wire value gives the same value again, numbers included (they
    have taken the 53 bits of [big.NewFloat(0)] the first time). *)
Theorem ValueFromTerraform_stable
    (t : types.Type_) (in_ : tftypes.Value) (v : types.Value) :
  valid_value in_ = true →
  types.ValueFromTerraform t in_ = Ok v →
  round_trip t v = Ok v ∧
  ∃ val ty, types.ToTerraformValue v = Ok val ∧
            types.TerraformType t = Ok ty ∧
            tftypes.NewValue ty val = Ok (tftypes.mkValue ty val) ∧
            types.ValueFromTerraform t (tftypes.mkValue ty val) = Ok v.
Proof.
  intros Hv H.
  destruct (ValueFromTerraform_round_trips t in_ v Hv H)
    as [(val & ty & Hto & Hty & Hval & Hfrom) Hdec].
  rewrite Hdec in Hfrom. split.
  - unfold round_trip. rewrite Hto. cbn. rewrite Hty. cbn.
    by rewrite (NewValue_Ok_ValidateValue _ _ _ Hval), Hval.
  - by exists val, ty.
Qed.

Lemma ValueFromTerraform_stable_witness :
  let t := types.ListType (Some (types.Prim types.NumberType)) in
  let in_ := tftypes.mkValue (tftypes.List tftypes.Number)
    (tftypes.RawList
       [tftypes.mkValue tftypes.Number
          (tftypes.RawNumber (Some (big.mkFloat 64 (2 ^ 53 + 1) 0)));
        tftypes.mkValue tftypes.Number tftypes.RawNil]) in
  let v := types.List false false
    [types.Number false false (Some (big.mkFloat 53 (2 ^ 52) 1));
     types.Number false true None]
    (Some (types.Prim types.NumberType)) in
  valid_value in_ = true ∧
  types.ValueFromTerraform t in_ = Ok v ∧
  round_trip t v = Ok v.
Proof.
  intros t in_ v.
  assert (valid_value in_ = true) as Hv by (vm_compute; reflexivity).
  assert (types.ValueFromTerraform t in_ = Ok v) as H by (vm_compute; reflexivity).
  split; [exact Hv|]. split; [exact H|].
  exact (proj1 (ValueFromTerraform_stable t in_ v Hv H)).
Defined.

(** ** Equality of values: an equivalence

    [String.Equal], [Number.Equal], [Object.Equal], [List.Equal] and
    [Map.Equal] are those of the sources; [Bool.Equal] and the [Equal] of
    the primitive Types, which [List.Equal] and its siblings call on the
    declared types, are modelled from the spec. *)

Lemma Cmp_sym x y : big.Cmp x y = Eq → big.Cmp y x = Eq.
Proof.
  unfold big.Cmp. rewrite (Z.min_comm (big.exp y)).
  intros H%Z.compare_eq_iff. apply Z.compare_eq_iff. by rewrite H.
Qed.

Lemma Number_Value_Equal_refl q : types.Number_Value_Equal q q = true.
Proof. destruct q as [x|]; [|done]. cbn. by rewrite Cmp_refl. Qed.

Lemma Number_Value_Equal_sym q q' :
  types.Number_Value_Equal q q' = true → types.Number_Value_Equal q' q = true.
Proof.
  destruct q as [x|], q' as [y|]; try done. cbn.
  destruct (big.Cmp x y) eqn:H; try done. by rewrite (Cmp_sym _ _ H).
Qed.

Lemma Forall2_impl_elem {A B} (P Q : A → B → Prop) xs ys :
  Forall2 P xs ys → (∀ x y, x ∈ xs → y ∈ ys → P x y → Q x y) → Forall2 Q xs ys.
Proof.
  induction 1 as [|x y xs ys Hxy _ IH]; intros HPQ; constructor.
  - apply HPQ; [left..|done].
  - apply IH. intros x' y' Hx' Hy'. apply HPQ; by right.
Qed.

Lemma for_range_all2_inv {A} (p : A → A → result bool) xs ys :
  length xs = length ys → for_range_all2 p xs ys = Ok true →
  Forall2 (λ x y, p x y = Ok true) xs ys.
Proof.
  revert ys. induction xs as [|x xs IH]; intros [|y ys] Hlen H; try done.
  cbn [for_range_all2] in H. destruct (p x y) as [[]| |] eqn:Hp; try done.
  constructor; [done|]. apply IH; [|done]. simpl in Hlen. lia.
Qed.

Lemma for_range_all2_total {A} (p : A → A → result bool) xs ys :
  length xs = length ys →
  (∀ x y, x ∈ xs → is_ok (p x y) = true) →
  is_ok (for_range_all2 p xs ys) = true.
Proof.
  revert ys. induction xs as [|x xs IH]; intros [|y ys] Hlen H; try done.
  cbn [for_range_all2].
  pose proof (H x y (list_elem_of_here _ _)) as Hx.
  destruct (p x y) as [[]| |]; try done.
  apply IH; [simpl in Hlen; lia|]. intros x' y' Hx'. apply H. by right.
Qed.

(** The comparison of the attribute types in [Object.Equal] is
    [ObjectType.Equal]. *)
Lemma Object_Equal_unfold u n attrs ats u' n' attrs' ats' :
  types.Value_Equal (types.Object u n attrs ats) (types.Object u' n' attrs' ats') =
  if negb (eqb u u') then Ok false
  else if negb (eqb n n') then Ok false
  else
    match types.Type_Equal (types.ObjectType ats) (Some (types.ObjectType ats')) with
    | Ok true =>
        if bool_decide (size attrs ≠ size attrs') then Ok false
        else for_range_all (λ k a,
               match attrs' !! k with
               | None => Ok false
               | Some attr => types.Value_Equal a attr
               end) attrs
    | other => other
    end.
Proof.
  cbn [types.Value_Equal types.Type_Equal].
  destruct (negb (eqb u u')); [done|]. destruct (negb (eqb n n')); [done|].
  destruct (decide (size ats = size ats')) as [Heq|Hne].
  - rewrite (bool_decide_eq_false_2 (size ats ≠ size ats')) by (intros ?; done).
    by rewrite (bool_decide_eq_false_2 (size ats' ≠ size ats)) by (intros ?; done).
  - rewrite (bool_decide_eq_true_2 (size ats ≠ size ats')) by done.
    by rewrite (bool_decide_eq_true_2 (size ats' ≠ size ats)) by (intros ?; done).
Qed.

Lemma types_wf_Object u n attrs ats :
  types_wf (types.Object u n attrs ats) = true →
  wf (types.ObjectType ats) = true ∧ ∀ k a, attrs !! k = Some a → types_wf a = true.
Proof.
  cbn [types_wf]. intros [Hwf Hall]%andb_true_iff. split; [done|].
  intros k a Hk. by apply (proj1 (map_forallb_spec _ _) Hall k).
Qed.

Lemma types_wf_List u n elems et :
  types_wf (types.List u n elems et) = true →
  (∃ e, et = Some e ∧ wf e = true) ∧ ∀ x, x ∈ elems → types_wf x = true.
Proof.
  cbn [types_wf]. intros [Hwf Hall]%andb_true_iff. split.
  - destruct et as [e|]; [|done]. by exists e.
  - intros x Hx%list_elem_of_In. by apply (proj1 (forallb_forall _ _) Hall).
Qed.

Lemma types_wf_Map u n elems et :
  types_wf (types.Map u n elems et) = true →
  (∃ e, et = Some e ∧ wf e = true) ∧ ∀ k a, elems !! k = Some a → types_wf a = true.
Proof.
  cbn [types_wf]. intros [Hwf Hall]%andb_true_iff. split.
  - destruct et as [e|]; [|done]. by exists e.
  - intros k a Hk. by apply (proj1 (map_forallb_spec _ _) Hall k).
Qed.

Lemma Value_Equal_refl v : types_wf v = true → types.Value_Equal v v = Ok true.
Proof.
  induction v as [u n s|u n q|u n b|u n attrs ats IH|u n elems et IH|u n elems et IH]
    using Value_ind'; intros Hwf.
  - cbn. rewrite !eqb_reflx. cbn. by rewrite bool_decide_eq_true_2.
  - cbn. rewrite !eqb_reflx. cbn. by rewrite Number_Value_Equal_refl.
  - cbn. by rewrite !eqb_reflx.
  - apply types_wf_Object in Hwf as [Hats Hattrs].
    rewrite Object_Equal_unfold, !eqb_reflx. cbn [negb].
    rewrite Type_Equal_refl by done.
    rewrite bool_decide_eq_false_2 by (intros ?; done).
    apply for_range_all_true. intros k a Hk. rewrite Hk. apply (IH k a Hk).
    by apply (Hattrs k).
  - apply types_wf_List in Hwf as [(e & -> & He) Helems].
    cbn [types.Value_Equal]. rewrite !eqb_reflx. cbn [negb types.iface_Equal].
    rewrite Type_Equal_refl by done.
    rewrite bool_decide_eq_false_2 by (intros ?; done).
    apply for_range_all2_true, Forall_Forall2_diag, Forall_forall.
    intros x Hx. apply IH; [done|]. by apply Helems.
  - apply types_wf_Map in Hwf as [(e & -> & He) Helems].
    cbn [types.Value_Equal]. rewrite !eqb_reflx. cbn [negb types.iface_Equal].
    rewrite Type_Equal_refl by done.
    rewrite bool_decide_eq_false_2 by (intros ?; done).
    apply for_range_all_true. intros k a Hk. rewrite Hk. apply (IH k a Hk).
    by apply (Helems k).
Qed.

Lemma Value_Equal_total v :
  types_wf v = true → ∀ o, is_ok (types.Value_Equal v o) = true.
Proof.
  induction v as [u n s|u n q|u n b|u n attrs ats IH|u n elems et IH|u n elems et IH]
    using Value_ind'; intros Hwf o.
  - destruct o as [u' n' s'| | | | |]; cbn; try done.
    by destruct (negb (eqb u u')), (negb (eqb n n')).
  - destruct o as [|u' n' q'| | | |]; cbn; try done.
    by destruct (negb (eqb u u')), (negb (eqb n n')).
  - destruct o as [| |u' n' b'| | |]; cbn; try done.
    by destruct (negb (eqb u u')), (negb (eqb n n')).
  - apply types_wf_Object in Hwf as [Hats Hattrs].
    destruct o as [| | |u' n' attrs' ats'| |]; try done.
    rewrite Object_Equal_unfold. destruct (negb (eqb u u')); [done|]. destruct (negb (eqb n n')); [done|].
    destruct (Type_Equal_total _ (Some (types.ObjectType ats')) Hats) as [[] ->];
      [|done].
    case_bool_decide; [done|]. apply for_range_all_total.
    intros k a Hk. destruct (attrs' !! k); [|done]. apply (IH k a Hk).
    by apply (Hattrs k).
  - apply types_wf_List in Hwf as [(e & -> & He) Helems].
    destruct o as [| | | |u' n' elems' et'|]; try done.
    cbn [types.Value_Equal]. destruct (negb (eqb u u')); [done|]. destruct (negb (eqb n n')); [done|].
    cbn [types.iface_Equal].
    destruct (Type_Equal_total e et' He) as [[] ->]; [|done].
    case_bool_decide as Hlen; [done|]. apply for_range_all2_total.
    + destruct (decide (length elems = length elems')); [done|]. by destruct Hlen.
    + intros x y Hx. apply IH; [done|]. by apply Helems.
  - apply types_wf_Map in Hwf as [(e & -> & He) Helems].
    destruct o as [| | | | |u' n' elems' et']; try done.
    cbn [types.Value_Equal]. destruct (negb (eqb u u')); [done|]. destruct (negb (eqb n n')); [done|].
    cbn [types.iface_Equal].
    destruct (Type_Equal_total e et' He) as [[] ->]; [|done].
    case_bool_decide; [done|]. apply for_range_all_total.
    intros k a Hk. destruct (elems' !! k); [|done]. apply (IH k a Hk).
    by apply (Helems k).
Qed.

Lemma eqb_negb_false a b : negb (eqb a b) = false → a = b.
Proof. by destruct a, b. Qed.

(** What a [true] of [Equal] tells at the top of the two values. *)
Lemma Value_Equal_true_flags v o :
  types.Value_Equal v o = Ok true →
  variant_of_value v = variant_of_value o ∧
  types.Value_Unknown v = types.Value_Unknown o ∧
  types.Value_Null v = types.Value_Null o.
Proof.
  destruct v as [u n s|u n q|u n b|u n attrs ats|u n elems et|u n elems et],
    o as [u' n' s'|u' n' q'|u' n' b'|u' n' attrs' ats'|u' n' elems' et'
         |u' n' elems' et']; try done;
    cbn [types.Value_Equal variant_of_value types.Value_Unknown types.Value_Null];
    destruct (negb (eqb u u')) eqn:Hu; try done;
    destruct (negb (eqb n n')) eqn:Hn; try done;
    apply eqb_negb_false in Hu as ->; apply eqb_negb_false in Hn as ->; done.
Qed.

Lemma Value_Equal_true_sym v :
  ∀ o, types_wf v = true → types_wf o = true →
       types.Value_Equal v o = Ok true → types.Value_Equal o v = Ok true.
Proof.
  induction v as [u n s|u n q|u n b|u n attrs ats IH|u n elems et IH|u n elems et IH]
    using Value_ind'; intros o Hwf Hwfo H;
    pose proof (Value_Equal_true_flags _ _ H) as (Hvar & Hu & Hn);
    destruct o as [u' n' s'|u' n' q'|u' n' b'|u' n' attrs' ats'|u' n' elems' et'
                  |u' n' elems' et']; try done;
    cbn [types.Value_Unknown types.Value_Null] in Hu, Hn; subst u' n';
    try rewrite !Object_Equal_unfold in *;
    cbn [types.Value_Equal] in H |- *; rewrite !eqb_reflx in H |- *;
    cbn [negb] in H |- *.
  - injection H as H. apply bool_decide_eq_true in H as ->.
    by rewrite bool_decide_eq_true_2.
  - injection H as H. by rewrite Number_Value_Equal_sym.
  - injection H as H. apply eqb_prop in H as ->. by rewrite eqb_reflx.
  - apply types_wf_Object in Hwf as [Hats Hattrs].
    apply types_wf_Object in Hwfo as [Hats' Hattrs'].
    destruct (types.Type_Equal (types.ObjectType ats) _) as [[]| |] eqn:Heq;
      try done.
    apply Type_Equal_true in Heq; [|done]. injection Heq as ->.
    rewrite Type_Equal_refl by done.
    case_bool_decide as Hsize; [done|].
    assert (size attrs = size attrs') as Hsize'.
    { destruct (decide (size attrs = size attrs')); [done|]. by destruct Hsize. }
    pose proof (proj1 (for_range_all_true _ _) H) as Hall.
    rewrite bool_decide_eq_false_2 by (intros ?; lia).
    apply for_range_all_true. intros k a' Hk.
    destruct (map_dom_eq_of_size attrs attrs' Hsize') with (k := k) as [a Ha];
      [| by eexists |].
    { intros k' [a0 Ha0]. specialize (Hall k' a0 Ha0). simpl in Hall.
      by destruct (attrs' !! k'). }
    rewrite Ha. specialize (Hall k a Ha). simpl in Hall. rewrite Hk in Hall.
    apply (IH k a Ha); [by apply (Hattrs k)|by apply (Hattrs' k)|done].
  - apply types_wf_List in Hwf as [(e & -> & He) Helems].
    apply types_wf_List in Hwfo as [(e' & -> & He') Helems'].
    cbn [types.iface_Equal] in H |- *.
    destruct (types.Type_Equal e _) as [[]| |] eqn:Heq; try done.
    apply Type_Equal_true in Heq; [|done]. injection Heq as ->.
    rewrite Type_Equal_refl by done.
    case_bool_decide as Hlen; [done|].
    assert (length elems = length elems') as Hlen'.
    { destruct (decide (length elems = length elems')); [done|]. by destruct Hlen. }
    rewrite bool_decide_eq_false_2 by (intros ?; lia).
    apply for_range_all2_inv in H; [|done].
    apply for_range_all2_true, Forall2_flip.
    eapply Forall2_impl_elem; [exact H|]. intros x y Hx Hy Hxy. simpl.
    apply IH; [done|by apply Helems|by apply Helems'|done].
  - apply types_wf_Map in Hwf as [(e & -> & He) Helems].
    apply types_wf_Map in Hwfo as [(e' & -> & He') Helems'].
    cbn [types.iface_Equal] in H |- *.
    destruct (types.Type_Equal e _) as [[]| |] eqn:Heq; try done.
    apply Type_Equal_true in Heq; [|done]. injection Heq as ->.
    rewrite Type_Equal_refl by done.
    case_bool_decide as Hsize; [done|].
    assert (size elems = size elems') as Hsize'.
    { destruct (decide (size elems = size elems')); [done|]. by destruct Hsize. }
    pose proof (proj1 (for_range_all_true _ _) H) as Hall.
    rewrite bool_decide_eq_false_2 by (intros ?; lia).
    apply for_range_all_true. intros k a' Hk.
    destruct (map_dom_eq_of_size elems elems' Hsize') with (k := k) as [a Ha];
      [| by eexists |].
    { intros k' [a0 Ha0]. specialize (Hall k' a0 Ha0). simpl in Hall.
      by destruct (elems' !! k'). }
    rewrite Ha. specialize (Hall k a Ha). simpl in Hall. rewrite Hk in Hall.
    apply (IH k a Ha); [by apply (Helems k)|by apply (Helems' k)|done].
Qed.

(** X4.  On a value whose declared types have no nil component, at any
    depth, [Equal] returns whatever it is compared with, and the value is
    [Equal] to itself.  A list or a map whose [ElemType] is nil cannot be
    compared with a list or a map of the same flags: [l.ElemType.Equal]
    is then a method call on the nil interface. *)
Theorem Value_Equal_reflexive (v : types.Value) :
  types_wf v = true →
  types.Value_Equal v v = Ok true ∧
  (∀ o, ∃ b, types.Value_Equal v o = Ok b) ∧
  (∀ u n xs ys et,
     types.Value_Equal (types.List u n xs None) (types.List u n ys et) = Panic) ∧
  (∀ u n xs ys et,
     types.Value_Equal (types.Map u n xs None) (types.Map u n ys et) = Panic).
Proof.
  intros Hwf. split_and!.
  - by apply Value_Equal_refl.
  - intros o. pose proof (Value_Equal_total v Hwf o) as H.
    destruct (types.Value_Equal v o) as [b| |]; try done. by exists b.
  - intros u n xs ys et. cbn. by rewrite !eqb_reflx.
  - intros u n xs ys et. cbn. by rewrite !eqb_reflx.
Qed.

Lemma Value_Equal_reflexive_witness :
  let v := types.Object false false
    {[ "tags" := types.List false false
                   [types.String false false "a"; types.String true false ""]
                   (Some (types.Prim types.StringType)) ]}
    {[ "tags" := Some (types.ListType (Some (types.Prim types.StringType))) ]} in
  types_wf v = true ∧ types.Value_Equal v v = Ok true.
Proof.
  intros v.
  assert (types_wf v = true) as Hwf by (vm_compute; reflexivity).
  split; [exact Hwf|].
  exact (proj1 (Value_Equal_reflexive v Hwf)).
Defined.

(** X5.  [Equal] is symmetric on values whose declared types have no nil
    component: [v.Equal(o)] and [o.Equal(v)] return the same. *)
Theorem Value_Equal_symmetric (v o : types.Value) :
  types_wf v = true → types_wf o = true →
  types.Value_Equal v o = types.Value_Equal o v.
Proof.
  intros Hv Ho.
  pose proof (Value_Equal_total v Hv o) as H1.
  pose proof (Value_Equal_total o Ho v) as H2.
  destruct (types.Value_Equal v o) as [[]| |] eqn:E1; try done;
    destruct (types.Value_Equal o v) as [[]| |] eqn:E2; try done.
  - apply Value_Equal_true_sym in E1; [congruence|done..].
  - apply Value_Equal_true_sym in E2; [congruence|done..].
Qed.

Lemma Value_Equal_symmetric_witness :
  let v := types.Map false false
    {[ "x" := types.Number false false (Some (big.mkFloat 53 3 1)) ]}
    (Some (types.Prim types.NumberType)) in
  let o := types.Map false false
    {[ "x" := types.Number false false (Some (big.mkFloat 24 6 0)) ]}
    (Some (types.Prim types.NumberType)) in
  types_wf v = true ∧ types_wf o = true ∧
  types.Value_Equal v o = types.Value_Equal o v.
Proof.
  intros v o.
  assert (types_wf v = true) as Hv by (vm_compute; reflexivity).
  assert (types_wf o = true) as Ho by (vm_compute; reflexivity).
  split; [exact Hv|]. split; [exact Ho|].
  exact (Value_Equal_symmetric v o Hv Ho).
Defined.

Lemma Value_Equal_true_declared v o :
  types_wf v = true → types.Value_Equal v o = Ok true →
  declared_type o = declared_type v ∧ payload_size o = payload_size v.
Proof.
  intros Hwf H. pose proof (Value_Equal_true_flags _ _ H) as (Hvar & _ & _).
  destruct v as [u n s|u n q|u n b|u n attrs ats|u n elems et|u n elems et],
    o as [u' n' s'|u' n' q'|u' n' b'|u' n' attrs' ats'|u' n' elems' et'
         |u' n' elems' et']; try done.
  - apply types_wf_Object in Hwf as [Hats _].
    rewrite Object_Equal_unfold in H.
    destruct (negb (eqb u u')); [done|]. destruct (negb (eqb n n')); [done|].
    destruct (types.Type_Equal (types.ObjectType ats) _) as [[]| |] eqn:Heq;
      try done.
    apply Type_Equal_true in Heq; [|done]. injection Heq as ->.
    case_bool_decide as Hsize; [done|]. split; [done|]. cbn.
    destruct (decide (size attrs' = size attrs)); [done|].
    destruct Hsize. congruence.
  - apply types_wf_List in Hwf as [(e & -> & He) _].
    cbn [types.Value_Equal types.iface_Equal] in H.
    destruct (negb (eqb u u')); [done|]. destruct (negb (eqb n n')); [done|].
    destruct (types.Type_Equal e et') as [[]| |] eqn:Heq; try done.
    apply Type_Equal_true in Heq; [|done]. subst et'.
    case_bool_decide as Hsize; [done|]. split; [done|]. cbn.
    destruct (decide (length elems' = length elems)); [done|].
    destruct Hsize. congruence.
  - apply types_wf_Map in Hwf as [(e & -> & He) _].
    cbn [types.Value_Equal types.iface_Equal] in H.
    destruct (negb (eqb u u')); [done|]. destruct (negb (eqb n n')); [done|].
    destruct (types.Type_Equal e et') as [[]| |] eqn:Heq; try done.
    apply Type_Equal_true in Heq; [|done]. subst et'.
    case_bool_decide as Hsize; [done|]. split; [done|]. cbn.
    destruct (decide (size elems' = size elems)); [done|].
    destruct Hsize. congruence.
Qed.

(** X6.  What [Equal] compares before the payloads: two values that are
    [Equal] are of the same struct and have the same [Unknown] and the
    same [Null]; when the declared types of the receiver have no nil
    component, the two values declare the same Type and hold the same
    number of elements or attributes. *)
Theorem Value_Equal_true_inv (v o : types.Value) :
  types.Value_Equal v o = Ok true →
  variant_of_value v = variant_of_value o ∧
  types.Value_Unknown v = types.Value_Unknown o ∧
  types.Value_Null v = types.Value_Null o ∧
  (types_wf v = true →
   declared_type o = declared_type v ∧ payload_size o = payload_size v).
Proof.
  intros H. destruct (Value_Equal_true_flags _ _ H) as (Hvar & Hu & Hn).
  split_and!; try done. intros Hwf. by apply Value_Equal_true_declared.
Qed.

Lemma Value_Equal_true_inv_witness :
  let v := types.List true false [] (Some (types.Prim types.BoolType)) in
  let o := types.List true false [] (Some (types.Prim types.BoolType)) in
  types.Value_Equal v o = Ok true ∧
  types.Value_Unknown v = types.Value_Unknown o ∧
  declared_type o = declared_type v.
Proof.
  intros v o.
  assert (types.Value_Equal v o = Ok true) as H by (vm_compute; reflexivity).
  split; [exact H|].
  destruct (Value_Equal_true_inv v o H) as (_ & Hu & _ & Hd).
  split; [exact Hu|]. exact (proj1 (Hd eq_refl)).
Defined.

(** ** Encoding: the two flags *)

Lemma ValueFromTerraform_RawUnknown t ty :
  types.TerraformType t = Ok ty →
  types.ValueFromTerraform t (tftypes.mkValue ty tftypes.RawUnknown) = Ok (Unknown_of t).
Proof.
  intros HT. destruct t as [[]|m|e|e]; try done.
  - rewrite ValueFromTerraform_ObjectType, HT.
    cbn [mbind result_bind tftypes.Value_Type]. by rewrite Is_refl.
  - rewrite ValueFromTerraform_ListType, HT.
    cbn [mbind result_bind tftypes.Value_Type]. by rewrite Is_refl.
  - destruct (TerraformType_MapType_inv _ _ HT) as (e' & ety & -> & He & ->).
    rewrite ValueFromTerraform_MapType. cbn. rewrite He. cbn. by rewrite Is_refl.
Qed.

Lemma ValueFromTerraform_RawNil t ty :
  types.TerraformType t = Ok ty →
  types.ValueFromTerraform t (tftypes.mkValue ty tftypes.RawNil) = Ok (Null_of t).
Proof.
  intros HT. destruct t as [[]|m|e|e]; try done.
  - rewrite ValueFromTerraform_ObjectType, HT.
    cbn [mbind result_bind tftypes.Value_Type]. by rewrite Is_refl.
  - rewrite ValueFromTerraform_ListType, HT.
    cbn [mbind result_bind tftypes.Value_Type]. by rewrite Is_refl.
  - destruct (TerraformType_MapType_inv _ _ HT) as (e' & ety & -> & He & ->).
    rewrite ValueFromTerraform_MapType. cbn. rewrite He. cbn. by rewrite Is_refl.
Qed.

Lemma ToTerraformValue_encoded_state v :
  match encoded_state v with
  | Unknown => types.ToTerraformValue v = Ok tftypes.RawUnknown
  | Null => types.ToTerraformValue v = Ok tftypes.RawNil
  | Known => types.Value_Unknown v = false ∧ types.Value_Null v = false
  end.
Proof. by destruct v as [[] []|[] []|[] []|[] []|[] []|[] []]. Qed.

(** X7.  A value with a flag set is encoded as the unknown or the null
    wire value whatever its payload, and every Type without nil component
    decodes that to its own Unknown or Null value: the payload of the
    value is lost, and so is its struct.  The two flags are not tested in
    the same order everywhere: with both set, [String], [Number] and
    [Bool] encode null, [Object], [List] and [Map] encode unknown. *)
Theorem ToTerraformValue_flags (v : types.Value) (t : types.Type_) :
  wf t = true →
  (encoded_state v = Unknown →
   types.ToTerraformValue v = Ok tftypes.RawUnknown ∧
   round_trip t v = Ok (Unknown_of t)) ∧
  (encoded_state v = Null →
   types.ToTerraformValue v = Ok tftypes.RawNil ∧
   round_trip t v = Ok (Null_of t)) ∧
  (types.Value_Unknown v = false → types.Value_Null v = false →
   encoded_state v = Known) ∧
  (types.Value_Unknown v = true → types.Value_Null v = true →
   types.ToTerraformValue v =
     Ok (match variant_of_value v with
         | VString | VNumber | VBool => tftypes.RawNil
         | VObject | VList | VMap => tftypes.RawUnknown
         end)).
Proof.
  intros Hwf. destruct (TerraformType_wf t Hwf) as [ty HT].
  pose proof (ToTerraformValue_encoded_state v) as Hst.
  split_and!.
  - intros Hs. rewrite Hs in Hst. split; [done|].
    unfold round_trip. rewrite Hst. cbn. rewrite HT. cbn.
    by apply ValueFromTerraform_RawUnknown.
  - intros Hs. rewrite Hs in Hst. split; [done|].
    unfold round_trip. rewrite Hst. cbn. rewrite HT. cbn.
    by apply ValueFromTerraform_RawNil.
  - by destruct v as [[] []|[] []|[] []|[] []|[] []|[] []].
  - by destruct v as [[] []|[] []|[] []|[] []|[] []|[] []].
Qed.

Lemma ToTerraformValue_flags_witness :
  let v := types.List true true [types.String false false "kept?"]
             (Some (types.Prim types.StringType)) in
  let t := types.ListType (Some (types.Prim types.StringType)) in
  wf t = true ∧ encoded_state v = Unknown ∧
  round_trip t v = Ok (types.List true false [] (Some (types.Prim types.StringType))).
Proof.
  intros v t.
  assert (wf t = true) as Hwf by reflexivity.
  assert (encoded_state v = Unknown) as Hs by reflexivity.
  split; [exact Hwf|]. split; [exact Hs|].
  exact (proj2 (proj1 (ToTerraformValue_flags v t Hwf) Hs)).
Defined.

(** ** Encoding: the wire values are valid *)

Lemma wrap_inv et val y :
  types.wrap et val = Ok y →
  ∃ ety, types.iface_TerraformType et = Ok ety ∧
         tftypes.NewValue ety val = Ok y ∧
         tftypes.Value_Type y = ety.
Proof.
  unfold types.wrap.
  destruct (types.iface_TerraformType et) as [ety| |]; try done.
  cbn [mbind result_bind].
  destruct (tftypes.ValidateValue ety val) eqn:Hval; [|done].
  intros H. exists ety. split_and!; try done.
  unfold tftypes.NewValue in H. rewrite Hval in H.
  by destruct val as [| |s|[f|]|b|l|m]; injection H as <-.
Qed.

Lemma NewValue_Type ty val y :
  tftypes.NewValue ty val = Ok y → tftypes.Value_Type y = ty.
Proof.
  unfold tftypes.NewValue. destruct (tftypes.ValidateValue ty val); [|done].
  by destruct val as [| |s|[f|]|b|l|m]; intros [= <-].
Qed.

Lemma for_range_map_ext_Ok {A B} (f g : string → A → result B)
    (m : gmap string A) mb :
  (∀ k a b, m !! k = Some a → f k a = Ok b → g k a = Ok b) →
  for_range_map f m = Ok mb → for_range_map g m = Ok mb.
Proof.
  intros Hfg Hf. pose proof (for_range_map_spec f m) as Hs. rewrite Hf in Hs.
  destruct Hs as [Hok Hl]. apply for_range_map_intro.
  - intros k a Hk. specialize (Hok k a Hk).
    destruct (f k a) as [b| |] eqn:Hfa; try done.
    exists b. split; [by apply (Hfg k a b)|]. by rewrite Hl, Hk; simpl; rewrite Hfa.
  - intros k Hk. by rewrite Hl, Hk.
Qed.

(** Whatever [tftypes.NewValue] makes of the Go value that
    [ToTerraformValue] returns is a valid wire value, at every depth. *)
Lemma ToTerraformValue_valid v :
  ∀ val ty y, types.ToTerraformValue v = Ok val → tftypes.NewValue ty val = Ok y →
              valid_value y = true.
Proof.
  assert (∀ ty val y,
    tftypes.NewValue ty val = Ok y →
    match val with
    | tftypes.RawList l => forallb valid_value l = true
    | tftypes.RawMap m => map_forallb (λ _ x, valid_value x) m = true
    | _ => True
    end → valid_value y = true) as Hnew.
  { intros ty val y H Hch. pose proof (NewValue_Ok_ValidateValue _ _ _ H) as Hval.
    unfold tftypes.NewValue in H. rewrite Hval in H.
    destruct val as [| |s|[f|]|b|l|m]; injection H as <-; cbn [valid_value];
      rewrite ?Hval, ?Hch; done. }
  induction v as [u n s|u n q|u n b|u n attrs ats IH|u n elems et IH|u n elems et IH]
    using Value_ind'; intros val ty y Hto Hy; apply (Hnew _ _ _ Hy);
    cbn [types.ToTerraformValue] in Hto.
  - destruct n, u; by injection Hto as <-.
  - destruct n, u; by injection Hto as <-.
  - destruct n, u; by injection Hto as <-.
  - destruct u; [by injection Hto as <-|]. destruct n; [by injection Hto as <-|].
    destruct (for_range_map _ attrs) as [vals| |] eqn:Hl; try done.
    injection Hto as <-. apply map_forallb_spec. intros k x Hk.
    destruct (for_range_map_Ok_lookup _ _ _ _ _ Hl Hk) as (a & Ha & Hf).
    destruct (types.ToTerraformValue a) as [va| |] eqn:Hva; try done.
    apply wrap_inv in Hf as (ety & _ & Hx & _). by apply (IH k a Ha va ety).
  - destruct u; [by injection Hto as <-|]. destruct n; [by injection Hto as <-|].
    destruct (for_range_list _ elems) as [vals| |] eqn:Hl; try done.
    injection Hto as <-. apply forallb_forall. intros x Hx%list_elem_of_In.
    revert x Hx. apply Forall_forall. apply for_range_list_spec in Hl.
    eapply Forall2_Forall_r; [done|]. apply Forall_forall. intros a Ha x Hf.
    simpl in Hf. destruct (types.ToTerraformValue a) as [va| |] eqn:Hva; try done.
    apply wrap_inv in Hf as (ety & _ & Hx & _). by apply (IH a Ha va ety).
  - destruct u; [by injection Hto as <-|]. destruct n; [by injection Hto as <-|].
    destruct (for_range_map _ elems) as [vals| |] eqn:Hl; try done.
    injection Hto as <-. apply map_forallb_spec. intros k x Hk.
    destruct (for_range_map_Ok_lookup _ _ _ _ _ Hl Hk) as (a & Ha & Hf).
    simpl in Hf. destruct (types.ToTerraformValue a) as [va| |] eqn:Hva; try done.
    apply wrap_inv in Hf as (ety & _ & Hx & _). by apply (IH k a Ha va ety).
Qed.

(** X8.  Whatever a value holds, if [ToTerraformValue] returns and
    [tftypes.ValidateValue] accepts the result for the wire type of a
    Type, then the wire value that [tftypes.NewValue] builds is valid at
    every depth and the Type decodes it: past the validation, the trip to
    the wire and back cannot fail. *)
Theorem ToTerraformValue_decodable
    (v : types.Value) (t : types.Type_)
    (val : tftypes.raw tftypes.Value) (ty : tftypes.Type_) :
  types.ToTerraformValue v = Ok val →
  types.TerraformType t = Ok ty →
  tftypes.ValidateValue ty val = true →
  ∃ in_ v', tftypes.NewValue ty val = Ok in_ ∧
            valid_value in_ = true ∧
            types.ValueFromTerraform t in_ = Ok v' ∧
            round_trip t v = Ok v' ∧
            round_trip t v' = Ok v'.
Proof.
  intros Hto HT Hval.
  destruct (tftypes.NewValue ty val) as [in_| |] eqn:Hnew;
    try (unfold tftypes.NewValue in Hnew; rewrite Hval in Hnew;
         by destruct val as [| |?|[?|]|?|?|?]).
  pose proof (ToTerraformValue_valid v val ty in_ Hto Hnew) as Hv.
  destruct (ValueFromTerraform_valid_Ok t ty in_ HT (NewValue_Type _ _ _ Hnew) Hv)
    as [v' Hd].
  exists in_, v'. split_and!; try done.
  - unfold round_trip. rewrite Hto. cbn. rewrite HT. cbn. by rewrite Hval, Hnew.
  - destruct (ValueFromTerraform_round_trips t in_ v' Hv Hd)
      as [(val' & ty' & Hto' & Hty' & Hval' & Hfrom) Hdec].
    rewrite Hdec in Hfrom.
    unfold round_trip. rewrite Hto'. cbn. rewrite Hty'. cbn.
    by rewrite (NewValue_Ok_ValidateValue _ _ _ Hval'), Hval'.
Qed.

Lemma ToTerraformValue_decodable_witness :
  let v := types.Map false false
    {[ "a" := types.Number false false None;
       "b" := types.Number true true (Some (big.NewFloat 7)) ]}
    (Some (types.Prim types.NumberType)) in
  let t := types.MapType (Some (types.Prim types.NumberType)) in
  let val := tftypes.RawMap
    {[ "a" := tftypes.mkValue tftypes.Number tftypes.RawNil;
       "b" := tftypes.mkValue tftypes.Number tftypes.RawNil ]} in
  let ty := tftypes.Map tftypes.Number in
  types.ToTerraformValue v = Ok val ∧ types.TerraformType t = Ok ty ∧
  tftypes.ValidateValue ty val = true ∧
  ∃ v', round_trip t v = Ok v'.
Proof.
  intros v t val ty.
  assert (types.ToTerraformValue v = Ok val) as Hto by (vm_compute; reflexivity).
  assert (types.TerraformType t = Ok ty) as HT by (vm_compute; reflexivity).
  assert (tftypes.ValidateValue ty val = true) as Hval by (vm_compute; reflexivity).
  split; [exact Hto|]. split; [exact HT|]. split; [exact Hval|].
  destruct (ToTerraformValue_decodable v t val ty Hto HT Hval)
    as (in_ & v' & _ & _ & _ & Hrt & _).
  exists v'. exact Hrt.
Defined.

(** ** Handing a value to the reflection engine *)

Lemma List_ToTerraformValue_NewValue u n elems et values ety :
  types.ToTerraformValue (types.List u n elems et) = Ok values →
  types.iface_TerraformType et = Ok ety →
  tftypes.NewValue (tftypes.List ety) values
    = Ok (tftypes.mkValue (tftypes.List ety) values).
Proof.
  cbn [types.ToTerraformValue]. intros Hto Hety.
  destruct u; [by injection Hto as <-|]. destruct n; [by injection Hto as <-|].
  destruct (for_range_list _ elems) as [vals| |] eqn:Hl; try done.
  injection Hto as <-. apply NewValue_container; [|done].
  cbn. apply forallb_forall. intros x Hx%list_elem_of_In.
  revert x Hx. apply Forall_forall. apply for_range_list_spec in Hl.
  eapply Forall2_Forall_r; [done|]. apply Forall_forall. intros a Ha x Hf.
  simpl in Hf. destruct (types.ToTerraformValue a) as [va| |]; try done.
  apply wrap_inv in Hf as (ety' & Hety' & _ & ->).
  rewrite Hety in Hety'. injection Hety' as <-. apply Is_refl.
Qed.

Section into_properties.
Context {T R : Type}.
Variable Into : types.Type_ → tftypes.Value → T → reflect.Options → result R.
Variable errGetting errUsing : string → error → error.

(** X9.  [List.ElementsAs] hands to the reflection engine the Go value of
    [ToTerraformValue], wrapped as a list of the element wire type:
    [tftypes.NewValue] cannot panic there, the wire value is valid at
    every depth, and it is unknown (null) when the list is.  The call
    fails before the engine is reached if an element cannot be encoded,
    and panics if [ElemType] is nil. *)
Theorem List_ElementsAs_Into
    (u n : bool) (elems : list types.Value) (et : option types.Type_)
    (target : T) (allowUnhandled : bool) :
  List_ElementsAs Into u n elems et target allowUnhandled =
    match types.ToTerraformValue (types.List u n elems et) with
    | Ok values =>
        match types.iface_TerraformType et with
        | Ok elemTT =>
            Into (types.ListType et)
              (tftypes.mkValue (tftypes.List elemTT) values) target
              (reflect.mkOptions allowUnhandled allowUnhandled)
        | _ => Panic
        end
    | Err e => Err e
    | Panic => Panic
    end ∧
  (∀ values elemTT,
     types.ToTerraformValue (types.List u n elems et) = Ok values →
     types.iface_TerraformType et = Ok elemTT →
     let val := tftypes.mkValue (tftypes.List elemTT) values in
     valid_value val = true ∧
     tftypes.IsKnown val = negb u ∧
     (u = false → tftypes.IsNull val = n)).
Proof.
  split.
  - unfold List_ElementsAs.
    destruct (types.ToTerraformValue _) as [values| |] eqn:Hto; try done.
    cbn [mbind result_bind].
    destruct (types.iface_TerraformType et) as [ety|e|] eqn:Hety; try done.
    + cbn [mbind result_bind].
      by rewrite (List_ToTerraformValue_NewValue _ _ _ _ _ _ Hto Hety).
    + destruct et as [t|]; [|done]. by destruct (TerraformType_not_Err t e).
  - intros values elemTT Hto Hety val.
    pose proof (List_ToTerraformValue_NewValue _ _ _ _ _ _ Hto Hety) as Hnew.
    split; [by eapply ToTerraformValue_valid|].
    cbn [types.ToTerraformValue] in Hto. unfold val.
    destruct u; [by injection Hto as <-|].
    destruct n; [by injection Hto as <-|].
    destruct (for_range_list _ elems); try done. by injection Hto as <-.
Qed.

(** X10.  [Map.ElementsAs] reads neither [Unknown] nor [Null]: whatever
    the flags, it hands to the engine what it hands over for the known
    map of the same elements, which is the Go value that
    [ToTerraformValue] returns for the known map, wrapped as a map of the
    element wire type: a known wire value, valid at every depth.  Unlike
    [List.ElementsAs], it hands over an unknown or a null map as a known
    one. *)
Theorem Map_ElementsAs_Into
    (u n : bool) (elems : gmap string types.Value) (et : option types.Type_)
    (target : T) (allowUnhandled : bool)
    (values : tftypes.raw tftypes.Value) (elemTT : tftypes.Type_) :
  types.ToTerraformValue (types.Map false false elems et) = Ok values →
  types.iface_TerraformType et = Ok elemTT →
  let val := tftypes.mkValue (tftypes.Map elemTT) values in
  Map_ElementsAs Into errGetting errUsing u n elems et target allowUnhandled =
    Into (types.MapType et) val target
      (reflect.mkOptions allowUnhandled allowUnhandled) ∧
  valid_value val = true ∧
  tftypes.IsKnown val = true ∧ tftypes.IsNull val = false ∧
  (u = true → types.ToTerraformValue (types.Map u n elems et) = Ok tftypes.RawUnknown).
Proof.
  intros Hto Hety val.
  pose proof Hto as Hto'. cbn [types.ToTerraformValue] in Hto'.
  destruct (for_range_map _ elems) as [vals| |] eqn:Hl; try done.
  injection Hto' as <-.
  assert (tftypes.NewValue (tftypes.Map elemTT) (tftypes.RawMap vals)
          = Ok (tftypes.mkValue (tftypes.Map elemTT) (tftypes.RawMap vals)))
    as Hnew.
  { apply NewValue_container; [|done]. cbn. apply map_forallb_spec.
    intros k x Hk.
    destruct (for_range_map_Ok_lookup _ _ _ _ _ Hl Hk) as (a & Ha & Hf).
    simpl in Hf. destruct (types.ToTerraformValue a) as [va| |]; try done.
    apply wrap_inv in Hf as (ety' & Hety' & _ & ->).
    rewrite Hety in Hety'. injection Hety' as <-. apply Is_refl. }
  split_and!; try done.
  - assert (for_range_map (λ key elem,
              match types.ToTerraformValue elem with
              | Ok val =>
                  elemTT ← types.iface_TerraformType et;
                  if tftypes.ValidateValue elemTT val
                  then tftypes.NewValue elemTT val
                  else Err (errUsing key ErrValidate)
              | Err err => Err (errGetting key err)
              | Panic => Panic
              end) elems = Ok vals) as Hl'.
    { eapply for_range_map_ext_Ok; [|exact Hl].
      intros k a b Ha Hf. simpl in Hf |- *.
      destruct (types.ToTerraformValue a) as [va| |]; try done.
      unfold types.wrap in Hf. rewrite Hety in Hf |- *.
      cbn [mbind result_bind] in Hf |- *.
      by destruct (tftypes.ValidateValue elemTT va). }
    unfold Map_ElementsAs. rewrite Hl'.
    cbn [mbind result_bind]. rewrite Hety. cbn [mbind result_bind].
    by rewrite Hnew.
  - by eapply ToTerraformValue_valid.
  - by intros ->.
Qed.

(** For a known object, [tftypes.ValidateValue] accepts the Go value of
    [ToTerraformValue] exactly when [Attrs] holds the attributes that
    [AttrTypes] declares: the wire values are of the declared wire types
    by construction, so only the names can be wrong. *)
Lemma Object_ValidateValue_dom attrs ats typ val :
  types.TerraformType (types.ObjectType ats) = Ok typ →
  types.ToTerraformValue (types.Object false false attrs ats) = Ok val →
  tftypes.ValidateValue typ val = true ↔ dom attrs = dom ats.
Proof.
  intros HT Hto. cbn [types.ToTerraformValue] in Hto.
  destruct (for_range_map _ attrs) as [vals| |] eqn:Hl; try done.
  injection Hto as <-.
  destruct (TerraformType_ObjectType_inv _ _ HT) as (tys & -> & _ & Hdom & Hltys).
  pose proof (for_range_map_dom _ _ _ Hl) as Hdomvals.
  assert (map_forallb (λ k v,
            match tys !! k with
            | Some t' => tftypes.Is (tftypes.Value_Type v) t'
            | None => false
            end) vals = true) as Htypes.
  { apply map_forallb_spec. intros k x Hx.
    destruct (for_range_map_Ok_lookup _ _ _ _ _ Hl Hx) as (a & Ha & Hf).
    simpl in Hf. destruct (types.ToTerraformValue a) as [va| |]; try done.
    apply wrap_inv in Hf as (ety & Hety & _ & ->).
    rewrite Hltys. destruct (ats !! k) as [o|]; [|done]. simpl in Hety |- *.
    rewrite Hety. simpl. apply Is_refl. }
  cbn [tftypes.ValidateValue]. rewrite Htypes, andb_true_r.
  rewrite map_forallb_spec, <- Hdom, <- Hdomvals. split.
  - intros Hkeys. apply set_eq. intros k. rewrite !elem_of_dom. split.
    + intros [x Hx].
      pose proof (proj1 (map_forallb_spec _ _) Htypes k x Hx) as Hk. simpl in Hk.
      by destruct (tys !! k).
    + intros [t' Ht']. specialize (Hkeys k t' Ht'). simpl in Hkeys.
      by apply bool_decide_eq_true in Hkeys.
  - intros Heq k t' Ht'. apply bool_decide_eq_true, elem_of_dom.
    rewrite Heq. by apply elem_of_dom.
Qed.

(** X11.  [Object.As] hands to the reflection engine the Go value of
    [ToTerraformValue], wrapped as an object of the wire type of
    [ObjectType{AttrTypes: o.AttrTypes}], when [tftypes.ValidateValue]
    accepts it, and returns the validation error otherwise;
    [tftypes.NewValue] cannot panic there, and the wire object is valid
    at every depth.  An unknown or a null object always passes; a known
    one passes exactly when [Attrs] holds the attributes that [AttrTypes]
    declares. *)
Theorem Object_As_Into
    (u n : bool) (attrs : gmap string types.Value)
    (ats : gmap string (option types.Type_)) (target : T)
    (opts : ObjectAsOptions)
    (typ : tftypes.Type_) (val : tftypes.raw tftypes.Value) :
  types.TerraformType (types.ObjectType ats) = Ok typ →
  types.ToTerraformValue (types.Object u n attrs ats) = Ok val →
  let in_ := tftypes.mkValue typ val in
  Object_As Into u n attrs ats target opts =
    (if tftypes.ValidateValue typ val
     then Into (types.ObjectType ats) in_ target
            (reflect.mkOptions (UnhandledNullAsEmpty opts)
               (UnhandledUnknownAsEmpty opts))
     else Err ErrValidate) ∧
  (tftypes.ValidateValue typ val = true → valid_value in_ = true) ∧
  (u = true ∨ n = true → tftypes.ValidateValue typ val = true) ∧
  (u = false → n = false →
   tftypes.ValidateValue typ val = true ↔ dom attrs = dom ats).
Proof.
  intros HT Hto in_. split_and!.
  - unfold Object_As. rewrite HT. cbn [mbind result_bind]. rewrite Hto.
    cbn [mbind result_bind].
    destruct (tftypes.ValidateValue typ val) eqn:Hval; [|done].
    rewrite NewValue_container; [done..|].
    intros q ->. cbn [types.ToTerraformValue] in Hto.
    destruct u; [done|]. destruct n; [done|].
    by destruct (for_range_map _ attrs).
  - intros Hval. eapply ToTerraformValue_valid; [exact Hto|].
    apply NewValue_container; [done|].
    intros q ->. cbn [types.ToTerraformValue] in Hto.
    destruct u; [done|]. destruct n; [done|].
    by destruct (for_range_map _ attrs).
  - cbn [types.ToTerraformValue] in Hto.
    intros [-> | ->]; [by injection Hto as <-|].
    destruct u; by injection Hto as <-.
  - intros -> ->. by apply Object_ValidateValue_dom.
Qed.

End into_properties.

Lemma Map_ElementsAs_Into_witness :
  let elems : gmap string types.Value := {[ "k" := types.String false false "v" ]} in
  let et := Some (types.Prim types.StringType) in
  let values := tftypes.RawMap
    {[ "k" := tftypes.mkValue tftypes.String (tftypes.RawString "v") ]} in
  let Into := λ (_ : types.Type_) (val : tftypes.Value) (_ : unit)
                (_ : reflect.Options), Ok val in
  types.ToTerraformValue (types.Map false false elems et) = Ok values ∧
  types.iface_TerraformType et = Ok tftypes.String ∧
  Map_ElementsAs Into (λ _ e, e) (λ _ e, e) true false elems et () false
    = Ok (tftypes.mkValue (tftypes.Map tftypes.String) values).
Proof.
  intros elems et values Into.
  assert (types.ToTerraformValue (types.Map false false elems et) = Ok values)
    as Hto by (vm_compute; reflexivity).
  assert (types.iface_TerraformType et = Ok tftypes.String) as Hety by reflexivity.
  split; [exact Hto|]. split; [exact Hety|].
  exact (proj1 (Map_ElementsAs_Into Into (λ _ e, e) (λ _ e, e) true false elems et
                  () false values tftypes.String Hto Hety)).
Defined.

Lemma Object_As_Into_witness :
  let attrs : gmap string types.Value := {[ "a" := types.Bool false false true ]} in
  let ats : gmap string (option types.Type_) :=
    {[ "a" := Some (types.Prim types.BoolType);
       "b" := Some (types.Prim types.StringType) ]} in
  let typ := tftypes.Object {[ "a" := tftypes.Bool; "b" := tftypes.String ]} in
  let val := tftypes.RawMap
    {[ "a" := tftypes.mkValue tftypes.Bool (tftypes.RawBool true) ]} in
  let Into := λ (_ : types.Type_) (val : tftypes.Value) (_ : unit)
                (_ : reflect.Options), Ok val in
  types.TerraformType (types.ObjectType ats) = Ok typ ∧
  types.ToTerraformValue (types.Object false false attrs ats) = Ok val ∧
  Object_As Into false false attrs ats () (mkObjectAsOptions false false)
    = Err ErrValidate.
Proof.
  intros attrs ats typ val Into.
  assert (types.TerraformType (types.ObjectType ats) = Ok typ) as HT
    by (vm_compute; reflexivity).
  assert (types.ToTerraformValue (types.Object false false attrs ats) = Ok val)
    as Hto by (vm_compute; reflexivity).
  split; [exact HT|]. split; [exact Hto|].
  exact (proj1 (Object_As_Into Into false false attrs ats ()
                  (mkObjectAsOptions false false) typ val HT Hto)).
Defined.

(** ** The wire type of a schema *)

Lemma for_range_map_opt_intro {A B} (f : string → A → result (option B))
    (m : gmap string A) (mb : gmap string B) :
  (∀ k a, m !! k = Some a → ∃ o, f k a = Ok o ∧ mb !! k = o) →
  (∀ k, m !! k = None → mb !! k = None) →
  for_range_map_opt f m = Ok mb.
Proof.
  intros Hsome Hnone. pose proof (for_range_map_opt_spec f m) as Hs.
  destruct (for_range_map_opt f m) as [mb'|e|].
  - destruct Hs as [_ Hl]. f_equal. apply map_eq. intros k. rewrite Hl.
    destruct (m !! k) as [a|] eqn:Hk; simpl.
    + destruct (Hsome k a Hk) as (o & -> & ->). done.
    + by rewrite Hnone.
  - destruct Hs as (k & a & Hk & Hf).
    destruct (Hsome k a Hk) as (o & Ho & _). congruence.
  - destruct Hs as (k & a & Hk & Hf).
    destruct (Hsome k a Hk) as (o & Ho & _). by rewrite Ho in Hf.
Qed.

Lemma iface_TerraformType_not_Err o e : types.iface_TerraformType o ≠ Err e.
Proof. destruct o as [t|]; [apply TerraformType_not_Err|done]. Qed.

Lemma TerraformType_entry_not_Err a e : schema.TerraformType_entry a ≠ Err e.
Proof.
  destruct a as [[t|] [n|]]; unfold schema.TerraformType_entry; cbn.
  - destruct (types.TerraformType t) as [ty|e'|] eqn:Ht; cbn; try done.
    + destruct (types.iface_TerraformType _) as [ty'|e'|] eqn:Hn; cbn; try done.
      intros [= ->]. by destruct (iface_TerraformType_not_Err _ _ Hn).
    + intros [= ->]. by destruct (TerraformType_not_Err _ _ Ht).
  - destruct (types.TerraformType t) as [ty|e'|] eqn:Ht; cbn; try done.
    intros [= ->]. by destruct (TerraformType_not_Err _ _ Ht).
  - destruct (types.iface_TerraformType _) as [ty'|e'|] eqn:Hn; cbn; try done.
    intros [= ->]. by destruct (iface_TerraformType_not_Err _ _ Hn).
  - done.
Qed.

(** The entry of [Schema.TerraformType] is the wire type of the entry of
    [Schema.AttributeType]. *)
Lemma TerraformType_entry_Ok a o :
  schema.TerraformType_entry a = Ok o →
  match schema.attrTypes_entry a with
  | None => o = None
  | Some e => ∃ ty, types.iface_TerraformType e = Ok ty ∧ o = Some ty
  end.
Proof.
  destruct a as [[t|] [n|]]; unfold schema.TerraformType_entry;
    cbn [schema.Attribute_Type schema.Attribute_Attributes schema.attrTypes_entry].
  - destruct (types.TerraformType t) as [ty| |]; cbn; try done.
    destruct (types.iface_TerraformType _) as [ty'| |]; cbn; try done.
    intros [= <-]. by exists ty'.
  - destruct (types.TerraformType t) as [ty| |] eqn:Ht; cbn; try done.
    intros [= <-]. by exists ty.
  - cbn. destruct (types.iface_TerraformType _) as [ty'| |]; cbn; try done.
    intros [= <-]. by exists ty'.
  - cbn. by intros [= <-].
Qed.

Lemma TerraformType_entry_of_AttributeType a e ty :
  schema.attrTypes_entry a = Some e → types.iface_TerraformType e = Ok ty →
  (schema.Attribute_Type a = None ∨ schema.Attribute_Attributes a = None) →
  schema.TerraformType_entry a = Ok (Some ty).
Proof.
  destruct a as [[t|] [n|]]; unfold schema.TerraformType_entry;
    cbn [schema.Attribute_Type schema.Attribute_Attributes schema.attrTypes_entry];
    intros [= <-] Hty [?|?]; try done; cbn in Hty |- *; by rewrite Hty.
Qed.

Lemma Schema_TerraformType_Ok s ty :
  schema.Schema_TerraformType s = Ok ty →
  types.TerraformType (schema.Schema_AttributeType s) = Ok ty.
Proof.
  unfold schema.Schema_TerraformType, schema.Schema_AttributeType. intros H.
  pose proof (for_range_map_opt_spec
    (λ _ a, schema.TerraformType_entry a) (schema.Attributes s)) as Hs.
  destruct (for_range_map_opt _ _) as [tys| |]; try done.
  cbn in H. injection H as <-. destruct Hs as [Hok Hl].
  cbn [types.TerraformType].
  rewrite (for_range_map_intro _ _ tys); [done| |].
  - intros k e Hk. apply lookup_omap_Some in Hk as (a & He & Ha).
    specialize (Hok k a Ha). simpl in Hok.
    destruct (schema.TerraformType_entry a) as [o| |] eqn:Hent; try done.
    pose proof (TerraformType_entry_Ok _ _ Hent) as Hrel. rewrite He in Hrel.
    destruct Hrel as (ty & Hty & ->). exists ty. split.
    + by destruct e.
    + rewrite Hl, Ha. simpl. by rewrite Hent.
  - intros k Hk. rewrite lookup_omap in Hk. rewrite Hl.
    destruct (schema.Attributes s !! k) as [a|] eqn:Ha; [|done]. simpl in Hk |- *.
    specialize (Hok k a Ha). simpl in Hok.
    destruct (schema.TerraformType_entry a) as [o| |] eqn:Hent; try done.
    apply TerraformType_entry_Ok in Hent. rewrite Hk in Hent. by subst o.
Qed.

Lemma Schema_TerraformType_not_Err s e : schema.Schema_TerraformType s ≠ Err e.
Proof.
  unfold schema.Schema_TerraformType. intros H.
  pose proof (for_range_map_opt_spec
    (λ _ a, schema.TerraformType_entry a) (schema.Attributes s)) as Hs.
  destruct (for_range_map_opt _ _) as [tys|e'|]; try done.
  destruct Hs as (k & a & _ & Hf). by destruct (TerraformType_entry_not_Err a e').
Qed.

(** X12.  [Schema.TerraformType] and [Schema.AttributeType] agree: when
    the first returns, its result is the wire type of the second; the two
    coincide on every schema in which no attribute sets both [Type] and
    [Attributes].  Neither returns for a schema with a set-nested or a
    map-nested attribute, whose [AttributeType] is nil: the method call
    on the nil interface panics. *)
Theorem Schema_TerraformType_AttributeType (s : schema.Schema) :
  (∀ ty, schema.Schema_TerraformType s = Ok ty →
         types.TerraformType (schema.Schema_AttributeType s) = Ok ty) ∧
  ((∀ k a, schema.Attributes s !! k = Some a →
           schema.Attribute_Type a = None ∨ schema.Attribute_Attributes a = None) →
   schema.Schema_TerraformType s
     = types.TerraformType (schema.Schema_AttributeType s)) ∧
  (∀ k t n, schema.Attributes s !! k = Some (schema.mkAttribute t (Some n)) →
            schema.GetNestingMode n = schema.NestingModeSet ∨
            schema.GetNestingMode n = schema.NestingModeMap →
            schema.Schema_TerraformType s = Panic ∧
            types.TerraformType (schema.Schema_AttributeType s) = Panic) ∧
  (∀ e, schema.Schema_TerraformType s ≠ Err e).
Proof.
  split_and!.
  - apply Schema_TerraformType_Ok.
  - intros Hone.
    destruct (types.TerraformType (schema.Schema_AttributeType s))
      as [ty|e|] eqn:HT.
    + destruct (TerraformType_ObjectType_inv _ _ HT) as (tys & -> & Hloop & _ & _).
      unfold schema.Schema_TerraformType.
      rewrite (for_range_map_opt_intro _ _ tys); [done| |].
      * intros k a Ha.
        destruct (schema.attrTypes_entry a) as [e|] eqn:He.
        -- assert (omap schema.attrTypes_entry (schema.Attributes s) !! k = Some e)
             as Hk by (by rewrite lookup_omap, Ha).
           destruct (for_range_map_Ok_inv _ _ _ k e Hloop Hk) as (ty & Hty & Htys).
           exists (Some ty). split; [|done].
           apply (TerraformType_entry_of_AttributeType a e ty He);
             [by destruct e|by apply (Hone k)].
        -- exists None. split.
           ++ destruct a as [[t|] [n|]]; done.
           ++ rewrite (for_range_map_Ok _ _ _ Hloop k), lookup_omap, Ha. simpl.
              by rewrite He.
      * intros k Ha. by rewrite (for_range_map_Ok _ _ _ Hloop k), lookup_omap, Ha.
    + by destruct (TerraformType_not_Err _ _ HT).
    + destruct (schema.Schema_TerraformType s) as [ty|e|] eqn:HS; [| |done].
      * apply Schema_TerraformType_Ok in HS. congruence.
      * by destruct (Schema_TerraformType_not_Err _ _ HS).
  - intros k t n Hk Hmode.
    assert (schema.AttributeType n = None) as Hnil.
    { by destruct n, Hmode. }
    assert (types.TerraformType (schema.Schema_AttributeType s) = Panic) as HP.
    { destruct (types.TerraformType (schema.Schema_AttributeType s))
        as [ty|e|] eqn:HT; [| |done].
      - destruct (TerraformType_ObjectType_inv _ _ HT) as (tys & -> & Hloop & _ & _).
        assert (omap schema.attrTypes_entry (schema.Attributes s) !! k = Some None)
          as Hk' by (rewrite lookup_omap, Hk; simpl; by rewrite Hnil).
        by destruct (for_range_map_Ok_inv _ _ _ k None Hloop Hk') as (ty & Hty & _).
      - by destruct (TerraformType_not_Err _ _ HT). }
    split; [|done].
    destruct (schema.Schema_TerraformType s) as [ty|e|] eqn:HS; [| |done].
    + apply Schema_TerraformType_Ok in HS. congruence.
    + by destruct (Schema_TerraformType_not_Err _ _ HS).
  - apply Schema_TerraformType_not_Err.
Qed.

(** ** The type of an attribute: two precedences *)

(** X13.  For an attribute of the schema, [AttributeAtPath] on its name
    returns the attribute and [AttributeTypeAtPath] returns its [Type],
    or, when [Type] is nil, the [AttributeType] of its [Attributes]
    (a panic when both are nil); the step on [Schema.AttributeType]
    returns the entry that the loop of [AttributeType] has left, in which
    [Attributes] comes first.  The two agree on an attribute that sets
    one of the two fields, and differ in precedence on one that sets
    both. *)
Theorem AttributeTypeAtPath_attribute {ps : types.PrimitiveStepper}
    (s : schema.Schema) (name : string) (a : schema.Attribute) :
  schema.Attributes s !! name = Some a →
  schema.AttributeAtPath s [tftypes.AttributeName name] = Ok a ∧
  schema.AttributeTypeAtPath s [tftypes.AttributeName name] = type_of_attribute a ∧
  types.ApplyTerraform5AttributePathStep (schema.Schema_AttributeType s)
    (tftypes.AttributeName name) = Ok (default None (schema.attrTypes_entry a)) ∧
  (∀ t, a = schema.mkAttribute (Some t) None →
        type_of_attribute a = Ok (Some t) ∧
        schema.attrTypes_entry a = Some (Some t)) ∧
  (∀ n, a = schema.mkAttribute None (Some n) →
        type_of_attribute a = Ok (schema.AttributeType n) ∧
        schema.attrTypes_entry a = Some (schema.AttributeType n)) ∧
  (∀ t n, a = schema.mkAttribute (Some t) (Some n) →
          type_of_attribute a = Ok (Some t) ∧
          schema.attrTypes_entry a = Some (schema.AttributeType n)) ∧
  (a = schema.mkAttribute None None →
   type_of_attribute a = Panic ∧ schema.attrTypes_entry a = None).
Proof.
  intros Ha. split_and!.
  - unfold schema.AttributeAtPath. cbn. by rewrite Ha.
  - unfold schema.AttributeTypeAtPath. cbn. by rewrite Ha.
  - cbn. by rewrite lookup_omap, Ha.
  - by intros t ->.
  - by intros n ->.
  - by intros t n ->.
  - by intros ->.
Qed.

Lemma AttributeTypeAtPath_attribute_witness :
  let a := schema.mkAttribute (Some (types.Prim types.StringType))
    (Some (schema.listNestedAttributes
       {[ "x" := schema.mkAttribute (Some (types.Prim types.BoolType)) None ]} 0 0)) in
  let s := schema.mkSchema {[ "both" := a ]} 0 "" "" "" in
  schema.Attributes s !! "both" = Some a ∧
  schema.AttributeTypeAtPath (ps := types.unreached) s
    [tftypes.AttributeName "both"]
    = Ok (Some (types.Prim types.StringType)) ∧
  types.ApplyTerraform5AttributePathStep (ps := types.unreached)
    (schema.Schema_AttributeType s) (tftypes.AttributeName "both")
    = Ok (Some (types.ListType (Some (types.ObjectType
             {[ "x" := Some (types.Prim types.BoolType) ]})))).
Proof.
  intros a s.
  assert (schema.Attributes s !! "both" = Some a) as Ha by reflexivity.
  split; [exact Ha|].
  destruct (AttributeTypeAtPath_attribute (ps := types.unreached) s "both" a Ha)
    as (_ & Hty & Hstep & _).
  split; [exact Hty|]. exact Hstep.
Defined.

Lemma WalkAttributePath_not_Err {ps : types.PrimitiveStepper} n path e :
  schema.WalkAttributePath n path ≠ Err e.
Proof.
  revert n. induction path as [|step rest IH]; intros n; [done|].
  cbn [schema.WalkAttributePath]. destruct (schema.apply_step n step); [|done..].
  apply IH.
Qed.

(** X14.  [AttributeAtPath] and [AttributeTypeAtPath] walk the same path:
    they fail with the same wrapped error when a step fails; where the
    first returns an attribute, the second returns the type of that
    attribute; where the first reports [ErrPathInsideAtomicAttribute],
    the second returns the Type that the path leads to; and a path that
    ends on the attributes of a list-, set- or map-nested group has a
    type but no attribute. *)
Theorem AttributeAtPath_AttributeTypeAtPath {ps : types.PrimitiveStepper}
    (s : schema.Schema) (path : list tftypes.AttributePathStep) :
  (∀ k e, schema.AttributeAtPath s path = Err (ErrStillRemains k e) ↔
          schema.AttributeTypeAtPath s path = Err (ErrStillRemains k e)) ∧
  (∀ a, schema.AttributeAtPath s path = Ok a →
        schema.AttributeTypeAtPath s path = type_of_attribute a) ∧
  (schema.AttributeAtPath s path = Err ErrPathInsideAtomicAttribute ↔
   ∃ t rest, schema.WalkAttributePath (schema.NSchema s) path
               = Ok (schema.NType (Some t), rest, None)) ∧
  (∀ t rest, schema.WalkAttributePath (schema.NSchema s) path
               = Ok (schema.NType (Some t), rest, None) →
             schema.AttributeTypeAtPath s path = Ok (Some t)) ∧
  (∀ n rest, schema.WalkAttributePath (schema.NSchema s) path
               = Ok (schema.NnestedAttributes n, rest, None) →
             schema.AttributeAtPath s path = Err ErrUnexpectedType ∧
             schema.AttributeTypeAtPath s path
               = Ok (Some (schema.nestedAttributes_AttributeType n))) ∧
  (schema.AttributeAtPath s path = Panic ↔
   schema.WalkAttributePath (schema.NSchema s) path = Panic).
Proof.
  unfold schema.AttributeAtPath, schema.AttributeTypeAtPath, type_of_attribute.
  pose proof (WalkAttributePath_not_Err (schema.NSchema s) path) as Hwalk.
  destruct (schema.WalkAttributePath (schema.NSchema s) path)
    as [[[res remaining] [err|]]|e|]; [| |by destruct (Hwalk e)|];
    cbn [mbind result_bind];
    split_and!; try destruct res as [s'|[[t'|] [n'|]]|n'|[t'|]]; cbn;
    first [solve_walk | by intros a [= <-]].
Qed.

(** ** Equality of nested attributes *)

Section Equal_properties.
Variable Attribute_Equal : schema.Attribute → schema.Attribute → bool.

Lemma nestedAttributes_Equal_iff (s other : gmap string schema.Attribute) :
  schema.nestedAttributes_Equal Attribute_Equal s other = true ↔
  dom s = dom other ∧
  ∀ k v ov, s !! k = Some v → other !! k = Some ov → Attribute_Equal v ov = true.
Proof.
  unfold schema.nestedAttributes_Equal. case_bool_decide as Hsize.
  - split; [done|]. intros [Hdom _]. destruct Hsize.
    by rewrite <- !size_dom, Hdom.
  - rewrite map_forallb_spec. split.
    + intros Hall. split.
      * apply set_subseteq_size_eq.
        -- intros k [v Hk]%elem_of_dom. specialize (Hall k v Hk). simpl in Hall.
           apply elem_of_dom. by destruct (other !! k).
        -- rewrite !size_dom.
           destruct (decide (size other = size s)); [lia|]. by destruct Hsize.
      * intros k v ov Hk Hok. specialize (Hall k v Hk). simpl in Hall.
        by rewrite Hok in Hall.
    + intros [Hdom Hall] k v Hk. simpl.
      destruct (other !! k) as [ov|] eqn:Hok; [by eapply Hall|].
      apply not_elem_of_dom in Hok. rewrite <- Hdom in Hok.
      by apply not_elem_of_dom in Hok; rewrite Hk in Hok.
Qed.

Lemma NestedAttributes_Equal_iff (n o : schema.NestedAttributes) :
  schema.NestedAttributes_Equal Attribute_Equal n (Some o) = true ↔
  schema.GetNestingMode n = schema.GetNestingMode o ∧
  schema.GetMinItems n = schema.GetMinItems o ∧
  schema.GetMaxItems n = schema.GetMaxItems o ∧
  dom (schema.GetAttributes n) = dom (schema.GetAttributes o) ∧
  ∀ k v ov, schema.GetAttributes n !! k = Some v →
            schema.GetAttributes o !! k = Some ov → Attribute_Equal v ov = true.
Proof.
  destruct n as [s|s min max|s min max|s min max],
           o as [s'|s' min' max'|s' min' max'|s' min' max'];
    cbn [schema.NestedAttributes_Equal schema.GetNestingMode schema.GetMinItems
         schema.GetMaxItems schema.GetAttributes];
    try (split; [done|by intros (? & _)]);
    try (case_bool_decide as Hmin; [split; [done|by intros (_ & ? & _)]|];
         case_bool_decide as Hmax; [split; [done|by intros (_ & _ & ? & _)]|]);
    rewrite nestedAttributes_Equal_iff;
    (split; [intros [? ?]; split_and!; first [done | congruence]
            |by intros (_ & _ & _ & ? & ?)]).
Qed.

(** X15.  The [Equal] of the nested attributes, for any [Equal] of the
    attributes: true exactly of two groups of the same nesting mode, with
    the same minimum and maximum number of items, the same attribute
    names and attributes that are pairwise [Equal]; false of the nil
    interface.  It is reflexive and symmetric when the [Equal] of the
    attributes is. *)
Theorem NestedAttributes_Equal_spec (n o : schema.NestedAttributes) :
  (schema.NestedAttributes_Equal Attribute_Equal n (Some o) = true ↔
   schema.GetNestingMode n = schema.GetNestingMode o ∧
   schema.GetMinItems n = schema.GetMinItems o ∧
   schema.GetMaxItems n = schema.GetMaxItems o ∧
   dom (schema.GetAttributes n) = dom (schema.GetAttributes o) ∧
   ∀ k v ov, schema.GetAttributes n !! k = Some v →
             schema.GetAttributes o !! k = Some ov → Attribute_Equal v ov = true) ∧
  schema.NestedAttributes_Equal Attribute_Equal n None = false ∧
  ((∀ a, Attribute_Equal a a = true) →
   schema.NestedAttributes_Equal Attribute_Equal n (Some n) = true) ∧
  ((∀ a b, Attribute_Equal a b = Attribute_Equal b a) →
   schema.NestedAttributes_Equal Attribute_Equal n (Some o)
     = schema.NestedAttributes_Equal Attribute_Equal o (Some n)).
Proof.
  split_and!.
  - apply NestedAttributes_Equal_iff.
  - by destruct n.
  - intros Hrefl. apply NestedAttributes_Equal_iff. split_and!; try done.
    intros k v ov Hv Hov. rewrite Hv in Hov. injection Hov as <-. apply Hrefl.
  - intros Hsym.
    assert (∀ n o,
      schema.NestedAttributes_Equal Attribute_Equal n (Some o) = true →
      schema.NestedAttributes_Equal Attribute_Equal o (Some n) = true) as Himp.
    { intros n' o' (Hmode & Hmin & Hmax & Hdom & Hall)%NestedAttributes_Equal_iff.
      apply NestedAttributes_Equal_iff. split_and!; try done.
      intros k v ov Hv Hov. rewrite Hsym. by eapply Hall. }
    destruct (schema.NestedAttributes_Equal Attribute_Equal n (Some o)) eqn:E1,
             (schema.NestedAttributes_Equal Attribute_Equal o (Some n)) eqn:E2;
      try done.
    + apply Himp in E1. congruence.
    + apply Himp in E2. congruence.
Qed.

End Equal_properties.

(** ** Decoding: the test of the wire type *)

Lemma Is_ne a b : a ≠ b → tftypes.Is a b = false.
Proof. intros H. destruct (tftypes.Is a b) eqn:E; [|done]. by apply Is_eq in E. Qed.

(** X16.  [ObjectType], [ListType] and [MapType] decode a wire value only
    if its declared type is their own wire type, and refuse any other
    before they look at the value: [ObjectType] with "expected %s, got
    %s", [ListType] with "can't use %s as value of List with ElementType
    %T", [MapType] with "can only use tftypes.Map values" for a value that
    is no map and with "can't use %s as value of Map with ElementType %T"
    for a map of other elements. *)
Theorem ValueFromTerraform_type_test
    (t : types.Type_) (ty : tftypes.Type_) (in_ : tftypes.Value) :
  types.TerraformType t = Ok ty →
  is_primitive t = false →
  (∀ v, types.ValueFromTerraform t in_ = Ok v → tftypes.Value_Type in_ = ty) ∧
  (tftypes.Value_Type in_ ≠ ty →
   types.ValueFromTerraform t in_ =
     Err (match t with
          | types.ObjectType _ => ErrObjectType
          | types.ListType _ => ErrListElemType
          | _ => if tftypes.IsMap (tftypes.Value_Type in_)
                 then ErrMapElemType else ErrNotMap
          end)).
Proof.
  intros HT Hprim. split.
  - intros v H. destruct t as [p|m|e|e]; [done| | |].
    + apply ValueFromTerraform_ObjectType_inv in H as (ty' & HT' & Hty & _).
      congruence.
    + apply ValueFromTerraform_ListType_inv in H as (e' & ety & -> & He & Hty & _).
      cbn in HT. rewrite He in HT. congruence.
    + apply ValueFromTerraform_MapType_inv in H as (e' & ety & -> & He & Hty & _).
      cbn in HT. rewrite He in HT. congruence.
  - intros Hne. destruct t as [p|m|e|e]; [done| | |].
    + rewrite ValueFromTerraform_ObjectType, HT. cbn [mbind result_bind].
      by rewrite Is_ne.
    + rewrite ValueFromTerraform_ListType, HT. cbn [mbind result_bind].
      by rewrite Is_ne.
    + destruct (TerraformType_MapType_inv _ _ HT) as (e' & ety & -> & He & ->).
      rewrite ValueFromTerraform_MapType.
      destruct (tftypes.IsMap _); [|done]. cbn [negb types.iface_TerraformType].
      rewrite He. cbn [mbind result_bind]. by rewrite Is_ne.
Qed.

Lemma ValueFromTerraform_type_test_witness :
  let t := types.MapType (Some (types.Prim types.StringType)) in
  let ty := tftypes.Map tftypes.String in
  let in_ := tftypes.mkValue (tftypes.Map tftypes.Bool) (tftypes.RawMap ∅) in
  types.TerraformType t = Ok ty ∧ is_primitive t = false ∧
  tftypes.Value_Type in_ ≠ ty ∧
  types.ValueFromTerraform t in_ = Err ErrMapElemType.
Proof.
  intros t ty in_.
  assert (types.TerraformType t = Ok ty) as HT by reflexivity.
  assert (is_primitive t = false) as Hp by reflexivity.
  assert (tftypes.Value_Type in_ ≠ ty) as Hne by (intros H; discriminate H).
  split; [exact HT|]. split; [exact Hp|]. split; [exact Hne|].
  exact (proj2 (ValueFromTerraform_type_test t ty in_ HT Hp) Hne).
Defined.

(** ** Encoding: what the result tells *)

Lemma for_range_list_Err {A B} (f : A → result B) xs e :
  for_range_list f xs = Err e → ∃ x, x ∈ xs ∧ f x = Err e.
Proof.
  induction xs as [|x xs IH]; [done|]. cbn [for_range_list].
  destruct (f x) as [y|e'|] eqn:Hx; [| |done].
  - destruct (for_range_list f xs) as [ys|e'|]; try done.
    intros [= ->]. destruct (IH eq_refl) as (x' & Hx' & Hf).
    exists x'. split; [by right|done].
  - intros [= ->]. exists x. split; [by left|done].
Qed.

Lemma wrap_Err et val e : types.wrap et val = Err e → e = ErrValidate.
Proof.
  unfold types.wrap.
  destruct (types.iface_TerraformType et) as [ety|e'|] eqn:Hety; cbn; try done.
  - destruct (tftypes.ValidateValue ety val) eqn:Hval; [|congruence].
    unfold tftypes.NewValue. rewrite Hval. by destruct val as [| |?|[?|]|?|?|?].
  - by destruct (iface_TerraformType_not_Err _ _ Hety).
Qed.

Lemma ToTerraformValue_Err v : ∀ e, types.ToTerraformValue v = Err e → e = ErrValidate.
Proof.
  induction v as [u n s|u n q|u n b|u n attrs ats IH|u n elems et IH|u n elems et IH]
    using Value_ind'; intros e; cbn [types.ToTerraformValue].
  - by destruct n, u.
  - by destruct n, u.
  - by destruct n, u.
  - destruct u; [done|]. destruct n; [done|].
    destruct (for_range_map _ attrs) as [vals|e'|] eqn:Hl; try done.
    intros [= ->]. apply for_range_map_Err in Hl as (k & a & Ha & Hf).
    destruct (types.ToTerraformValue a) as [va|e'|] eqn:Hva; try done.
    + by eapply wrap_Err.
    + injection Hf as ->. by apply (IH k a Ha).
  - destruct u; [done|]. destruct n; [done|].
    destruct (for_range_list _ elems) as [vals|e'|] eqn:Hl; try done.
    intros [= ->]. apply for_range_list_Err in Hl as (a & Ha & Hf).
    simpl in Hf. destruct (types.ToTerraformValue a) as [va|e'|] eqn:Hva; try done.
    + by eapply wrap_Err.
    + injection Hf as ->. by apply (IH a Ha).
  - destruct u; [done|]. destruct n; [done|].
    destruct (for_range_map _ elems) as [vals|e'|] eqn:Hl; try done.
    intros [= ->]. apply for_range_map_Err in Hl as (k & a & Ha & Hf).
    simpl in Hf. destruct (types.ToTerraformValue a) as [va|e'|] eqn:Hva; try done.
    + by eapply wrap_Err.
    + injection Hf as ->. by apply (IH k a Ha).
Qed.

(** X17.  The only error of [ToTerraformValue] is that of
    [tftypes.ValidateValue], for an element whose Go value does not fit
    the declared type.  What it returns tells the state and the struct of
    the value: the unknown sentinel or nil for a value with a flag set, a
    Go value of the matching kind for a known one; a list has one wire
    value per element, a map or an object one per key, each of the wire
    type of the declared element or attribute type. *)
Theorem ToTerraformValue_result (v : types.Value) :
  (∀ e, types.ToTerraformValue v = Err e → e = ErrValidate) ∧
  (∀ val, types.ToTerraformValue v = Ok val →
     match val with
     | tftypes.RawUnknown => encoded_state v = Unknown
     | tftypes.RawNil => encoded_state v = Null
     | tftypes.RawString s => v = types.String false false s
     | tftypes.RawNumber q => v = types.Number false false q
     | tftypes.RawBool b => v = types.Bool false false b
     | tftypes.RawList l =>
         ∃ elems et, v = types.List false false elems et ∧
           length l = length elems ∧
           ∀ x, x ∈ l → types.iface_TerraformType et = Ok (tftypes.Value_Type x)
     | tftypes.RawMap m =>
         (∃ elems et, v = types.Map false false elems et ∧ dom m = dom elems ∧
            ∀ k x, m !! k = Some x →
                   types.iface_TerraformType et = Ok (tftypes.Value_Type x)) ∨
         (∃ attrs ats, v = types.Object false false attrs ats ∧ dom m = dom attrs ∧
            ∀ k x, m !! k = Some x →
                   types.iface_TerraformType (default None (ats !! k))
                     = Ok (tftypes.Value_Type x))
     end).
Proof.
  split; [apply ToTerraformValue_Err|].
  intros val.
  destruct v as [u n s|u n q|u n b|u n attrs ats|u n elems et|u n elems et];
    cbn [types.ToTerraformValue encoded_state].
  - destruct n, u; by intros [= <-].
  - destruct n, u; by intros [= <-].
  - destruct n, u; by intros [= <-].
  - destruct u; [by intros [= <-]|]. destruct n; [by intros [= <-]|].
    destruct (for_range_map _ attrs) as [vals| |] eqn:Hl; try done.
    intros [= <-]. right. exists attrs, ats. split_and!; [done| |].
    + by eapply for_range_map_dom.
    + intros k x Hk.
      destruct (for_range_map_Ok_lookup _ _ _ _ _ Hl Hk) as (a & Ha & Hf).
      simpl in Hf. destruct (types.ToTerraformValue a) as [va| |]; try done.
      by apply wrap_inv in Hf as (ety & -> & _ & ->).
  - destruct u; [by intros [= <-]|]. destruct n; [by intros [= <-]|].
    destruct (for_range_list _ elems) as [vals| |] eqn:Hl; try done.
    intros [= <-]. exists elems, et. apply for_range_list_spec in Hl.
    split_and!; [done| |].
    + symmetry. by eapply Forall2_length.
    + apply Forall_forall. eapply Forall2_Forall_r; [done|].
      apply Forall_forall. intros a Ha x Hf. simpl in Hf.
      destruct (types.ToTerraformValue a) as [va| |]; try done.
      by apply wrap_inv in Hf as (ety & -> & _ & ->).
  - destruct u; [by intros [= <-]|]. destruct n; [by intros [= <-]|].
    destruct (for_range_map _ elems) as [vals| |] eqn:Hl; try done.
    intros [= <-]. left. exists elems, et. split_and!; [done| |].
    + by eapply for_range_map_dom.
    + intros k x Hk.
      destruct (for_range_map_Ok_lookup _ _ _ _ _ Hl Hk) as (a & Ha & Hf).
      simpl in Hf. destruct (types.ToTerraformValue a) as [va| |]; try done.
      by apply wrap_inv in Hf as (ety & -> & _ & ->).
Qed.

(** ** From the wire and back to the wire *)

Lemma rounded_Type x : tftypes.Value_Type (rounded x) = tftypes.Value_Type x.
Proof. by destruct x. Qed.

Lemma rounded_eta x :
  rounded x = tftypes.mkValue (tftypes.Value_Type x) (tftypes.Value_value (rounded x)).
Proof. by destruct x. Qed.

(** Rounding the numbers keeps a wire value valid. *)
Lemma rounded_NewValue x :
  valid_value x = true →
  tftypes.NewValue (tftypes.Value_Type x) (tftypes.Value_value (rounded x))
    = Ok (rounded x).
Proof.
  destruct x as [t r]. cbn [valid_value]. intros [Hval Hch]%andb_true_iff.
  cbn [tftypes.Value_Type]. unfold tftypes.NewValue.
  assert (tftypes.ValidateValue t
            (tftypes.Value_value (rounded (tftypes.mkValue t r))) = true) as ->.
  { destruct r as [| |s|[f|]|b|l|m]; try done; cbn [rounded tftypes.Value_value].
    - destruct t as [| | |e|e|ts]; try done. cbn in Hval |- *.
      apply forallb_forall. intros x' Hx'%list_elem_of_In.
      apply list_elem_of_fmap in Hx' as (x & -> & Hx). rewrite rounded_Type.
      by apply (proj1 (forallb_forall _ _) Hval), list_elem_of_In.
    - destruct t as [| | |e|e|ts]; try done; cbn in Hval |- *.
      + apply map_forallb_spec. intros k x' Hk.
        apply lookup_fmap_Some in Hk as (x & <- & Hk). rewrite rounded_Type.
        by apply (proj1 (map_forallb_spec _ _) Hval k).
      + apply andb_true_iff in Hval as [Hkeys Hvals]. apply andb_true_iff. split.
        * apply map_forallb_spec. intros k t' Hk.
          pose proof (proj1 (map_forallb_spec _ _) Hkeys k t' Hk) as Hin.
          simpl in Hin. apply bool_decide_eq_true in Hin as [x Hx].
          apply bool_decide_eq_true. rewrite lookup_fmap, Hx. by eexists.
        * apply map_forallb_spec. intros k x' Hk.
          apply lookup_fmap_Some in Hk as (x & <- & Hk). rewrite rounded_Type.
          by apply (proj1 (map_forallb_spec _ _) Hvals k). }
  by destruct r as [| |s|[f|]|b|l|m].
Qed.

Lemma wrap_rounded e ety x :
  types.TerraformType e = Ok ety → tftypes.Value_Type x = ety →
  valid_value x = true →
  types.wrap (Some e) (tftypes.Value_value (rounded x)) = Ok (rounded x).
Proof.
  intros He <- Hv. pose proof (rounded_NewValue x Hv) as Hnew.
  unfold types.wrap. cbn [types.iface_TerraformType]. rewrite He.
  cbn [mbind result_bind].
  by rewrite (NewValue_Ok_ValidateValue _ _ _ Hnew).
Qed.

Lemma ValueFromTerraform_ToTerraformValue t :
  ∀ ty in_ v, types.TerraformType t = Ok ty → tftypes.Value_Type in_ = ty →
              valid_value in_ = true → types.ValueFromTerraform t in_ = Ok v →
              types.ToTerraformValue v = Ok (tftypes.Value_value (rounded in_)).
Proof.
  induction t as [p|m IH|e IH|e IH] using Type_ind'; intros ty in_ v HT Hty Hv H.
  - rewrite ValueFromTerraform_Prim in H.
    apply primitive_ValueFromTerraform_inv in H. destruct in_ as [ity r].
    cbn [tftypes.Value_value] in H.
    destruct r as [| |s|[f|]|b|l|wm]; try done; destruct p; prim_inv H; done.
  - apply ValueFromTerraform_ObjectType_inv in H as (ty' & HT' & _ & Hcase).
    destruct (TerraformType_ObjectType_inv _ _ HT) as (tys & -> & _ & _ & Hltys).
    destruct in_ as [ity r]. cbn [tftypes.Value_Type tftypes.Value_value] in *.
    subst ity. pose proof Hv as Hv'. cbn [valid_value] in Hv'.
    apply andb_true_iff in Hv' as [Hval Hch].
    destruct r as [| |s|q|b|l|wm]; try done; try (by subst v).
    destruct Hcase as (attrs & Hloop & ->).
    cbn [tftypes.ValidateValue] in Hval. apply andb_true_iff in Hval as [_ Hvals].
    cbn [types.ToTerraformValue rounded tftypes.Value_value].
    rewrite (for_range_map_intro _ _ (rounded <$> wm)); [done| |].
    + intros k a Hk.
      destruct (for_range_map_Ok_lookup _ _ _ _ _ Hloop Hk) as (x & Hx & Hf).
      pose proof (proj1 (map_forallb_spec _ _) Hvals k x Hx) as Hxty.
      simpl in Hxty. rewrite Hltys in Hxty.
      destruct (m !! k) as [[e|]|] eqn:Hm; simpl in Hf, Hxty; try done.
      destruct (types.TerraformType e) as [ety| |] eqn:He; simpl in Hxty; try done.
      apply Is_eq in Hxty. pose proof (valid_value_map _ _ _ _ Hv Hx) as Hvx.
      exists (rounded x). split; [|by rewrite lookup_fmap, Hx].
      rewrite (IH k e Hm ety x a He Hxty Hvx Hf).
      by apply (wrap_rounded e ety).
    + intros k Hk. rewrite lookup_fmap.
      destruct (wm !! k) as [x|] eqn:Hx; [|done].
      apply not_elem_of_dom in Hk. rewrite (for_range_map_dom _ _ _ Hloop) in Hk.
      by apply not_elem_of_dom in Hk; rewrite Hx in Hk.
  - apply ValueFromTerraform_ListType_inv in H as (e' & ety & -> & He & Hity & Hcase).
    destruct in_ as [ity r]. cbn [tftypes.Value_Type tftypes.Value_value] in *.
    subst ity. subst ty.
    destruct r as [| |s|q|b|l|wm]; try done; try (by subst v).
    destruct Hcase as (elems & Hloop & ->).
    cbn [types.ToTerraformValue rounded tftypes.Value_value].
    assert (for_range_list (λ elem,
              match types.ToTerraformValue elem with
              | Ok val => types.wrap (Some e') val
              | Err e => Err e
              | Panic => Panic
              end) elems = Ok (rounded <$> l)) as ->; [|done].
    apply for_range_list_spec, Forall2_fmap_r, Forall2_flip.
    eapply Forall2_impl_elem; [exact Hloop|]. intros x a Hx Ha Hf. simpl.
    destruct (valid_value_list _ _ _ Hv Hx) as (Hvx & e0 & [= <-] & Hxty).
    rewrite (IH e' eq_refl ety x a He Hxty Hvx Hf).
    by apply (wrap_rounded e' ety).
  - apply ValueFromTerraform_MapType_inv in H as (e' & ety & -> & He & Hity & Hcase).
    destruct in_ as [ity r]. cbn [tftypes.Value_Type tftypes.Value_value] in *.
    subst ity. subst ty. pose proof Hv as Hv'. cbn [valid_value] in Hv'.
    apply andb_true_iff in Hv' as [Hval Hch].
    destruct r as [| |s|q|b|l|wm]; try done; try (by subst v).
    destruct Hcase as (elems & Hloop & ->).
    cbn [tftypes.ValidateValue] in Hval.
    cbn [types.ToTerraformValue rounded tftypes.Value_value].
    rewrite (for_range_map_intro _ _ (rounded <$> wm)); [done| |].
    + intros k a Hk.
      destruct (for_range_map_Ok_lookup _ _ _ _ _ Hloop Hk) as (x & Hx & Hf).
      pose proof (proj1 (map_forallb_spec _ _) Hval k x Hx) as Hxty.
      simpl in Hxty. apply Is_eq in Hxty.
      pose proof (valid_value_map _ _ _ _ Hv Hx) as Hvx.
      exists (rounded x). split; [|by rewrite lookup_fmap, Hx].
      rewrite (IH e' eq_refl ety x a He Hxty Hvx Hf).
      by apply (wrap_rounded e' ety).
    + intros k Hk. rewrite lookup_fmap.
      destruct (wm !! k) as [x|] eqn:Hx; [|done].
      apply not_elem_of_dom in Hk. rewrite (for_range_map_dom _ _ _ Hloop) in Hk.
      by apply not_elem_of_dom in Hk; rewrite Hx in Hk.
Qed.

Lemma rounded_idem x : rounded (rounded x) = rounded x.
Proof.
  induction x as [ty l IH|ty m IH|ty r Hl Hm] using tfValue_ind'.
  - cbn [rounded]. do 2 f_equal. rewrite <- list_fmap_compose.
    apply list_eq. intros i. rewrite !list_lookup_fmap.
    destruct (l !! i) as [x|] eqn:Hi; [|done]. simpl. f_equal.
    by apply IH, (list_elem_of_lookup_2 _ i).
  - cbn [rounded]. do 2 f_equal. rewrite <- map_fmap_compose.
    apply map_eq. intros k. rewrite !lookup_fmap.
    destruct (m !! k) as [x|] eqn:Hk; [|done]. simpl. f_equal. by apply (IH k).
  - destruct r as [| |s|[f|]|b|l|m]; try done.
    + cbn. by rewrite decoded_number_idem.
    + by destruct (Hl l).
    + by destruct (Hm m).
Qed.

(** X18.  From the wire and back to the wire: a valid wire value that a
    Type decodes is encoded again, by [ToTerraformValue] and
    [tftypes.NewValue], to the same wire value, with the same declared
    types, the unknown and null values where they were, the elements in
    their positions and under their keys; only the numbers have gone
    through [big.NewFloat(0).Set], which a second trip does not change
    again. *)
Theorem ValueFromTerraform_wire_round_trip
    (t : types.Type_) (ty : tftypes.Type_) (in_ : tftypes.Value) (v : types.Value) :
  types.TerraformType t = Ok ty →
  tftypes.Value_Type in_ = ty →
  valid_value in_ = true →
  types.ValueFromTerraform t in_ = Ok v →
  types.ToTerraformValue v = Ok (tftypes.Value_value (rounded in_)) ∧
  tftypes.NewValue ty (tftypes.Value_value (rounded in_)) = Ok (rounded in_) ∧
  types.ValueFromTerraform t (rounded in_) = Ok v ∧
  rounded (rounded in_) = rounded in_.
Proof.
  intros HT Hty Hv H.
  pose proof (ValueFromTerraform_ToTerraformValue t ty in_ v HT Hty Hv H) as Hto.
  pose proof (rounded_NewValue in_ Hv) as Hnew. rewrite Hty in Hnew.
  split_and!; [done|done| |apply rounded_idem].
  destruct (ValueFromTerraform_round_trips t in_ v Hv H)
    as [(val & ty' & Hto' & Hty' & Hval' & Hfrom) Hdec].
  rewrite Hdec in Hfrom. rewrite Hto in Hto'. injection Hto' as <-.
  rewrite HT in Hty'. injection Hty' as <-.
  by rewrite (rounded_eta in_), Hty.
Qed.

Lemma ValueFromTerraform_wire_round_trip_witness :
  let t := types.ObjectType
    {[ "n" := Some (types.Prim types.NumberType);
       "l" := Some (types.ListType (Some (types.Prim types.BoolType))) ]} in
  let ty := tftypes.Object
    {[ "n" := tftypes.Number; "l" := tftypes.List tftypes.Bool ]} in
  let in_ := tftypes.mkValue ty (tftypes.RawMap
    {[ "n" := tftypes.mkValue tftypes.Number
                (tftypes.RawNumber (Some (big.mkFloat 53 5 0)));
       "l" := tftypes.mkValue (tftypes.List tftypes.Bool)
                (tftypes.RawList
                   [tftypes.mkValue tftypes.Bool tftypes.RawUnknown;
                    tftypes.mkValue tftypes.Bool (tftypes.RawBool true)]) ]}) in
  ∃ v, types.TerraformType t = Ok ty ∧ tftypes.Value_Type in_ = ty ∧
       valid_value in_ = true ∧ types.ValueFromTerraform t in_ = Ok v ∧
       types.ToTerraformValue v = Ok (tftypes.Value_value (rounded in_)).
Proof.
  intros t ty in_.
  assert (types.TerraformType t = Ok ty) as HT by (vm_compute; reflexivity).
  assert (tftypes.Value_Type in_ = ty) as Hty by reflexivity.
  assert (valid_value in_ = true) as Hv by (vm_compute; reflexivity).
  destruct (ValueFromTerraform_valid_Ok t ty in_ HT Hty Hv) as [v H].
  exists v. split; [exact HT|]. split; [exact Hty|]. split; [exact Hv|].
  split; [exact H|].
  exact (proj1 (ValueFromTerraform_wire_round_trip t ty in_ v HT Hty Hv H)).
Defined.

(** ** Stepping and lowering commute *)

(** X19.  For an attribute [child] of a group of nested attributes,
    stepping through the group and lowering it to a Type commute: the
    steps that lead from the group to [child] (the attribute name, after
    an element key for a list) lead from the [AttributeType] of the group
    to the Type that the loop of [AttributeType] has recorded for
    [child].  No element key is refused for being out of the bounds
    [min], [max].  Set and map nesting step in the same way, by an
    [ElementKeyValue] and an [ElementKeyString], but have no Type to
    compare with. *)
Theorem nested_step_AttributeType {ps : types.PrimitiveStepper}
    (attrs : gmap string schema.Attribute) (min max : Z)
    (name : string) (child : schema.Attribute) :
  attrs !! name = Some child →
  let entry := default None (schema.attrTypes_entry child) in
  let object := schema.nestedAttributes_AttributeType attrs in
  schema.nestedAttributes_ApplyTerraform5AttributePathStep attrs
    (tftypes.AttributeName name) = Ok (schema.NAttribute child) ∧
  types.ApplyTerraform5AttributePathStep object (tftypes.AttributeName name)
    = Ok entry ∧
  (schema.NestedAttributes_ApplyTerraform5AttributePathStep
     (schema.singleNestedAttributes attrs) (tftypes.AttributeName name)
     = Ok (schema.NAttribute child) ∧
   schema.AttributeType (schema.singleNestedAttributes attrs) = Some object) ∧
  (∀ i,
     schema.NestedAttributes_ApplyTerraform5AttributePathStep
       (schema.listNestedAttributes attrs min max) (tftypes.ElementKeyInt i)
       = Ok (schema.NnestedAttributes attrs) ∧
     ∃ list, schema.AttributeType (schema.listNestedAttributes attrs min max)
               = Some list ∧
             types.ApplyTerraform5AttributePathStep list (tftypes.ElementKeyInt i)
               = Ok (Some object)) ∧
  (∀ v,
     schema.NestedAttributes_ApplyTerraform5AttributePathStep
       (schema.setNestedAttributes attrs min max) (tftypes.ElementKeyValue v)
       = Ok (schema.NnestedAttributes attrs)) ∧
  (∀ k,
     schema.NestedAttributes_ApplyTerraform5AttributePathStep
       (schema.mapNestedAttributes attrs min max) (tftypes.ElementKeyString k)
       = Ok (schema.NnestedAttributes attrs)) ∧
  (∀ other, attrs !! other = None →
     schema.nestedAttributes_ApplyTerraform5AttributePathStep attrs
       (tftypes.AttributeName other) = Err (ErrAttributeNotFound other "Attributes") ∧
     types.ApplyTerraform5AttributePathStep object (tftypes.AttributeName other)
       = Ok None).
Proof.
  intros Hchild entry object. split_and!.
  - cbn. by rewrite Hchild.
  - cbn. by rewrite lookup_omap, Hchild.
  - cbn. by rewrite Hchild.
  - done.
  - intros i. split; [done|]. by eexists.
  - done.
  - done.
  - intros other Hother. split.
    + cbn. by rewrite Hother.
    + cbn. by rewrite lookup_omap, Hother.
Qed.

Lemma nested_step_AttributeType_witness :
  let child := schema.mkAttribute (Some (types.Prim types.StringType)) None in
  let attrs : gmap string schema.Attribute := {[ "id" := child ]} in
  attrs !! "id" = Some child ∧
  schema.nestedAttributes_ApplyTerraform5AttributePathStep attrs
    (tftypes.AttributeName "id") = Ok (schema.NAttribute child) ∧
  types.ApplyTerraform5AttributePathStep (ps := types.unreached)
    (schema.nestedAttributes_AttributeType attrs)
    (tftypes.AttributeName "id") = Ok (Some (types.Prim types.StringType)).
Proof.
  intros child attrs.
  assert (attrs !! "id" = Some child) as H by reflexivity.
  split; [exact H|].
  destruct (nested_step_AttributeType (ps := types.unreached) attrs 0 0 "id" child H)
    as (H1 & H2 & _).
  exact (conj H1 H2).
Defined.

(** ** Decoding: the values are of the Type, the errors are of the shape *)

Lemma ValueFromTerraform_declared_type t in_ v :
  types.ValueFromTerraform t in_ = Ok v → declared_type v = t.
Proof.
  destruct t as [p|m|e|e]; intros H.
  - rewrite ValueFromTerraform_Prim in H.
    apply primitive_ValueFromTerraform_inv in H.
    destruct (tftypes.Value_value in_) as [| |s|[f|]|b|l|wm]; try done;
      destruct p; prim_inv H; done.
  - apply ValueFromTerraform_ObjectType_inv in H as (ty & _ & _ & Hcase).
    destruct (tftypes.Value_value in_) as [| |s|q|b|l|wm]; try done;
      try (by subst v).
    by destruct Hcase as (attrs & _ & ->).
  - apply ValueFromTerraform_ListType_inv in H as (e' & ety & -> & _ & _ & Hcase).
    destruct (tftypes.Value_value in_) as [| |s|q|b|l|wm]; try done;
      try (by subst v).
    by destruct Hcase as (attrs & _ & ->).
  - apply ValueFromTerraform_MapType_inv in H as (e' & ety & -> & _ & _ & Hcase).
    destruct (tftypes.Value_value in_) as [| |s|q|b|l|wm]; try done;
      try (by subst v).
    by destruct Hcase as (attrs & _ & ->).
Qed.

Lemma ValueFromTerraform_of_type t :
  ∀ in_ v, types.ValueFromTerraform t in_ = Ok v → of_type v t = true.
Proof.
  induction t as [p|m IH|e IH|e IH] using Type_ind'; intros in_ v H;
    pose proof (ValueFromTerraform_Ok_wf _ _ _ H) as Hwf;
    pose proof (ValueFromTerraform_declared_type _ _ _ H) as Hdecl;
    assert (ok_true (types.Type_Equal _ (Some (declared_type v))) = true) as Heq
      by (rewrite Hdecl, Type_Equal_refl by done; done).
  - destruct v; cbn [of_type]; by rewrite Heq.
  - apply ValueFromTerraform_ObjectType_inv in H as (ty & _ & _ & Hcase).
    destruct (tftypes.Value_value in_) as [| |s|q|b|l|wm]; try done;
      try (subst v; cbn [of_type]; rewrite Heq; reflexivity).
    destruct Hcase as (attrs & Hloop & ->). cbn [of_type]. rewrite Heq.
    apply map_forallb_spec. intros k a Hk.
    destruct (for_range_map_Ok_lookup _ _ _ _ _ Hloop Hk) as (x & Hx & Hf).
    destruct (m !! k) as [[t|]|] eqn:Hm; simpl in Hf; try done. by eapply IH.
  - apply ValueFromTerraform_ListType_inv in H as (e' & ety & -> & _ & _ & Hcase).
    destruct (tftypes.Value_value in_) as [| |s|q|b|l|wm]; try done;
      try (subst v; cbn [of_type]; rewrite Heq; reflexivity).
    destruct Hcase as (elems & Hloop & ->). cbn [of_type]. rewrite Heq.
    apply forallb_forall. intros y Hy%list_elem_of_In.
    revert y Hy. apply Forall_forall.
    eapply Forall2_Forall_r; [done|]. apply Forall_forall. intros x _ y Hy.
    by eapply IH.
  - apply ValueFromTerraform_MapType_inv in H as (e' & ety & -> & _ & _ & Hcase).
    destruct (tftypes.Value_value in_) as [| |s|q|b|l|wm]; try done;
      try (subst v; cbn [of_type]; rewrite Heq; reflexivity).
    destruct Hcase as (elems & Hloop & ->). cbn [of_type]. rewrite Heq.
    apply map_forallb_spec. intros k a Hk.
    destruct (for_range_map_Ok_lookup _ _ _ _ _ Hloop Hk) as (x & Hx & Hf).
    by eapply IH.
Qed.

Lemma of_type_declared v t :
  wf t = true → of_type v t = true →
  declared_type v = t ∧ variant_of_value v = variant_of t.
Proof.
  intros Hwf H.
  assert (ok_true (types.Type_Equal t (Some (declared_type v))) = true) as Heq.
  { destruct v; cbn [of_type] in H; by apply andb_true_iff in H as [H _]. }
  apply ok_true_inv, Type_Equal_true in Heq; [|done]. injection Heq as Heq.
  split; [done|]. rewrite <- Heq. by destruct v.
Qed.

(** X20.  What a Type decodes is a value of that Type, at every depth:
    the value declares the Type itself, each element of a decoded list or
    map is a value of the element type, and each attribute of a decoded
    object is a value of the type that [AttrTypes] gives to its name; so
    an element of a list decoded by [ListType{ElemType: t}] is of the
    struct that [t] decodes to. *)
Theorem ValueFromTerraform_of_Type
    (t : types.Type_) (in_ : tftypes.Value) (v : types.Value) :
  types.ValueFromTerraform t in_ = Ok v →
  of_type v t = true ∧
  declared_type v = t ∧
  (∀ elems et, v = types.List false false elems et →
     ∃ e, et = Some e ∧ t = types.ListType (Some e) ∧
          ∀ x, x ∈ elems → declared_type x = e ∧ variant_of_value x = variant_of e) ∧
  (∀ elems et, v = types.Map false false elems et →
     ∃ e, et = Some e ∧ t = types.MapType (Some e) ∧
          ∀ k x, elems !! k = Some x →
                 declared_type x = e ∧ variant_of_value x = variant_of e) ∧
  (∀ attrs ats, v = types.Object false false attrs ats →
     t = types.ObjectType ats ∧
     ∀ k x, attrs !! k = Some x →
            ∃ e, ats !! k = Some (Some e) ∧
                 declared_type x = e ∧ variant_of_value x = variant_of e).
Proof.
  intros H. pose proof (ValueFromTerraform_of_type t in_ v H) as Hof.
  pose proof (ValueFromTerraform_declared_type t in_ v H) as Hdecl.
  pose proof (ValueFromTerraform_Ok_wf t in_ v H) as Hwf.
  split_and!; try done.
  - intros elems et ->. cbn [declared_type] in Hdecl. subst t.
    destruct et as [e|]; [|done]. exists e. split_and!; try done.
    intros x Hx. apply of_type_declared; [done|].
    cbn [of_type] in Hof. apply andb_true_iff in Hof as [_ Hall].
    by apply (proj1 (forallb_forall _ _) Hall), list_elem_of_In.
  - intros elems et ->. cbn [declared_type] in Hdecl. subst t.
    destruct et as [e|]; [|done]. exists e. split_and!; try done.
    intros k x Hx. apply of_type_declared; [done|].
    cbn [of_type] in Hof. apply andb_true_iff in Hof as [_ Hall].
    by apply (proj1 (map_forallb_spec _ _) Hall k).
  - intros attrs ats ->. cbn [declared_type] in Hdecl. subst t.
    split; [done|]. intros k x Hx.
    cbn [of_type] in Hof. apply andb_true_iff in Hof as [_ Hall].
    pose proof (proj1 (map_forallb_spec _ _) Hall k x Hx) as Hk. simpl in Hk.
    destruct (ats !! k) as [[e|]|] eqn:Hats; try done.
    exists e. split; [done|]. apply of_type_declared; [|done].
    by destruct (wf_Object_lookup _ _ _ Hwf Hats) as (e' & [= <-] & He).
Qed.

Lemma ValueFromTerraform_of_Type_witness :
  let t := types.ListType (Some (types.Prim types.StringType)) in
  let in_ := tftypes.mkValue (tftypes.List tftypes.String)
    (tftypes.RawList [tftypes.mkValue tftypes.String tftypes.RawNil]) in
  let v := types.List false false [types.String false true ""]
    (Some (types.Prim types.StringType)) in
  types.ValueFromTerraform t in_ = Ok v ∧ of_type v t = true.
Proof.
  intros t in_ v.
  assert (types.ValueFromTerraform t in_ = Ok v) as H by (vm_compute; reflexivity).
  split; [exact H|].
  exact (proj1 (ValueFromTerraform_of_Type t in_ v H)).
Defined.

Lemma ValueFromTerraform_Err t :
  ∀ in_ err, types.ValueFromTerraform t in_ = Err err → shape_mismatch err = true.
Proof.
  induction t as [p|m IH|e IH|e IH] using Type_ind'; intros in_ err.
  - rewrite ValueFromTerraform_Prim. destruct in_ as [ty r].
    destruct p, r as [| |s|[f|]|b|l|wm]; cbn; try done; by intros [= <-].
  - rewrite ValueFromTerraform_ObjectType.
    destruct (types.TerraformType (types.ObjectType m)) as [ty|e'|] eqn:HT;
      [| |done].
    + cbn [mbind result_bind].
      destruct (tftypes.Is _ _); cbn [negb]; [|by intros [= <-]].
      destruct in_ as [ity r].
      destruct r as [| |s|q|b|l|wm]; cbn; try done; try (by intros [= <-]).
      destruct (for_range_map _ wm) as [attrs|e'|] eqn:Hl; try done.
      intros [= ->]. apply for_range_map_Err in Hl as (k & x & Hx & Hf).
      destruct (m !! k) as [[t|]|] eqn:Hm; simpl in Hf; try done. by eapply IH.
    + by destruct (TerraformType_not_Err _ _ HT).
  - rewrite ValueFromTerraform_ListType.
    destruct (types.TerraformType (types.ListType e)) as [ty|e'|] eqn:HT;
      [| |done].
    + cbn [mbind result_bind].
      destruct (tftypes.Is _ _); cbn [negb]; [|by intros [= <-]].
      destruct in_ as [ity r].
      destruct r as [| |s|q|b|l|wm]; cbn; try done; try (by intros [= <-]).
      destruct (for_range_list _ l) as [elems|e'|] eqn:Hl; try done.
      intros [= ->]. apply for_range_list_Err in Hl as (x & Hx & Hf).
      destruct e as [t|]; simpl in Hf; try done. by eapply IH.
    + by destruct (TerraformType_not_Err _ _ HT).
  - rewrite ValueFromTerraform_MapType.
    destruct (tftypes.IsMap _); cbn [negb]; [|by intros [= <-]].
    destruct (types.iface_TerraformType e) as [ety|e'|] eqn:HT; [| |done].
    + cbn [mbind result_bind].
      destruct (tftypes.Is _ _); cbn [negb]; [|by intros [= <-]].
      destruct in_ as [ity r].
      destruct r as [| |s|q|b|l|wm]; cbn; try done; try (by intros [= <-]).
      destruct (for_range_map _ wm) as [elems|e'|] eqn:Hl; try done.
      intros [= ->]. apply for_range_map_Err in Hl as (k & x & Hx & Hf).
      destruct e as [t|]; simpl in Hf; try done. by eapply IH.
    + by destruct (iface_TerraformType_not_Err _ _ HT).
Qed.

(** X21.  Every error of [ValueFromTerraform], of any Type and at any
    depth, reports a wire value of the wrong shape: it is one of the
    errors of the type tests of [ObjectType], [ListType] and [MapType], or
    the error of [tftypes.Value.As].  The error of an element is returned
    as it is, without the position or the key of the element. *)
Theorem ValueFromTerraform_errors
    (t : types.Type_) (in_ : tftypes.Value) (err : error) :
  types.ValueFromTerraform t in_ = Err err →
  shape_mismatch err = true ∧
  (∀ e ety l, t = types.ListType (Some e) →
     types.TerraformType e = Ok ety →
     tftypes.Value_Type in_ = tftypes.List ety →
     tftypes.Value_value in_ = tftypes.RawList l →
     ∃ x, x ∈ l ∧ types.ValueFromTerraform e x = Err err).
Proof.
  intros H. split; [by eapply ValueFromTerraform_Err|].
  intros e ety l -> He Hty Hval. rewrite ValueFromTerraform_ListType in H.
  cbn [types.TerraformType] in H. rewrite He in H.
  cbn [mbind result_bind] in H. rewrite Hty, Is_refl in H. cbn [negb] in H.
  unfold tftypes.IsKnown, tftypes.IsNull, tftypes.As_list in H.
  rewrite Hval in H. cbn in H.
  destruct (for_range_list _ l) as [elems|e'|] eqn:Hl; try done.
  injection H as ->. by apply for_range_list_Err in Hl.
Qed.

Lemma ValueFromTerraform_errors_witness :
  let t := types.ListType (Some (types.ListType (Some (types.Prim types.StringType)))) in
  let in_ := tftypes.mkValue (tftypes.List (tftypes.List tftypes.String))
    (tftypes.RawList
       [tftypes.mkValue (tftypes.List tftypes.Bool) (tftypes.RawList [])]) in
  types.ValueFromTerraform t in_ = Err ErrListElemType ∧
  shape_mismatch ErrListElemType = true.
Proof.
  intros t in_.
  assert (types.ValueFromTerraform t in_ = Err ErrListElemType) as H
    by (vm_compute; reflexivity).
  split; [exact H|].
  exact (proj1 (ValueFromTerraform_errors t in_ ErrListElemType H)).
Defined.

(** ** Equality of values: transitivity *)

(** [Cmp] at any common exponent [k] below the two exponents: the
    comparison of the two numbers scaled by [2^-k]. *)
Lemma Cmp_Eq_scaled x y k :
  (k ≤ big.exp x)%Z → (k ≤ big.exp y)%Z →
  big.Cmp x y = Eq ↔
  (big.mant x * 2 ^ (big.exp x - k) = big.mant y * 2 ^ (big.exp y - k))%Z.
Proof.
  intros Hx Hy. unfold big.Cmp. rewrite Z.compare_eq_iff.
  set (e := Z.min (big.exp x) (big.exp y)).
  assert (k ≤ e)%Z as He by (unfold e; lia).
  assert (e ≤ big.exp x)%Z as Hex by (unfold e; lia).
  assert (e ≤ big.exp y)%Z as Hey by (unfold e; lia).
  replace (big.exp x - k)%Z with ((big.exp x - e) + (e - k))%Z by lia.
  replace (big.exp y - k)%Z with ((big.exp y - e) + (e - k))%Z by lia.
  rewrite !Z.pow_add_r by lia. rewrite !Z.mul_assoc.
  assert (2 ^ (e - k) ≠ 0)%Z as Hpos by (apply Z.pow_nonzero; lia).
  split.
  - by intros ->.
  - by intros H%Z.mul_cancel_r.
Qed.

Lemma Cmp_trans x y z : big.Cmp x y = Eq → big.Cmp y z = Eq → big.Cmp x z = Eq.
Proof.
  set (k := Z.min (big.exp x) (Z.min (big.exp y) (big.exp z))).
  rewrite (Cmp_Eq_scaled x y k), (Cmp_Eq_scaled y z k), (Cmp_Eq_scaled x z k)
    by (unfold k; lia).
  congruence.
Qed.

Lemma Number_Value_Equal_trans q1 q2 q3 :
  types.Number_Value_Equal q1 q2 = true → types.Number_Value_Equal q2 q3 = true →
  types.Number_Value_Equal q1 q3 = true.
Proof.
  destruct q1 as [x|], q2 as [y|], q3 as [z|]; try done. cbn.
  destruct (big.Cmp x y) eqn:H1; try done.
  destruct (big.Cmp y z) eqn:H2; try done.
  by rewrite (Cmp_trans _ _ _ H1 H2).
Qed.

Lemma Forall2_trans_elem {A} (P Q R : A → A → Prop) xs ys zs :
  Forall2 P xs ys → Forall2 Q ys zs →
  (∀ x y z, x ∈ xs → P x y → Q y z → R x z) →
  Forall2 R xs zs.
Proof.
  intros HP. revert zs. induction HP as [|x y xs ys Hxy _ IH]; intros zs HQ HR.
  - inversion HQ. constructor.
  - inversion HQ as [|? z ? zs' Hyz HQ']; subst. constructor.
    + apply (HR x y z); [by left|done..].
    + apply IH; [done|]. intros x' y' z' Hx'. apply HR. by right.
Qed.

Lemma Value_Equal_trans a :
  ∀ b c, types_wf a = true →
         types.Value_Equal a b = Ok true → types.Value_Equal b c = Ok true →
         types.Value_Equal a c = Ok true.
Proof.
  induction a as [u n s|u n q|u n bo|u n attrs ats IH|u n elems et IH|u n elems et IH]
    using Value_ind'; intros b c Hwf Hab Hbc;
    pose proof (Value_Equal_true_flags _ _ Hab) as (Hvar & Hu & Hn);
    pose proof (Value_Equal_true_flags _ _ Hbc) as (Hvar' & Hu' & Hn');
    destruct b as [u1 n1 s1|u1 n1 q1|u1 n1 b1|u1 n1 attrs1 ats1|u1 n1 elems1 et1
                  |u1 n1 elems1 et1]; try done;
    destruct c as [u2 n2 s2|u2 n2 q2|u2 n2 b2|u2 n2 attrs2 ats2|u2 n2 elems2 et2
                  |u2 n2 elems2 et2]; try done;
    cbn [types.Value_Unknown types.Value_Null] in Hu, Hn, Hu', Hn';
    subst u1 n1 u2 n2;
    try rewrite !Object_Equal_unfold in *;
    cbn [types.Value_Equal] in Hab, Hbc |- *;
    rewrite !eqb_reflx in Hab, Hbc |- *; cbn [negb] in Hab, Hbc |- *.
  - injection Hab as Hab. injection Hbc as Hbc.
    apply bool_decide_eq_true in Hab as ->. apply bool_decide_eq_true in Hbc as ->.
    by rewrite bool_decide_eq_true_2.
  - injection Hab as Hab. injection Hbc as Hbc.
    by rewrite (Number_Value_Equal_trans _ _ _ Hab Hbc).
  - injection Hab as Hab. injection Hbc as Hbc.
    apply eqb_prop in Hab as ->. apply eqb_prop in Hbc as ->. by rewrite eqb_reflx.
  - apply types_wf_Object in Hwf as [Hats Hattrs].
    destruct (types.Type_Equal (types.ObjectType ats) _) as [[]| |] eqn:Heq;
      try done.
    apply Type_Equal_true in Heq; [|done]. injection Heq as ->.
    destruct (types.Type_Equal (types.ObjectType ats) (Some (types.ObjectType ats2)))
      as [[]| |] eqn:Heq'; try done.
    case_bool_decide as Hs1; [done|]. case_bool_decide as Hs2; [done|].
    pose proof (proj1 (for_range_all_true _ _) Hab) as Hall1.
    pose proof (proj1 (for_range_all_true _ _) Hbc) as Hall2.
    rewrite bool_decide_eq_false_2.
    2:{ intros Hne. destruct (decide (size attrs = size attrs1)) as [E|E];
          [|by destruct Hs1].
        destruct (decide (size attrs1 = size attrs2)) as [E'|E'];
          [|by destruct Hs2]. apply Hne. congruence. }
    apply for_range_all_true. intros k x Hx.
    specialize (Hall1 k x Hx). simpl in Hall1.
    destruct (attrs1 !! k) as [y|] eqn:Hy; [|done].
    specialize (Hall2 k y Hy). simpl in Hall2.
    destruct (attrs2 !! k) as [z|] eqn:Hz; [|done].
    apply (IH k x Hx y z); [by apply (Hattrs k)|done..].
  - apply types_wf_List in Hwf as [(e & -> & He) Helems].
    cbn [types.iface_Equal] in Hab.
    destruct (types.Type_Equal e et1) as [[]| |] eqn:Heq; try done.
    apply Type_Equal_true in Heq; [|done]. subst et1.
    cbn [types.iface_Equal] in Hbc |- *.
    destruct (types.Type_Equal e et2) as [[]| |] eqn:Heq'; try done.
    case_bool_decide as Hs1; [done|]. case_bool_decide as Hs2; [done|].
    assert (length elems = length elems1) as E1.
    { destruct (decide (length elems = length elems1)); [done|]. by destruct Hs1. }
    assert (length elems1 = length elems2) as E2.
    { destruct (decide (length elems1 = length elems2)); [done|]. by destruct Hs2. }
    rewrite bool_decide_eq_false_2 by (intros ?; congruence).
    apply for_range_all2_inv in Hab; [|done].
    apply for_range_all2_inv in Hbc; [|done].
    apply for_range_all2_true.
    eapply Forall2_trans_elem; [exact Hab|exact Hbc|].
    intros x y z Hx Hxy Hyz. simpl in Hxy, Hyz.
    apply (IH x Hx y z); [by apply Helems|done..].
  - apply types_wf_Map in Hwf as [(e & -> & He) Helems].
    cbn [types.iface_Equal] in Hab.
    destruct (types.Type_Equal e et1) as [[]| |] eqn:Heq; try done.
    apply Type_Equal_true in Heq; [|done]. subst et1.
    cbn [types.iface_Equal] in Hbc |- *.
    destruct (types.Type_Equal e et2) as [[]| |] eqn:Heq'; try done.
    case_bool_decide as Hs1; [done|]. case_bool_decide as Hs2; [done|].
    pose proof (proj1 (for_range_all_true _ _) Hab) as Hall1.
    pose proof (proj1 (for_range_all_true _ _) Hbc) as Hall2.
    rewrite bool_decide_eq_false_2.
    2:{ intros Hne. destruct (decide (size elems = size elems1)) as [E|E];
          [|by destruct Hs1].
        destruct (decide (size elems1 = size elems2)) as [E'|E'];
          [|by destruct Hs2]. apply Hne. congruence. }
    apply for_range_all_true. intros k x Hx.
    specialize (Hall1 k x Hx). simpl in Hall1.
    destruct (elems1 !! k) as [y|] eqn:Hy; [|done].
    specialize (Hall2 k y Hy). simpl in Hall2.
    destruct (elems2 !! k) as [z|] eqn:Hz; [|done].
    apply (IH k x Hx y z); [by apply (Helems k)|done..].
Qed.

(** X22.  [Equal] is transitive: when the declared types of the first
    value have no nil component, a value [Equal] to a second one that is
    [Equal] to a third is [Equal] to the third.  Numbers are compared by
    [Cmp], so that two numbers of the same value and different precisions
    are [Equal]; with X4 and X5, [Equal] is an equivalence on the values
    that decoding returns. *)
Theorem Value_Equal_transitive (a b c : types.Value) :
  types_wf a = true →
  types.Value_Equal a b = Ok true →
  types.Value_Equal b c = Ok true →
  types.Value_Equal a c = Ok true.
Proof. apply Value_Equal_trans. Qed.

Lemma Value_Equal_transitive_witness :
  let a := types.List false false
    [types.Number false false (Some (big.mkFloat 53 3 1))]
    (Some (types.Prim types.NumberType)) in
  let b := types.List false false
    [types.Number false false (Some (big.mkFloat 24 6 0))]
    (Some (types.Prim types.NumberType)) in
  let c := types.List false false
    [types.Number false false (Some (big.mkFloat 8 12 (-1)))]
    (Some (types.Prim types.NumberType)) in
  types_wf a = true ∧
  types.Value_Equal a b = Ok true ∧ types.Value_Equal b c = Ok true ∧
  types.Value_Equal a c = Ok true.
Proof.
  intros a b c.
  assert (types_wf a = true) as Hwf by reflexivity.
  assert (types.Value_Equal a b = Ok true) as Hab by (vm_compute; reflexivity).
  assert (types.Value_Equal b c = Ok true) as Hbc by (vm_compute; reflexivity).
  split; [exact Hwf|]. split; [exact Hab|]. split; [exact Hbc|].
  exact (Value_Equal_transitive a b c Hwf Hab Hbc).
Defined.

(** ** Encoding: the values that can be encoded *)

Lemma Map_ToTerraformValue_NewValue u n elems et values ety :
  types.ToTerraformValue (types.Map u n elems et) = Ok values →
  types.iface_TerraformType et = Ok ety →
  tftypes.NewValue (tftypes.Map ety) values
    = Ok (tftypes.mkValue (tftypes.Map ety) values).
Proof.
  cbn [types.ToTerraformValue]. intros Hto Hety.
  destruct u; [by injection Hto as <-|]. destruct n; [by injection Hto as <-|].
  destruct (for_range_map _ elems) as [vals| |] eqn:Hl; try done.
  injection Hto as <-. apply NewValue_container; [|done].
  cbn. apply map_forallb_spec. intros k x Hk.
  destruct (for_range_map_Ok_lookup _ _ _ _ _ Hl Hk) as (a & Ha & Hf).
  simpl in Hf. destruct (types.ToTerraformValue a) as [va| |]; try done.
  apply wrap_inv in Hf as (ety' & Hety' & _ & ->).
  rewrite Hety in Hety'. injection Hety' as <-. apply Is_refl.
Qed.

Lemma of_type_inv v t :
  wf t = true → of_type v t = true → declared_type v = t.
Proof. intros Hwf H. by apply of_type_declared. Qed.

Lemma wrap_NewValue e ety val y :
  types.TerraformType e = Ok ety → tftypes.NewValue ety val = Ok y →
  types.wrap (Some e) val = Ok y.
Proof.
  intros He Hnew. unfold types.wrap. cbn [types.iface_TerraformType].
  rewrite He. cbn [mbind result_bind].
  by rewrite (NewValue_Ok_ValidateValue _ _ _ Hnew).
Qed.

(** A complete value of a Type is encoded, and validated for the wire
    type of the Type. *)
Lemma of_type_encodes v :
  ∀ t, wf t = true → of_type v t = true → complete v = true →
       ∃ val ty y, types.ToTerraformValue v = Ok val ∧
                   types.TerraformType t = Ok ty ∧
                   tftypes.NewValue ty val = Ok y.
Proof.
  induction v as [u n s|u n q|u n b|u n attrs ats IH|u n elems et IH|u n elems et IH]
    using Value_ind'; intros t Hwf Hof Hc;
    pose proof (of_type_inv _ _ Hwf Hof) as Hdecl; cbn [declared_type] in Hdecl;
    subst t; destruct (TerraformType_wf _ Hwf) as [ty HT].
  - injection HT as <-. destruct n, u; by eexists _, _, _.
  - injection HT as <-. destruct n, u, q; by eexists _, _, _.
  - injection HT as <-. destruct n, u; by eexists _, _, _.
  - cbn [of_type] in Hof. apply andb_true_iff in Hof as [_ Hall].
    cbn [complete] in Hc. apply andb_true_iff in Hc as [Hdom Hcs].
    destruct u; [by exists tftypes.RawUnknown, ty; eexists|].
    destruct n; [by exists tftypes.RawNil, ty; eexists|].
    cbn [orb] in Hdom. apply bool_decide_eq_true in Hdom.
    destruct (for_range_map_total (λ k a,
      match types.ToTerraformValue a with
      | Ok val => types.wrap (default None (ats !! k)) val
      | Err e => Err e
      | Panic => Panic
      end) attrs) as [vals Hvals].
    { intros k a Hk.
      pose proof (proj1 (map_forallb_spec _ _) Hall k a Hk) as Ha. simpl in Ha.
      destruct (ats !! k) as [[e|]|] eqn:Hats; try done.
      destruct (wf_Object_lookup _ _ _ Hwf Hats) as (e' & [= <-] & He).
      destruct (IH k a Hk e He Ha) as (va & ety & y & -> & Hety & Hy).
      { by apply (proj1 (map_forallb_spec _ _) Hcs k). }
      simpl. by rewrite (wrap_NewValue e ety va y). }
    assert (types.ToTerraformValue (types.Object false false attrs ats)
            = Ok (tftypes.RawMap vals)) as Hto.
    { cbn [types.ToTerraformValue]. by rewrite Hvals. }
    exists (tftypes.RawMap vals), ty. eexists. split_and!; try done.
    apply NewValue_container; [|done].
    by apply (Object_ValidateValue_dom attrs ats).
  - destruct et as [e|]; [|done].
    cbn [of_type] in Hof. apply andb_true_iff in Hof as [_ Hall].
    cbn [complete] in Hc.
    destruct u; [by exists tftypes.RawUnknown, ty; eexists|].
    destruct n; [by exists tftypes.RawNil, ty; eexists|].
    destruct (TerraformType_ListType_inv _ _ HT) as (e' & ety & [= <-] & Hety & ->).
    destruct (for_range_list_total (λ elem,
      match types.ToTerraformValue elem with
      | Ok val => types.wrap (Some e) val
      | Err err => Err err
      | Panic => Panic
      end) elems) as [vals Hvals].
    { intros a Ha.
      destruct (IH a Ha e Hwf) as (va & ety' & y & -> & Hety' & Hy).
      - apply (proj1 (forallb_forall _ _) Hall), list_elem_of_In, Ha.
      - apply (proj1 (forallb_forall _ _) Hc), list_elem_of_In, Ha.
      - by rewrite (wrap_NewValue e ety' va y). }
    assert (types.ToTerraformValue (types.List false false elems (Some e))
            = Ok (tftypes.RawList vals)) as Hto.
    { cbn [types.ToTerraformValue]. by rewrite Hvals. }
    exists (tftypes.RawList vals), (tftypes.List ety). eexists.
    split_and!; try done.
    by apply (List_ToTerraformValue_NewValue false false elems (Some e)).
  - destruct et as [e|]; [|done].
    cbn [of_type] in Hof. apply andb_true_iff in Hof as [_ Hall].
    cbn [complete] in Hc.
    destruct u; [by exists tftypes.RawUnknown, ty; eexists|].
    destruct n; [by exists tftypes.RawNil, ty; eexists|].
    destruct (TerraformType_MapType_inv _ _ HT) as (e' & ety & [= <-] & Hety & ->).
    destruct (for_range_map_total (λ (_ : string) elem,
      match types.ToTerraformValue elem with
      | Ok val => types.wrap (Some e) val
      | Err err => Err err
      | Panic => Panic
      end) elems) as [vals Hvals].
    { intros k a Ha.
      destruct (IH k a Ha e Hwf) as (va & ety' & y & -> & Hety' & Hy).
      - by apply (proj1 (map_forallb_spec _ _) Hall k).
      - by apply (proj1 (map_forallb_spec _ _) Hc k).
      - by rewrite (wrap_NewValue e ety' va y). }
    assert (types.ToTerraformValue (types.Map false false elems (Some e))
            = Ok (tftypes.RawMap vals)) as Hto.
    { cbn [types.ToTerraformValue]. by rewrite Hvals. }
    exists (tftypes.RawMap vals), (tftypes.Map ety). eexists.
    split_and!; try done.
    by apply (Map_ToTerraformValue_NewValue false false elems (Some e)).
Qed.

(** X23.  The values that can be sent to the wire: a value of a Type
    without nil component (it declares the Type, and so do its elements
    and attributes, each for its own) in which every known object holds
    exactly the attributes that its [AttrTypes] declares is encoded by
    [ToTerraformValue], accepted by [tftypes.ValidateValue] for the wire
    type of the Type, and decoded by the Type; whatever the flags and the
    payloads are, the residual payload of an unknown or a null value and
    numbers of any precision included. *)
Theorem ToTerraformValue_of_type (v : types.Value) (t : types.Type_) :
  wf t = true → of_type v t = true → complete v = true →
  ∃ val ty v', types.ToTerraformValue v = Ok val ∧
               types.TerraformType t = Ok ty ∧
               tftypes.ValidateValue ty val = true ∧
               round_trip t v = Ok v' ∧
               of_type v' t = true.
Proof.
  intros Hwf Hof Hc.
  destruct (of_type_encodes v t Hwf Hof Hc) as (val & ty & y & Hto & HT & Hy).
  pose proof (NewValue_Ok_ValidateValue _ _ _ Hy) as Hval.
  pose proof (ToTerraformValue_valid v val ty y Hto Hy) as Hvy.
  destruct (ValueFromTerraform_valid_Ok t ty y HT (NewValue_Type _ _ _ Hy) Hvy)
    as [v' Hd].
  exists val, ty, v'. split_and!; try done.
  - unfold round_trip. rewrite Hto. cbn. rewrite HT. cbn. by rewrite Hval, Hy.
  - by eapply ValueFromTerraform_of_type.
Qed.

Lemma ToTerraformValue_of_type_witness :
  let t := types.ObjectType
    {[ "n" := Some (types.Prim types.NumberType);
       "l" := Some (types.ListType (Some (types.Prim types.StringType))) ]} in
  let v := types.Object false false
    {[ "n" := types.Number true true (Some (big.mkFloat 8 300 0));
       "l" := types.List false true [types.String false false "residual"]
                (Some (types.Prim types.StringType)) ]}
    {[ "n" := Some (types.Prim types.NumberType);
       "l" := Some (types.ListType (Some (types.Prim types.StringType))) ]} in
  wf t = true ∧ of_type v t = true ∧ complete v = true ∧
  ∃ v', round_trip t v = Ok v'.
Proof.
  intros t v.
  assert (wf t = true) as Hwf by (vm_compute; reflexivity).
  assert (of_type v t = true) as Hof by (vm_compute; reflexivity).
  assert (complete v = true) as Hc by (vm_compute; reflexivity).
  split; [exact Hwf|]. split; [exact Hof|]. split; [exact Hc|].
  destruct (ToTerraformValue_of_type v t Hwf Hof Hc)
    as (val & ty & v' & _ & _ & _ & Hrt & _).
  exists v'. exact Hrt.
Defined.
